(** * Culvert command layer: a shallow embedding and its properties

    The commands of culvert (probe, devmem, console, sfc, read, coprocessor
    and the top-level option parser) are C functions that call into the
    bridge, SoC and flash layers and report through return codes, [exit] and
    messages.  They are embedded here as functions in a small monad that
    records, in order, every call a command makes to those layers, and that
    threads [errno].  What the called layers answer is given by an
    environment. *)

From Stdlib Require Import ZArith List String Ascii Bool Lia.
Import ListNotations.
Local Open Scope string_scope.
Local Open Scope list_scope.
Local Open Scope Z_scope.

(** ** Machine integers *)

(** [unsigned long] is 32 or 64 bits wide; the sources test for it with
    [#if ULONG_MAX > UINT32_MAX]. *)
Inductive abi := ILP32 | LP64.

Definition ULONG_BITS (p : abi) : Z :=
  match p with ILP32 => 32 | LP64 => 64 end.

Definition UINT32_MAX : Z := 4294967295.
Definition ULONG_MAX (p : abi) : Z := 2 ^ ULONG_BITS p - 1.

(** Arithmetic on [uint32_t] and on [unsigned long] wraps. *)
Definition u32 (z : Z) : Z := z mod 2 ^ 32.
Definition ulong (p : abi) (z : Z) : Z := z mod 2 ^ ULONG_BITS p.

(** Conversion to [int], as gcc does it. *)
Definition int32 (z : Z) : Z := (z + 2 ^ 31) mod 2 ^ 32 - 2 ^ 31.

(** ** Constants of the C library and of argp *)

Definition EPERM : Z := 1.
Definition E2BIG : Z := 7.
Definition ENOMEM : Z := 12.
Definition EACCES : Z := 13.
Definition ENODEV : Z := 19.
Definition EINVAL : Z := 22.
Definition ERANGE : Z := 34.

Definition EXIT_SUCCESS : Z := 0.
Definition EXIT_FAILURE : Z := 1.
(** [argp_err_exit_status], the status of [argp_error] and [argp_usage]. *)
Definition EX_USAGE : Z := 64.

Definition STDIN_FILENO : Z := 0.
Definition STDOUT_FILENO : Z := 1.

Definition ARGP_ERR_UNKNOWN : Z := E2BIG.
(** The value of the key [ARGP_KEY_ERROR], which read.c returns as an
    error code. *)
Definition ARGP_KEY_ERROR : Z := 16777221.

(** ** Data shared by the commands *)

(** connection.h *)
Module Connection.

Record connection_args := {
  interface : option string;
  ip : option string;
  username : option string;
  password : option string;
  port : Z
}.

Definition connection_args_zero : connection_args :=
  {| interface := None; ip := None; username := None; password := None;
     port := 0 |}.

End Connection.

(** soc.h and rev.h are not among the sources.  A region is a pair of
    [uint32_t]; of the generations the commands only compare with
    [ast_g6]. *)
Module Soc.

Record soc_region := { start : Z; length : Z }.

Inductive ast_generation := ast_g4 | ast_g5 | ast_g6.

Definition ast_generation_eqb (a b : ast_generation) : bool :=
  match a, b with
  | ast_g4, ast_g4 | ast_g5, ast_g5 | ast_g6, ast_g6 => true
  | _, _ => false
  end.

End Soc.

(** bridge.h is not among the sources; probe.c relies on
    [bm_permissive] being zero and on the order of the three modes. *)
Definition bm_permissive : Z := 0.
Definition bm_restricted : Z := 1.
Definition bm_disabled : Z := 2.

(** ** Calls into the other layers

    One constructor per function the commands call, named as in C and
    carrying the arguments that are values (handles and buffers are left
    out).  An argument is the value of the expression the caller writes:
    the headers with the parameter types are not among the sources.
    Format strings are kept, their arguments are not. *)
Inductive call :=
(* host.h *)
| host_init (argc : Z) (argv : list string)
| host_init_new (c : Connection.connection_args)
| host_get_ahb
| host_destroy
| disable_bridge_driver (name : string)
| print_bridge_drivers
(* soc.h *)
| soc_probe
| soc_destroy
| soc_list_bridge_controllers
| soc_probe_bridge_controllers (iface : option string)
| soc_siphon_in (phys len fd : Z)
| soc_siphon_out (phys len fd : Z)
(* soc/clk.h, soc/uart/mux.h, uart/suart.h *)
| clk_get
| clk_enable_uart3
| uart_mux_get
| uart_mux_route_uart3_uart5
| uart_mux_restore
| uart_mux_connect_uart3_uart2
| suart_init_defaults
| suart_set_baud (baud : Z)
| suart_flush (buf : string) (len : Z)
| suart_run (fdin fdout : Z)
| suart_destroy
(* soc/sfc.h, flash.h *)
| sfc_get_by_name (name : string)
| sfc_write_protect_save (enable : bool)
| sfc_write_protect_restore
| sfc_get_flash
| flash_init
| flash_read (addr len : Z)
| flash_write (addr len : Z)
| flash_erase (addr len : Z)
| flash_destroy
(* soc/sdmc.h *)
| sdmc_get
| sdmc_get_dram
| sdmc_get_vram
(* soc/scu.h *)
| scu_get
| scu_writel (reg val : Z)
| scu_put
(* bridge/devmem.h, priv.h, ast.h *)
| devmem_init
| devmem_as_ahb
| devmem_destroy
| priv_am_root
| priv_print_unprivileged
| ast_ahb_access (argc : Z) (argv : list string)
(* libc *)
| malloc (size : Z)
| free
| read (fd count : Z)
| write (fd count : Z)
| sleep (seconds : Z)
| usleep (usec : Z)
| perror (s : string) (err : Z)
| fprintf_stderr (fmt : string) (arg : string)
(* log.h *)
| log_set_level (level : string)
| loge (fmt : string)
| logi (fmt : string)
| logt (fmt : string)
(* argp *)
| argp_error (fmt : string)
| argp_usage
| argp_failure (status errnum : Z).

(** What one [read] on standard input gives: a positive number of bytes,
    or a failure with its [errno].  When the script is used up [read]
    returns 0, the end of the file. *)
Inductive read_result := RdBytes (n : positive) | RdError (err : positive).

(** Modelled from the spec: the bridge driver registry of host.c, which is
    not among the sources.  A driver has a name, a priority and an
    enabled flag; the registry is an ordered sequence of drivers. *)
Record bridge_driver := {
  bd_name : string;
  bd_priority : Z;
  bd_enabled : bool
}.

(** The environment of a run. [ret] is what a call returns, given the
    calls made before it; a function that returns a pointer returns 0 for
    [NULL]. [fail_errno] is the [errno] a failing system call leaves. *)
Record env := {
  ret : list call -> call -> Z;
  fail_errno : list call -> call -> Z;
  soc_generation : Soc.ast_generation;
  dram : Soc.soc_region;
  vram : Soc.soc_region;
  flash : Soc.soc_region;
  flash_size : Z;
  discovered : Z;
  stdin : list read_result;
  bridge_drivers : list bridge_driver
}.

(** ** The monad of commands *)

Record world := {
  trace : list call;
  errno : Z;
  registry : list bridge_driver
}.

Definition M (A : Type) : Type := env -> world -> A * world.

Definition pure {A} (a : A) : M A := fun _ w => (a, w).

Definition bind {A B} (m : M A) (k : A -> M B) : M B :=
  fun e w => let (a, w') := m e w in k a e w'.

Notation "x <- c1 ;; c2" := (bind c1 (fun x => c2))
  (at level 61, c1 at next level, right associativity).
Notation "c1 ;; c2" := (bind c1 (fun _ => c2))
  (at level 61, right associativity).

Definition record (c : call) (w : world) : world :=
  {| trace := trace w ++ [c]; errno := errno w; registry := registry w |}.

(** A call that leaves [errno] alone. *)
Definition ext (c : call) : M Z := fun e w =>
  (ret e (trace w) c, record c w).

(** A system call: on failure it sets [errno]. *)
Definition sys (c : call) : M Z := fun e w =>
  let r := ret e (trace w) c in
  (r, {| trace := trace w ++ [c];
         errno := if r <? 0 then fail_errno e (trace w) c else errno w;
         registry := registry w |}).

Definition get_errno : M Z := fun _ w => (errno w, w).

Definition set_errno (v : Z) : M unit := fun _ w =>
  (tt, {| trace := trace w; errno := v; registry := registry w |}).

(** [perror] prints the message of the current [errno]. *)
Definition do_perror (s : string) : M unit :=
  err <- get_errno ;; _ <- ext (perror s err) ;; pure tt.

Definition ask {A} (f : env -> A) : M A := fun e w => (f e, w).

(** The regions the SoC layer reports are pairs of [uint32_t]. *)
Definition region_u32 (r : Soc.soc_region) : Soc.soc_region :=
  {| Soc.start := u32 (Soc.start r); Soc.length := u32 (Soc.length r) |}.

(** How a command ends: it returns to its caller, or it ends the process. *)
Inductive outcome := Return (rc : Z) | Exit (status : Z).

(** The process starts with nothing done, [errno] clear and the
    compiled-in drivers registered. *)
Definition world0 (e : env) : world :=
  {| trace := []; errno := 0; registry := bridge_drivers e |}.

(** Run a command from the start of the process. *)
Definition run {A} (m : M A) (e : env) : A * world := m e (world0 e).
Definition result_of {A} (m : M A) (e : env) : A := fst (run m e).
Definition trace_of {A} (m : M A) (e : env) : list call :=
  trace (snd (run m e)).

(** ** The C library's number parsing *)

Module Libc.

Definition isspace (c : ascii) : bool :=
  let n := Z.of_N (N_of_ascii c) in
  (n =? 32) || ((9 <=? n) && (n <=? 13)).

Definition digit_of (c : ascii) : option Z :=
  let n := Z.of_N (N_of_ascii c) in
  if (48 <=? n) && (n <=? 57) then Some (n - 48)
  else if (97 <=? n) && (n <=? 122) then Some (n - 87)
  else if (65 <=? n) && (n <=? 90) then Some (n - 55)
  else None.

Fixpoint skip_space (s : string) : string :=
  match s with
  | String c r => if isspace c then skip_space r else s
  | EmptyString => s
  end.

(** The digits of [s] in [base]: their value, how many there are, and
    what follows them. *)
Fixpoint scan_digits (base : Z) (s : string) (acc : Z) (n : nat)
  : Z * nat * string :=
  match s with
  | String c r =>
      match digit_of c with
      | Some d => if d <? base then scan_digits base r (acc * base + d) (S n)
                  else (acc, n, s)
      | None => (acc, n, s)
      end
  | EmptyString => (acc, n, s)
  end.

Definition is_hex_digit (s : string) : bool :=
  match s with
  | String c _ => match digit_of c with Some d => d <? 16 | None => false end
  | EmptyString => false
  end.

(** The sign, then the text after it. *)
Definition scan_sign (s : string) : bool * string :=
  match s with
  | String "-" r => (true, r)
  | String "+" r => (false, r)
  | _ => (false, s)
  end.

(** With base 0 the prefix chooses the base. *)
Definition scan_prefix (s : string) : Z * string :=
  match s with
  | String "0" (String x r) =>
      if (Ascii.eqb x "x" || Ascii.eqb x "X") && is_hex_digit r
      then (16, r) else (8, s)
  | String "0" EmptyString => (8, s)
  | _ => (10, s)
  end.

Record strtoul_result := {
  value : Z;            (* the returned value *)
  endp : string;        (* what [*endp] points to *)
  converted : bool;     (* false when [endp == nptr] *)
  out_of_range : bool   (* true when [errno] is set to [ERANGE] *)
}.

(** [strtoul(nptr, &endp, 0)] *)
Definition strtoul (p : abi) (nptr : string) : strtoul_result :=
  let (neg, s1) := scan_sign (skip_space nptr) in
  let (base, s2) := scan_prefix s1 in
  match scan_digits base s2 0 0 with
  | (_, O, _) =>
      {| value := 0; endp := nptr; converted := false; out_of_range := false |}
  | (v, _, rest) =>
      if v >? ULONG_MAX p
      then {| value := ULONG_MAX p; endp := rest; converted := true;
              out_of_range := true |}
      else {| value := if neg then ulong p (- v) else v; endp := rest;
              converted := true; out_of_range := false |}
  end.

(** [strtoul] as the parsers call it: [errno] is set on overflow and left
    alone otherwise. *)
Definition do_strtoul (p : abi) (nptr : string) : M strtoul_result :=
  let r := strtoul p nptr in
  (if out_of_range r then set_errno ERANGE else pure tt) ;; pure r.

(** [atoi]: decimal, no error reporting; out of range it is what
    [(int) strtol(nptr, NULL, 10)] gives. *)
Definition atoi (p : abi) (nptr : string) : Z :=
  let (neg, s1) := scan_sign (skip_space nptr) in
  let '(v, _, _) := scan_digits 10 s1 0 0 in
  let long_max := 2 ^ (ULONG_BITS p - 1) - 1 in
  let l := if neg then Z.max (- v) (- long_max - 1) else Z.min v long_max in
  int32 l.

End Libc.

(** ** argp

    [argp_parse] with [ARGP_IN_ORDER] hands the command line to the parser
    function one option or argument at a time, and [ARGP_KEY_END] once all
    of it was handed over without error. *)

Inductive key :=
| KEY_OPT (c : ascii)
| ARGP_KEY_ARG
| ARGP_KEY_ARGS
| ARGP_KEY_NO_ARGS
| ARGP_KEY_END.

Definition key_is_arg (k : key) : bool :=
  match k with ARGP_KEY_ARG => true | _ => false end.

Record argp_state := {
  argc : Z;
  argv : list string;
  next : Z;
  arg_num : Z;
  name : string
}.

(** [state->argv[i]] *)
Definition argv_at (state : argp_state) (i : Z) : option string :=
  if i <? 0 then None else nth_error (argv state) (Z.to_nat i).

(** What a parser function does with one key: it returns an error code,
    having updated the arguments structure, or it ends the process. *)
Inductive presult (A : Type) :=
| PReturn (err : Z) (a : A)
| PExit (status : Z).
Arguments PReturn {A} err a.
Arguments PExit {A} status.

Definition parser (A : Type) : Type :=
  key -> option string -> argp_state -> A -> M (presult A).

(** [argp_error] and [argp_usage] print and leave with [EX_USAGE]. *)
Definition do_argp_error {A} (fmt : string) : M (presult A) :=
  ext (argp_error fmt) ;; pure (PExit EX_USAGE).
Definition do_argp_usage {A} : M (presult A) :=
  ext argp_usage ;; pure (PExit EX_USAGE).

(** The command line after [argv[0]], as getopt splits it: a flag, an
    option with its argument in the next word, or a plain argument.
    These are the words [argp_parse] hands to the parser function.  What
    it answers by itself is not among them: [-?], [-V] and the long
    options print the help or the version and leave with success, [--]
    ends the options, and a word that begins with [-] is never a plain
    argument.  A statement that depends on its line being of this kind
    says so with [getopt_token] and [plain_word] below. *)
Inductive token :=
| TFlag (c : ascii)
| TOpt (c : ascii) (arg : string)
| TArg (arg : string).

Definition dash (c : ascii) : string := String "-" (String c EmptyString).

Definition words (t : token) : list string :=
  match t with
  | TFlag c => [dash c]
  | TOpt c arg => [dash c; arg]
  | TArg arg => [arg]
  end.

Definition advance (state : argp_state) (n : Z) : argp_state :=
  {| argc := argc state; argv := argv state; next := next state + n;
     arg_num := arg_num state; name := name state |}.

Definition count_arg (state : argp_state) : argp_state :=
  {| argc := argc state; argv := argv state; next := next state;
     arg_num := arg_num state + 1; name := name state |}.

(** What [argp_parse] comes to: it returns an error code (0 on success)
    with the arguments structure as the parser left it, or the process
    has ended. *)
Inductive parsed (A : Type) :=
| Parsed (err : Z) (a : A)
| Exited (status : Z).
Arguments Parsed {A} err a.
Arguments Exited {A} status.

(** The end of the command line: [ARGP_KEY_NO_ARGS] if no argument was
    seen, then [ARGP_KEY_END]. *)
Definition argp_finish {A} (f : parser A) (state : argp_state) (a : A)
  : M (parsed A) :=
  r <- (if arg_num state =? 0 then f ARGP_KEY_NO_ARGS None state a
        else pure (PReturn 0 a)) ;;
  match r with
  | PExit s => pure (Exited s)
  | PReturn err a1 =>
      if negb (err =? 0) && negb (err =? ARGP_ERR_UNKNOWN)
      then pure (Parsed err a1)
      else
        r2 <- f ARGP_KEY_END None state a1 ;;
        match r2 with
        | PExit s => pure (Exited s)
        | PReturn err2 a2 =>
            pure (Parsed (if err2 =? ARGP_ERR_UNKNOWN then 0 else err2) a2)
        end
  end.

Fixpoint argp_loop {A} (f : parser A) (toks : list token)
  (state : argp_state) (a : A) : M (parsed A) :=
  match toks with
  | [] => argp_finish f state a
  | TArg arg :: rest =>
      r <- f ARGP_KEY_ARG (Some arg) (advance state 1) a ;;
      match r with
      | PExit s => pure (Exited s)
      | PReturn err a1 =>
          if err =? 0 then argp_loop f rest (count_arg (advance state 1)) a1
          else if err =? ARGP_ERR_UNKNOWN then
            (* the parser does not take single arguments: offer it all
               that remain *)
            r2 <- f ARGP_KEY_ARGS None state a1 ;;
            match r2 with
            | PExit s => pure (Exited s)
            | PReturn err2 a2 =>
                if err2 =? 0 then
                  argp_finish f
                    (count_arg (advance state (argc state - next state))) a2
                else if err2 =? ARGP_ERR_UNKNOWN then
                  ext (argp_error "Too many arguments") ;;
                  pure (Exited EX_USAGE)
                else pure (Parsed err2 a2)
            end
          else pure (Parsed err a1)
      end
  | t :: rest =>
      let state1 := advance state (Z.of_nat (List.length (words t))) in
      r <- f (match t with TFlag c | TOpt c _ => KEY_OPT c | TArg _ => ARGP_KEY_ARG end)
             (match t with TOpt _ arg => Some arg | _ => None end) state1 a ;;
      match r with
      | PExit s => pure (Exited s)
      | PReturn err a1 =>
          if err =? 0 then argp_loop f rest state1 a1
          else if err =? ARGP_ERR_UNKNOWN then
            ext (argp_error "unrecognized option") ;; pure (Exited EX_USAGE)
          else pure (Parsed err a1)
      end
  end.

(** The parser state [argp_parse] starts from, on the command line
    [argv0 :: words of toks]. *)
Definition initial_state (argv0 : string) (toks : list token) : argp_state :=
  let args := argv0 :: flat_map words toks in
  {| argc := Z.of_nat (List.length args); argv := args; next := 1;
     arg_num := 0; name := argv0 |}.

(** [argp_parse(argp, argc, argv, ARGP_IN_ORDER, 0, arguments)] *)
Definition argp_parse {A} (f : parser A) (argv0 : string) (toks : list token)
  (a : A) : M (parsed A) :=
  argp_loop f toks (initial_state argv0 toks) a.

(** ** arg_helper.c *)

Module ArgHelper.

Record subcommand := {
  sub_name : string;
  sub_argc : Z;
  sub_argv : list string
}.

Inductive sub_result (A : Type) :=
| SubParsed (arguments : A) (sub : subcommand)
| SubExited (status : Z).
Arguments SubParsed {A} arguments sub.
Arguments SubExited {A} status.

(** [parse_subcommand]: the rest of the parent's command line, given here
    as [toks], is parsed with the sub-command's parser under the name
    "parent name".  What [argp_parse] returns is dropped, so a parser's
    error code leaves the command running with the arguments filled in so
    far.  The buffer of that name is allocated without room for the
    terminator of the string: [sub_argv] starts with the name as it was
    written, and what a callee reads from [argv[0]] past the name is not
    determined. *)
Definition parse_subcommand {A} (f : parser A) (name : string)
  (arguments : A) (parent : string) (toks : list token) : M (sub_result A) :=
  let argv0 := (parent ++ " " ++ name)%string in
  let argv := argv0 :: flat_map words toks in
  let argc := Z.of_nat (List.length argv) in
  buf <- ext (malloc (Z.of_nat (String.length parent)
                      + Z.of_nat (String.length name) + 1)) ;;
  if buf =? 0 then
    ext (argp_failure 1 ENOMEM) ;; pure (SubExited 1)
  else
    r <- argp_parse f argv0 toks arguments ;;
    match r with
    | Parsed _ a =>
        pure (SubParsed a {| sub_name := name; sub_argc := argc;
                             sub_argv := argv |})
    | Exited s => pure (SubExited s)
    end.

Definition parse_via (p : abi) (argi : Z) (state : argp_state)
  (args : Connection.connection_args) : M (Z * Connection.connection_args) :=
  if argi >=? argc state then pure (- EINVAL, args)
  else
    (* global argc - already processed arguments - 1 (for the `via` word) *)
    let argc := argc state - argi - 1 in
    ext (logt "parse_via found %d arguments") ;;
    (* Preflight validation if argc is either 1 or 5 *)
    if negb (argc =? 1) && negb (argc =? 5) then pure (- EINVAL, args)
    else
      let args1 :=
        {| Connection.interface := argv_at state (argi + 1);
           Connection.ip := Connection.ip args;
           Connection.username := Connection.username args;
           Connection.password := Connection.password args;
           Connection.port := Connection.port args |} in
      ext (logt "parse_via interface: %s") ;;
      if argc =? 1 then pure (0, args1)
      else
        ext (logt "parse_via ip: %s") ;;
        pure (0,
              {| Connection.interface := Connection.interface args1;
                 Connection.ip := argv_at state (argi + 2);
                 Connection.username := argv_at state (argi + 4);
                 Connection.password := argv_at state (argi + 5);
                 Connection.port :=
                   match argv_at state (argi + 3) with
                   | Some s => Libc.atoi p s
                   | None => 0
                   end |}).

End ArgHelper.

Definition arg_text (arg : option string) : string :=
  match arg with Some s => s | None => "" end.

(** ** connection.c *)

(** [connection_parse_arguments]: the option of each field stores its
    argument; every key returns 0. *)
Definition connection_parse_arguments (p : abi) (key : key)
  (arg : option string) (state : argp_state)
  (arguments : Connection.connection_args)
  : Z * Connection.connection_args :=
  let a :=
    match key with
    | KEY_OPT "i" =>
        {| Connection.interface := arg;
           Connection.ip := Connection.ip arguments;
           Connection.username := Connection.username arguments;
           Connection.password := Connection.password arguments;
           Connection.port := Connection.port arguments |}
    | KEY_OPT "H" =>
        {| Connection.interface := Connection.interface arguments;
           Connection.ip := arg;
           Connection.username := Connection.username arguments;
           Connection.password := Connection.password arguments;
           Connection.port := Connection.port arguments |}
    | KEY_OPT "p" =>
        {| Connection.interface := Connection.interface arguments;
           Connection.ip := Connection.ip arguments;
           Connection.username := Connection.username arguments;
           Connection.password := Connection.password arguments;
           Connection.port := Libc.atoi p (arg_text arg) |}
    | KEY_OPT "U" =>
        {| Connection.interface := Connection.interface arguments;
           Connection.ip := Connection.ip arguments;
           Connection.username := arg;
           Connection.password := Connection.password arguments;
           Connection.port := Connection.port arguments |}
    | KEY_OPT "P" =>
        {| Connection.interface := Connection.interface arguments;
           Connection.ip := Connection.ip arguments;
           Connection.username := Connection.username arguments;
           Connection.password := arg;
           Connection.port := Connection.port arguments |}
    | _ => arguments
    end in
  (0, a).

(** [sub.argv + 1 + (sub.argc - 1 - key_arg_count)]: the words the
    commands hand to [host_init]. *)
Definition host_argv (sub : ArgHelper.subcommand) (key_arg_count : Z)
  : list string :=
  skipn (Z.to_nat (1 + (ArgHelper.sub_argc sub - 1 - key_arg_count)))
        (ArgHelper.sub_argv sub).

(** ** probe.c *)

Module Probe.

Record cmd_probe_args := {
  interface : option string;
  ip : option string;
  port : Z;
  username : option string;
  password : option string;
  iface : option string;
  requirement : Z;
  key_arg_count : Z;
  list_ifaces : Z
}.

Definition cmd_probe_args_zero : cmd_probe_args :=
  {| interface := None; ip := None; port := 0; username := None;
     password := None; iface := None; requirement := 0; key_arg_count := 0;
     list_ifaces := 0 |}.

Definition parse_opt (p : abi) : parser cmd_probe_args :=
  fun key arg state arguments =>
  let a :=
    match key with
    | ARGP_KEY_ARG =>
        {| interface := interface arguments; ip := ip arguments;
           port := port arguments; username := username arguments;
           password := password arguments; iface := iface arguments;
           requirement := requirement arguments;
           key_arg_count := key_arg_count arguments + 1;
           list_ifaces := list_ifaces arguments |}
    | _ => arguments
    end in
  match key with
  | KEY_OPT "l" =>
      pure (PReturn 0
        {| interface := interface a; ip := ip a; port := port a;
           username := username a; password := password a; iface := iface a;
           requirement := requirement a; key_arg_count := key_arg_count a;
           list_ifaces := 1 |})
  | KEY_OPT "i" =>
      pure (PReturn 0
        {| interface := interface a; ip := ip a; port := port a;
           username := username a; password := password a; iface := arg;
           requirement := requirement a; key_arg_count := key_arg_count a;
           list_ifaces := list_ifaces a |})
  | KEY_OPT "r" =>
      if negb (String.eqb "integrity" (arg_text arg))
         && negb (String.eqb "confidentiality" (arg_text arg))
      then do_argp_error "Invalid requirement '%s'"
      else
        pure (PReturn 0
          {| interface := interface a; ip := ip a; port := port a;
             username := username a; password := password a; iface := iface a;
             requirement := if String.eqb "integrity" (arg_text arg)
                            then bm_restricted else bm_disabled;
             key_arg_count := key_arg_count a;
             list_ifaces := list_ifaces a |})
  | ARGP_KEY_ARG =>
      pure (PReturn 0
        (match arg_num state with
         | 0 =>
             {| interface := arg; ip := ip a; port := port a;
                username := username a; password := password a;
                iface := iface a; requirement := requirement a;
                key_arg_count := key_arg_count a;
                list_ifaces := list_ifaces a |}
         | 1 =>
             {| interface := interface a; ip := arg; port := port a;
                username := username a; password := password a;
                iface := iface a; requirement := requirement a;
                key_arg_count := key_arg_count a;
                list_ifaces := list_ifaces a |}
         | 2 =>
             {| interface := interface a; ip := ip a;
                port := Libc.atoi p (arg_text arg);
                username := username a; password := password a;
                iface := iface a; requirement := requirement a;
                key_arg_count := key_arg_count a;
                list_ifaces := list_ifaces a |}
         | 3 =>
             {| interface := interface a; ip := ip a; port := port a;
                username := arg; password := password a;
                iface := iface a; requirement := requirement a;
                key_arg_count := key_arg_count a;
                list_ifaces := list_ifaces a |}
         | 4 =>
             {| interface := interface a; ip := ip a; port := port a;
                username := username a; password := arg;
                iface := iface a; requirement := requirement a;
                key_arg_count := key_arg_count a;
                list_ifaces := list_ifaces a |}
         | _ => a
         end))
  | ARGP_KEY_END =>
      (* [!requirement] sets it to [bm_permissive], which is 0; a null
         [iface] is set to [NULL]: neither changes anything *)
      if (key_arg_count a >? 1) && negb (key_arg_count a =? 5)
      then do_argp_error "Wrong number of arguments. Either 1 or 5"
      else pure (PReturn 0 a)
  | _ => pure (PReturn ARGP_ERR_UNKNOWN a)
  end.

Definition cleanup_host (rc : Z) : M outcome :=
  ext host_destroy ;; pure (Exit rc).

Definition cleanup_soc (rc : Z) : M outcome :=
  ext soc_destroy ;; cleanup_host rc.

Definition cmd_probe (p : abi) (parent : string) (toks : list token)
  : M outcome :=
  r <- ArgHelper.parse_subcommand (parse_opt p) "probe" cmd_probe_args_zero
         parent toks ;;
  match r with
  | ArgHelper.SubExited s => pure (Exit s)
  | ArgHelper.SubParsed arguments probe_cmd =>
      let argv := host_argv probe_cmd (key_arg_count arguments) in
      h <- ext (host_init (key_arg_count arguments) argv) ;;
      (* [rc = host_init(...) < 0]: rc is the comparison *)
      if h <? 0 then
        ext (loge "Failed to initialise host interfaces: %d") ;;
        pure (Exit EXIT_FAILURE)
      else
        ahb <- ext host_get_ahb ;;
        if ahb =? 0 then
          ext (loge "Failed to acquire AHB interface, exiting") ;;
          cleanup_host EXIT_FAILURE
        else
          rc <- ext soc_probe ;;
          if rc <? 0 then
            ext (loge "Failed to probe SoC, exiting: %d") ;;
            cleanup_host rc
          else if negb (list_ifaces arguments =? 0) then
            ext soc_list_bridge_controllers ;;
            cleanup_soc EXIT_SUCCESS
          else
            rc <- ext (soc_probe_bridge_controllers (iface arguments)) ;;
            if rc <? 0 then
              ext (loge "Failed to probe SoC bridge controllers: %d") ;;
              cleanup_soc EXIT_FAILURE
            else
              d <- ask discovered ;;
              cleanup_soc (if requirement arguments <=? d
                           then EXIT_SUCCESS else EXIT_FAILURE)
  end.

End Probe.

(** ** devmem.c *)

Module Devmem.

Definition parse_opt : parser unit :=
  fun key arg state arguments =>
  match key with
  | ARGP_KEY_ARG =>
      if (arg_num state =? 0)
         && negb (String.eqb "read" (arg_text arg))
         && negb (String.eqb "write" (arg_text arg))
      then do_argp_usage
      else pure (PReturn 0 arguments)
  | ARGP_KEY_END =>
      if argc state <? 2 then do_argp_usage
      else if String.eqb "write" (arg_text (argv_at state 1))
              && negb (argc state =? 4)
      then do_argp_usage
      else pure (PReturn 0 arguments)
  | _ => pure (PReturn ARGP_ERR_UNKNOWN arguments)
  end.

Definition cmd_devmem (parent : string) (toks : list token) : M outcome :=
  r <- ArgHelper.parse_subcommand parse_opt "devmem" tt parent toks ;;
  match r with
  | ArgHelper.SubExited s => pure (Exit s)
  | ArgHelper.SubParsed arguments devmem_cmd =>
      rc <- ext devmem_init ;;
      if rc <? 0 then
        let denied := (rc =? - EACCES) || (rc =? - EPERM) in
        (* [denied && !priv_am_root()]: root is asked only when denied *)
        root <- (if denied then ext priv_am_root else pure 0) ;;
        (if denied && (root =? 0)
         then ext priv_print_unprivileged ;; pure tt
         else set_errno (- rc) ;; do_perror "devmem_init") ;;
        pure (Exit EXIT_FAILURE)
      else
        ext devmem_as_ahb ;;
        (* FIXME: argc + argv once all commands are migrated *)
        rc <- ext (ast_ahb_access (ArgHelper.sub_argc devmem_cmd - 1)
                                  (tl (ArgHelper.sub_argv devmem_cmd))) ;;
        if negb (rc =? 0) then
          set_errno (- rc) ;; do_perror "ast_ahb_access" ;;
          pure (Exit EXIT_FAILURE)
        else
          cleanup <- ext devmem_destroy ;;
          if negb (cleanup =? 0) then
            set_errno (- cleanup) ;; do_perror "devmem_destroy" ;;
            pure (Exit EXIT_FAILURE)
          else pure (Return 0)
  end.

End Devmem.

(** The pattern [rc = f(...); if (rc) { errno = -rc; perror(what); goto
    label; }] of console.c. *)
Definition or_goto (c : call) (what : string) (label : Z -> M outcome)
  (k : M outcome) : M outcome :=
  rc <- ext c ;;
  if negb (rc =? 0) then set_errno (- rc) ;; do_perror what ;; label rc
  else k.

(** The same with the test [rc < 0] and [k] given the return code. *)
Definition or_goto_neg (c : call) (what : string) (label : Z -> M outcome)
  (k : Z -> M outcome) : M outcome :=
  rc <- ext c ;;
  if rc <? 0 then set_errno (- rc) ;; do_perror what ;; label rc
  else k rc.

(** ** console.c *)

Module Console.

Record cmd_console_args := {
  host_uart : option string;
  bmc_uart : option string;
  baud : Z;
  user : option string;
  pass : option string
}.

Definition cmd_console_args_zero : cmd_console_args :=
  {| host_uart := None; bmc_uart := None; baud := 0; user := None;
     pass := None |}.

Definition parse_opt (p : abi) : parser cmd_console_args :=
  fun key arg state a =>
  match key with
  | ARGP_KEY_ARG =>
      match arg_num state with
      | 0 =>
          if negb (String.eqb "uart3" (arg_text arg))
          then do_argp_error "Console only supports host on 'uart3'"
          else pure (PReturn 0
                 {| host_uart := arg; bmc_uart := bmc_uart a; baud := baud a;
                    user := user a; pass := pass a |})
      | 1 =>
          if negb (String.eqb "uart2" (arg_text arg))
          then do_argp_error "Console only supports BMC on 'uart2'"
          else pure (PReturn 0
                 {| host_uart := host_uart a; bmc_uart := arg; baud := baud a;
                    user := user a; pass := pass a |})
      | 2 =>
          pure (PReturn 0
            {| host_uart := host_uart a; bmc_uart := bmc_uart a;
               baud := Libc.atoi p (arg_text arg);
               user := user a; pass := pass a |})
      | 3 =>
          pure (PReturn 0
            {| host_uart := host_uart a; bmc_uart := bmc_uart a;
               baud := baud a; user := arg; pass := pass a |})
      | 4 =>
          pure (PReturn 0
            {| host_uart := host_uart a; bmc_uart := bmc_uart a;
               baud := baud a; user := user a; pass := arg |})
      | _ => do_argp_usage
      end
  | ARGP_KEY_END =>
      if (arg_num state <? 5) || (arg_num state >? 5) then do_argp_usage
      else pure (PReturn 0 a)
  | _ => pure (PReturn ARGP_ERR_UNKNOWN a)
  end.

Definition newline : string := String (ascii_of_nat 10) EmptyString.

Definition run_getty : string :=
  ("/sbin/agetty -8 -L ttyS1 1200 xterm &" ++ newline)%string.

Definition host_cleanup (rc : Z) : M outcome :=
  ext host_destroy ;; pure (Return rc).

Definition soc_cleanup (rc : Z) : M outcome :=
  ext soc_destroy ;; host_cleanup rc.

Definition mux_restore (rc : Z) : M outcome :=
  cleanup <- ext uart_mux_restore ;;
  (if negb (cleanup =? 0)
   then set_errno (- cleanup) ;; do_perror "suart_destroy" else pure tt) ;;
  soc_cleanup rc.

Definition suart_cleanup (rc : Z) : M outcome :=
  cleanup <- ext suart_destroy ;;
  (if negb (cleanup =? 0)
   then set_errno (- cleanup) ;; do_perror "suart_destroy" else pure tt) ;;
  mux_restore rc.

Definition strlen (s : option string) : Z :=
  Z.of_nat (String.length (arg_text s)).

Definition cmd_console (p : abi) (parent : string) (toks : list token)
  : M outcome :=
  r <- ArgHelper.parse_subcommand (parse_opt p) "console"
         cmd_console_args_zero parent toks ;;
  match r with
  | ArgHelper.SubExited s => pure (Exit s)
  | ArgHelper.SubParsed arguments console_cmd =>
      rc <- ext (host_init (ArgHelper.sub_argc console_cmd - 4)
                           (skipn 4 (ArgHelper.sub_argv console_cmd))) ;;
      if rc <? 0 then
        ext (loge "Failed to initialise host interfaces: %d") ;;
        pure (Exit EXIT_FAILURE)
      else
      ahb <- ext host_get_ahb ;;
      if ahb =? 0 then
        ext (loge "Failed to acquire AHB interface, exiting") ;;
        host_cleanup EXIT_FAILURE
      else
      or_goto_neg soc_probe "soc_probe" host_cleanup (fun rc =>
      clk <- ext clk_get ;;
      if clk =? 0 then
        ext (loge "Failed to acquire clock controller, exiting") ;;
        soc_cleanup rc
      else
      mux <- ext uart_mux_get ;;
      if mux =? 0 then
        ext (loge "Failed to acquire UART mux controller, exiting") ;;
        soc_cleanup rc
      else
      ext (logi "Enabling UART clocks") ;;
      (* Only 3 needs to be enabled as 1 and 2 are "reserved" for the host *)
      or_goto_neg clk_enable_uart3 "clk_enable" soc_cleanup (fun _ =>
      ext (logi "Routing UART3 to UART5") ;;
      or_goto_neg uart_mux_route_uart3_uart5 "uart_mux_route" soc_cleanup
        (fun _ =>
      ext (logi "Initialising SUART3") ;;
      or_goto suart_init_defaults "suart_init" mux_restore (
      ext (logi "Configuring baud rate of 115200 for BMC console") ;;
      or_goto (suart_set_baud 115200) "suart_set_baud" suart_cleanup (
      ext (logi "Starting getty from BMC console") ;;
      or_goto (suart_flush (arg_text (user arguments)) (strlen (user arguments)))
        "suart_flush" suart_cleanup (
      or_goto (suart_flush newline 5) "suart_flush" suart_cleanup (
      ext (sleep 3) ;;
      or_goto (suart_flush (arg_text (pass arguments)) (strlen (pass arguments)))
        "suart_flush" suart_cleanup (
      or_goto (suart_flush newline 8) "suart_flush" suart_cleanup (
      ext (sleep 5) ;;
      or_goto (suart_flush run_getty (Z.of_nat (String.length run_getty)))
        "suart_flush" suart_cleanup (
      (* wait for the XMIT FIFO to clear before changing the routing *)
      ext (sleep 3) ;;
      ext (logi "Launched getty with: %s") ;;
      ext (logi "Routing UARTs to connect UART3 with UART2") ;;
      or_goto uart_mux_restore "uart_mux_restore" suart_cleanup (
      or_goto uart_mux_connect_uart3_uart2 "uart_mux_connect" suart_cleanup (
      ext (logi "Setting target baud rate of %d") ;;
      or_goto (suart_set_baud (baud arguments)) "suart_set_baud" suart_cleanup (
      or_goto (suart_flush newline 1) "suart_flush" suart_cleanup (
      ext (sleep 5) ;;
      or_goto (suart_flush (arg_text (user arguments)) (strlen (user arguments)))
        "suart_flush" suart_cleanup (
      or_goto (suart_flush newline 5) "suart_flush" suart_cleanup (
      ext (sleep 3) ;;
      or_goto (suart_flush (arg_text (pass arguments)) (strlen (pass arguments)))
        "suart_flush" suart_cleanup (
      or_goto (suart_flush newline 1) "suart_flush" suart_cleanup (
      rc <- ext (suart_run 0 1) ;;
      (if negb (rc =? 0)
       then set_errno (- rc) ;; do_perror "suart_run" else pure tt) ;;
      suart_cleanup rc))))))))))))))))))
  end.

End Console.

(** ** sfc.c *)

Module Sfc.

Definition SFC_FLASH_WIN : Z := Z.shiftl 64 10.

(** [enum flash_op]; the command starts from 99, "because read is 0". *)
Definition flash_op_read : Z := 0.
Definition flash_op_write : Z := 1.
Definition flash_op_erase : Z := 2.

Record cmd_sfc_args := {
  address : Z;
  length : Z;
  key_arg_count : Z;
  type : option string;
  op : Z
}.

Definition set_address (a : cmd_sfc_args) (v : Z) : cmd_sfc_args :=
  {| address := v; length := length a; key_arg_count := key_arg_count a;
     type := type a; op := op a |}.
Definition set_length (a : cmd_sfc_args) (v : Z) : cmd_sfc_args :=
  {| address := address a; length := v; key_arg_count := key_arg_count a;
     type := type a; op := op a |}.
Definition set_key_arg_count (a : cmd_sfc_args) (v : Z) : cmd_sfc_args :=
  {| address := address a; length := length a; key_arg_count := v;
     type := type a; op := op a |}.
Definition set_type (a : cmd_sfc_args) (v : option string) : cmd_sfc_args :=
  {| address := address a; length := length a;
     key_arg_count := key_arg_count a; type := v; op := op a |}.
Definition set_op (a : cmd_sfc_args) (v : Z) : cmd_sfc_args :=
  {| address := address a; length := length a;
     key_arg_count := key_arg_count a; type := type a; op := v |}.

Definition cmd_sfc_args_init : cmd_sfc_args :=
  {| address := 0; length := 0; key_arg_count := 0; type := None; op := 99 |}.

Definition parse_opt (p : abi) : parser cmd_sfc_args :=
  fun key arg state arguments =>
  let a :=
    match key with
    | ARGP_KEY_ARG => set_key_arg_count arguments (key_arg_count arguments + 1)
    | _ => arguments
    end in
  match key with
  | KEY_OPT "t" =>
      (* We only support fmc at this time. *)
      if negb (String.eqb "fmc" (arg_text arg))
      then do_argp_error "Invalid SFC type '%s'"
      else pure (PReturn 0 (set_type a arg))
  | KEY_OPT "m" =>
      if String.eqb "read" (arg_text arg)
      then pure (PReturn 0 (set_op a flash_op_read))
      else if String.eqb "write" (arg_text arg)
      then pure (PReturn 0 (set_op a flash_op_write))
      else if String.eqb "erase" (arg_text arg)
      then pure (PReturn 0 (set_op a flash_op_erase))
      else do_argp_error "Invalid operation '%s'"
  | KEY_OPT "a" =>
      r <- Libc.do_strtoul p (arg_text arg) ;;
      pure (PReturn 0 (set_address a (u32 (Libc.value r))))
  | KEY_OPT "l" =>
      r <- Libc.do_strtoul p (arg_text arg) ;;
      pure (PReturn 0 (set_length a (u32 (Libc.value r))))
  | ARGP_KEY_ARG => pure (PReturn 0 a)
  | ARGP_KEY_END =>
      match type a with
      | None => do_argp_error "Missing SFC type"
      | Some _ =>
          if op a =? 99 then do_argp_error "Missing operation"
          (* address could be 0 but the length can be defined *)
          else if (address a =? 0) && (length a =? 0)
          then do_argp_error "Missing address and length"
          (* if the length is still empty, throw error *)
          else if length a =? 0 then do_argp_error "Missing length"
          else pure (PReturn 0 a)
      end
  | _ => pure (PReturn ARGP_ERR_UNKNOWN a)
  end.

Definition cleanup_host (rc : Z) : M outcome :=
  ext host_destroy ;; pure (Return rc).

Definition cleanup_soc (rc : Z) : M outcome :=
  ext soc_destroy ;; cleanup_host rc.

Definition cleanup_flash (rc : Z) : M outcome :=
  ext flash_destroy ;; cleanup_soc rc.

(** [read(0, buf, count)] on the scripted standard input. *)
Definition do_read (r : option read_result) (count : Z) : M Z := fun _ w =>
  match r with
  | None => (0, record (read 0 count) w)
  | Some (RdBytes n) => (Z.pos n, record (read 0 count) w)
  | Some (RdError err) =>
      (-1, {| trace := trace w ++ [read 0 count]; errno := Z.pos err;
              registry := registry w |})
  end.

(** The loop of the write mode; it gives the address and [rc] it ends
    with.

    while ((ingress = read(0, buf, arguments.length))) {
        if (ingress < 0) { rc = -errno; break; }
        rc = flash_write(chip, arguments.address, buf, ingress, true);
        if (rc < 0) break;
        arguments.address += ingress;
    } *)
Fixpoint write_loop (input : list read_result) (length address rc : Z)
  : M (Z * Z) :=
  match input with
  | [] => _ <- do_read None length ;; pure (address, rc)
  | r :: rest =>
      ingress <- do_read (Some r) length ;;
      if ingress =? 0 then pure (address, rc)
      else if ingress <? 0 then
        err <- get_errno ;; pure (address, - err)
      else
        rc <- ext (flash_write address ingress) ;;
        if rc <? 0 then pure (address, rc)
        else write_loop rest length (u32 (address + ingress)) rc
  end.

(** The command once its arguments are parsed. *)
Definition cmd_sfc_parsed (arguments : cmd_sfc_args)
  (sfc_cmd : ArgHelper.subcommand) : M outcome :=
  let argv_host := host_argv sfc_cmd (key_arg_count arguments) in
  rc <- ext (host_init (key_arg_count arguments) argv_host) ;;
  if rc <? 0 then
    ext (loge "Failed to initialise host interfaces: %d") ;;
    pure (Exit EXIT_FAILURE)
  else
  ahb <- ext host_get_ahb ;;
  if ahb =? 0 then
    ext (loge "Failed to acquire AHB interface, exiting") ;;
    cleanup_host EXIT_FAILURE
  else
  rc <- ext soc_probe ;;
  if rc <? 0 then cleanup_host rc
  else
  sfc <- ext (sfc_get_by_name "fmc") ;;
  if sfc =? 0 then
    ext (loge "Failed to acquire SPI controller, exiting") ;;
    cleanup_soc rc
  else
  rc <- ext flash_init ;;
  if rc <? 0 then cleanup_soc rc
  else if op arguments =? flash_op_read then
    buf <- ext (malloc (length arguments)) ;;
    if buf =? 0 then cleanup_flash rc
    else
      rc <- ext (flash_read (address arguments) (length arguments)) ;;
      egress <- sys (write 1 (length arguments)) ;;
      rc <- (if egress =? -1
             then err <- get_errno ;; do_perror "write" ;; pure (- err)
             else pure rc) ;;
      ext free ;;
      cleanup_flash rc
  else if op arguments =? flash_op_write then
    let arguments := set_length arguments SFC_FLASH_WIN in
    buf <- ext (malloc (length arguments)) ;;
    if buf =? 0 then cleanup_flash rc
    else
      input <- ask stdin ;;
      ar <- write_loop input (length arguments) (address arguments) rc ;;
      ext free ;;
      cleanup_flash (snd ar)
  else if op arguments =? flash_op_erase then
    rc <- ext (flash_erase (address arguments) (length arguments)) ;;
    cleanup_flash rc
  else cleanup_flash rc.

Definition cmd_sfc (p : abi) (parent : string) (toks : list token)
  : M outcome :=
  (* Set operation to 99, because read is 0 *)
  r <- ArgHelper.parse_subcommand (parse_opt p) "sfc" cmd_sfc_args_init
         parent toks ;;
  match r with
  | ArgHelper.SubExited s => pure (Exit s)
  | ArgHelper.SubParsed arguments sfc_cmd => cmd_sfc_parsed arguments sfc_cmd
  end.

End Sfc.

(** ** read.c *)

Module Read.

Definition cleanup_host (rc : Z) : M outcome :=
  ext host_destroy ;; pure (Return rc).

Definition cleanup_soc (rc : Z) : M outcome :=
  ext soc_destroy ;; cleanup_host rc.

Definition cleanup_chip (rc : Z) : M outcome :=
  ext flash_destroy ;; cleanup_soc rc.

(** [struct cmd_read_args]: only the count of plain arguments. *)
Definition parse_opt_firmware : parser Z :=
  fun key arg state arguments =>
  let a := match key with ARGP_KEY_ARG => arguments + 1 | _ => arguments end in
  match key with
  | ARGP_KEY_ARG | ARGP_KEY_END => pure (PReturn 0 a)
  | _ => pure (PReturn ARGP_ERR_UNKNOWN a)
  end.

Definition cmd_read_firmware (parent : string) (toks : list token)
  : M outcome :=
  r <- ArgHelper.parse_subcommand parse_opt_firmware "firmware" 0 parent toks ;;
  match r with
  | ArgHelper.SubExited s => pure (Exit s)
  | ArgHelper.SubParsed key_arg_count firmware_cmd =>
      let argv := host_argv firmware_cmd key_arg_count in
      rc <- ext (host_init key_arg_count argv) ;;
      if rc <? 0 then
        ext (loge "Failed to initialise host interfaces: %d") ;;
        pure (Return rc)
      else
      ahb <- ext host_get_ahb ;;
      if ahb =? 0 then
        ext (loge "Failed to acquire AHB interface, exiting") ;;
        cleanup_host (- ENODEV)
      else
      rc <- ext soc_probe ;;
      if rc <? 0 then cleanup_host rc
      else
      ext (logi "Initialising flash controller") ;;
      sfc <- ext (sfc_get_by_name "fmc") ;;
      if sfc =? 0 then
        ext (loge "Failed to acquire SPI controller") ;;
        cleanup_soc (- ENODEV)
      else
      ext (logi "Initialising flash chip") ;;
      rc <- ext flash_init ;;
      if negb (rc =? 0) then cleanup_soc rc
      else
      ext (logi "Write-protecting all chip-selects") ;;
      rc <- ext (sfc_write_protect_save true) ;;
      if negb (rc =? 0) then cleanup_chip rc
      else
      rc <- ext sfc_get_flash ;;
      if rc <? 0 then cleanup_chip rc
      else
      fl <- ask flash ;;
      size <- ask flash_size ;;
      ext (logi "Exfiltrating BMC flash to stdout") ;;
      rc <- ext (soc_siphon_out (u32 (Soc.start fl)) size 1) ;;
      (if negb (rc =? 0)
       then set_errno (- rc) ;; do_perror "soc_siphon_in" else pure tt) ;;
      cleanup <- ext sfc_write_protect_restore ;;
      (if cleanup <? 0
       then set_errno (- rc) ;; do_perror "sfc_write_protect_restore"
       else pure tt) ;;
      cleanup_chip rc
  end.

Record cmd_read_ram_args := {
  start : Z;
  length : Z;
  key_arg_count : Z
}.

Definition cmd_read_ram_args_zero : cmd_read_ram_args :=
  {| start := 0; length := 0; key_arg_count := 0 |}.

Definition parse_opt_ram (p : abi) : parser cmd_read_ram_args :=
  fun key arg state arguments =>
  let a :=
    match key with
    | ARGP_KEY_ARG =>
        {| start := start arguments; length := length arguments;
           key_arg_count := key_arg_count arguments + 1 |}
    | _ => arguments
    end in
  match key with
  | KEY_OPT "S" =>
      r <- Libc.do_strtoul p (arg_text arg) ;;
      let a := {| start := Libc.value r; length := length a;
                  key_arg_count := key_arg_count a |} in
      err <- get_errno ;;
      if (start a =? ULONG_MAX p) && negb (err =? 0) then
        ext (loge "Failed to parse RAM region start address '%s': %s") ;;
        pure (PReturn ARGP_KEY_ERROR a)
      else if match p with LP64 => start a >? UINT32_MAX | ILP32 => false end
      then
        ext (loge "RAM region start address '%s' exceeds address space") ;;
        pure (PReturn ARGP_KEY_ERROR a)
      else pure (PReturn 0 a)
  | KEY_OPT "L" =>
      r <- Libc.do_strtoul p (arg_text arg) ;;
      let a := {| start := start a; length := Libc.value r;
                  key_arg_count := key_arg_count a |} in
      err <- get_errno ;;
      if (length a =? ULONG_MAX p) && negb (err =? 0) then
        ext (loge "Failed to parse RAM region length '%s': %s") ;;
        pure (PReturn ARGP_KEY_ERROR a)
      else if match p with LP64 => length a >? UINT32_MAX | ILP32 => false end
      then
        ext (loge "RAM region length '%s' exceeds address space") ;;
        pure (PReturn ARGP_KEY_ERROR a)
      else pure (PReturn 0 a)
  | ARGP_KEY_ARG | ARGP_KEY_END =>
      if ulong p (UINT32_MAX - length a) <? start a
      then do_argp_error
             "RAM region start address + length exceeds address space"
      else pure (PReturn 0 a)
  | _ => pure (PReturn ARGP_ERR_UNKNOWN a)
  end.

(** The command once its arguments are parsed. *)
Definition cmd_read_ram_parsed (p : abi) (arguments : cmd_read_ram_args)
  (ram_cmd : ArgHelper.subcommand) : M outcome :=
  let argv := host_argv ram_cmd (key_arg_count arguments) in
  rc <- ext (host_init (key_arg_count arguments) argv) ;;
  if rc <? 0 then
    ext (loge "Failed to initialise host interfaces: %d") ;;
    pure (Return rc)
  else
  ahb <- ext host_get_ahb ;;
  if ahb =? 0 then
    ext (loge "Failed to acquire AHB interface, exiting") ;;
    cleanup_host (- ENODEV)
  else
  rc <- ext soc_probe ;;
  if rc <? 0 then cleanup_host rc
  else
  sdmc <- ext sdmc_get ;;
  if sdmc =? 0 then cleanup_soc (- ENODEV)
  else
  rc <- ext sdmc_get_dram ;;
  if negb (rc =? 0) then cleanup_soc rc
  else
  dram <- ask (fun e => region_u32 (dram e)) ;;
  let dump (start length : Z) : M outcome :=
    rc <- ext (soc_siphon_out start length STDOUT_FILENO) ;;
    (if negb (rc =? 0)
     then set_errno (- rc) ;; do_perror "soc_siphon_in" else pure tt) ;;
    cleanup_soc rc in
  if negb (start arguments =? 0) && negb (length arguments =? 0) then
    if (start arguments <? Soc.start dram)
       || (ulong p (start arguments + length arguments)
           >? u32 (Soc.start dram + Soc.length dram))
    then cleanup_soc (- EINVAL)
    else
      ext (logi "Dumping %dMiB (%#.8x-%#.8x)") ;;
      dump (start arguments) (length arguments)
  else
    rc <- ext sdmc_get_vram ;;
    if negb (rc =? 0) then cleanup_soc rc
    else
      vram <- ask (fun e => region_u32 (vram e)) ;;
      let start := Soc.start dram in
      let length := u32 (Soc.length dram - Soc.length vram) in
      ext (logi "%dMiB DRAM with %dMiB VRAM; dumping %dMiB (0x%x-0x%08x)") ;;
      dump start length.

Definition cmd_read_ram (p : abi) (parent : string) (toks : list token)
  : M outcome :=
  r <- ArgHelper.parse_subcommand (parse_opt_ram p) "ram"
         cmd_read_ram_args_zero parent toks ;;
  match r with
  | ArgHelper.SubExited s => pure (Exit s)
  | ArgHelper.SubParsed arguments ram_cmd =>
      cmd_read_ram_parsed p arguments ram_cmd
  end.

(** The command of each read type is called with the parser's state; the
    dispatcher is given for any two such commands. *)
Section Global.

Variables fn_firmware fn_ram : argp_state -> M outcome.

Definition parse_opt_global : parser unit :=
  fun key arg state arguments =>
  match key with
  | ARGP_KEY_ARG =>
      match arg_num state with
      | 0 =>
          if String.eqb "firmware" (arg_text arg) then
            r <- fn_firmware state ;;
            match r with
            | Exit s => pure (PExit s)
            | Return _ => pure (PReturn 0 arguments)
            end
          else if String.eqb "ram" (arg_text arg) then
            r <- fn_ram state ;;
            match r with
            | Exit s => pure (PExit s)
            | Return _ => pure (PReturn 0 arguments)
            end
          else do_argp_error "Invalid read type '%s'"
      | _ => pure (PReturn 0 arguments)
      end
  | ARGP_KEY_END =>
      if arg_num state <? 1 then do_argp_usage
      else pure (PReturn 0 arguments)
  | _ => pure (PReturn ARGP_ERR_UNKNOWN arguments)
  end.

Definition cmd_read (parent : string) (toks : list token) : M outcome :=
  r <- ArgHelper.parse_subcommand parse_opt_global "read" tt parent toks ;;
  match r with
  | ArgHelper.SubExited s => pure (Exit s)
  | ArgHelper.SubParsed _ _ => pure (Return 0)
  end.

End Global.

End Read.

(** ** coprocessor.c *)

Module Coprocessor.

Definition BIT (n : Z) : Z := Z.shiftl 1 n.

Definition COPROC_CACHED_MEM_SIZE : Z := 16 * 1024 * 1024.
Definition COPROC_TOTAL_MEM_SIZE : Z := 32 * 1024 * 1024.

Definition SCU_COPROC_CTRL : Z := 0xa00.
Definition SCU_COPROC_CTRL_RESET_ASSERT : Z := BIT 1.
Definition SCU_COPROC_CTRL_EN : Z := BIT 0.

Definition SCU_COPROC_MEM_BASE : Z := 0xa04.
Definition SCU_COPROC_IMEM_LIMIT : Z := 0xa08.
Definition SCU_COPROC_DMEM_LIMIT : Z := 0xa0c.
Definition SCU_COPROC_CACHE_RANGE : Z := 0xa40.
Definition SCU_COPROC_CACHE_1ST_16MB_EN : Z := BIT 0.
Definition SCU_COPROC_CACHE_FUNC : Z := 0xa48.
Definition SCU_COPROC_CACHE_EN : Z := BIT 0.

Record cmd_copressor_run_args := {
  mem_base : Z;
  mem_size : Z;
  connection : Connection.connection_args
}.

Definition cmd_copressor_run_args_zero : cmd_copressor_run_args :=
  {| mem_base := 0; mem_size := 0;
     connection := Connection.connection_args_zero |}.

(** [errno = 0; v = strtoul(arg, &endp, 0);] and the two tests on it:
    the value, or the format of the [argp_error]. *)
Definition parse_ulong (p : abi) (arg : string) (range_fmt text_fmt : string)
  : M (Z + string) :=
  set_errno 0 ;;
  r <- Libc.do_strtoul p arg ;;
  err <- get_errno ;;
  if (Libc.value r =? ULONG_MAX p) && negb (err =? 0)
  then pure (inr range_fmt)
  else if negb (Libc.converted r) || negb (String.eqb (Libc.endp r) "")
  then pure (inr text_fmt)
  else pure (inl (Libc.value r)).

Definition parse_opt_run (p : abi) : parser cmd_copressor_run_args :=
  fun key arg state arguments =>
  if key_is_arg key && String.eqb (arg_text arg) "via" then
    r <- ArgHelper.parse_via p (next state - 1) state
           (connection arguments) ;;
    if negb (fst r =? 0)
    then do_argp_error
           "Failed to parse connection arguments. Returned code %d"
    else pure (PReturn 0
                {| mem_base := mem_base arguments;
                   mem_size := mem_size arguments;
                   connection := snd r |})
  else
  match key with
  | ARGP_KEY_ARG =>
      match arg_num state with
      | 0 =>
          v <- parse_ulong p (arg_text arg)
                 "Failed to parse coprocessor RAM base '%ld': %s"
                 "Failed to parse coprocessor RAM base '%ld'" ;;
          match v with
          | inr fmt => do_argp_error fmt
          | inl base =>
              pure (PReturn 0
                {| mem_base := base; mem_size := mem_size arguments;
                   connection := connection arguments |})
          end
      | 1 =>
          v <- parse_ulong p (arg_text arg)
                 "Failed to parse coprocessor RAM size '%ld': %s"
                 "Failed to parse coprocessor RAM size '%ld'" ;;
          match v with
          | inr fmt => do_argp_error fmt
          | inl size =>
              if negb (size =? COPROC_TOTAL_MEM_SIZE)
              then do_argp_error
                     "We currently only support assigning 32M of memory to the coprocessor"
              else
                pure (PReturn 0
                  {| mem_base := mem_base arguments; mem_size := size;
                     connection := connection arguments |})
          end
      | _ => pure (PReturn 0 arguments)
      end
  | ARGP_KEY_END =>
      if arg_num state <? 2 then do_argp_usage
      else pure (PReturn 0 arguments)
  | _ => pure (PReturn ARGP_ERR_UNKNOWN arguments)
  end.

Definition cleanup_host (rc : Z) : M outcome :=
  ext host_destroy ;; pure (Return rc).

Definition cleanup_soc (rc : Z) : M outcome :=
  ext soc_destroy ;; cleanup_host rc.

Definition cleanup_scu (rc : Z) : M outcome :=
  ext scu_put ;; cleanup_soc rc.

(** [f1() || f2() || ...]: the calls are made in turn until one returns
    nonzero. *)
Fixpoint any_nonzero (cs : list call) : M bool :=
  match cs with
  | [] => pure false
  | c :: rest =>
      r <- ext c ;;
      if negb (r =? 0) then pure true else any_nonzero rest
  end.

(** The command once its arguments are parsed.  The values written to the
    SCU are those of the C expressions in [unsigned long]. *)
Definition cmd_coprocessor_run_parsed (p : abi)
  (arguments : cmd_copressor_run_args) : M outcome :=
  set_errno 0 ;;
  rc <- ext (host_init_new (connection arguments)) ;;
  if rc <? 0 then
    ext (loge "Failed to initialise host interface: %d") ;;
    pure (Return EXIT_FAILURE)
  else
  ahb <- ext host_get_ahb ;;
  if ahb =? 0 then
    ext (loge "Failed to acquire AHB interface") ;;
    cleanup_host EXIT_FAILURE
  else
  rc <- ext soc_probe ;;
  if rc <? 0 then
    ext (loge "Failed to probe SoC: %d") ;;
    cleanup_host EXIT_FAILURE
  else
  gen <- ask soc_generation ;;
  if negb (Soc.ast_generation_eqb gen Soc.ast_g6) then
    ext (loge "We currently only support the AST2600-series coprocessor") ;;
    cleanup_soc EXIT_FAILURE
  else
  sdmc <- ext sdmc_get ;;
  if sdmc =? 0 then
    ext (loge "Failed to acquire SDRAM memory controller") ;;
    cleanup_soc EXIT_FAILURE
  else
  rc <- ext sdmc_get_dram ;;
  if negb (rc =? 0) then
    ext (loge "Failed to locate DRAM: %d") ;;
    cleanup_soc EXIT_FAILURE
  else
  dram <- ask (fun e => region_u32 (dram e)) ;;
  if match p with LP64 => mem_base arguments >? UINT32_MAX | ILP32 => false end
  then
    ext (loge "Provided RAM base 0x%ux exceeds SoC physical address space") ;;
    cleanup_soc EXIT_FAILURE
  else
  if Z.land (ulong p (mem_base arguments + mem_size arguments)) UINT32_MAX
     <? mem_base arguments
  then
    ext (loge "Invalid RAM region provided for coprocessor") ;;
    cleanup_soc EXIT_FAILURE
  else
  if (mem_base arguments <? Soc.start dram)
     || (ulong p (mem_base arguments + mem_size arguments)
         >? u32 (Soc.start dram + Soc.length dram))
  then
    ext (loge "Ill-formed RAM region provided for coprocessor") ;;
    cleanup_soc EXIT_FAILURE
  else
  scu <- ext scu_get ;;
  if scu =? 0 then
    ext (loge "Failed to acquire SCU driver") ;;
    cleanup_soc EXIT_FAILURE
  else
  (* 4.1.2 SSP Cache Programming Procedure *)
  (* 1. *)
  rc <- ext (scu_writel SCU_COPROC_CTRL 0) ;;
  if rc <? 0 then
    ext (loge "Failed to disable coprocoessor: %d") ;;
    cleanup_scu EXIT_FAILURE
  else
  (* 2. *)
  rc <- ext (scu_writel SCU_COPROC_CTRL SCU_COPROC_CTRL_RESET_ASSERT) ;;
  if rc <? 0 then
    ext (loge "Failed to assert the coprocessor reset: %d") ;;
    cleanup_scu EXIT_FAILURE
  else
  (* 3. *)
  src <- ext (soc_siphon_in (mem_base arguments) (mem_size arguments)
                            STDIN_FILENO) ;;
  if src <? 0 then
    ext (loge "Failed to load coprocessor firmware to provided region: %d") ;;
    cleanup_scu EXIT_FAILURE
  else
  failed <- any_nonzero
    [ (* 4. *)
      scu_writel SCU_COPROC_MEM_BASE (mem_base arguments);
      (* 5. *)
      scu_writel SCU_COPROC_IMEM_LIMIT
        (ulong p (mem_base arguments + COPROC_CACHED_MEM_SIZE));
      (* 6. *)
      scu_writel SCU_COPROC_DMEM_LIMIT
        (ulong p (mem_base arguments + mem_size arguments));
      (* 7. *)
      scu_writel SCU_COPROC_CACHE_RANGE SCU_COPROC_CACHE_1ST_16MB_EN;
      (* 8. *)
      scu_writel SCU_COPROC_CACHE_FUNC SCU_COPROC_CACHE_EN ] ;;
  if failed then
    ext (loge "Failed to configure coprocessor control registers") ;;
    cleanup_scu EXIT_FAILURE
  else
  d <- sys (usleep 1000) ;;
  if d =? -1 then
    ext (loge "Coprocessor reset pre-delay failed: %s") ;;
    cleanup_scu EXIT_FAILURE
  else
  (* 9. *)
  rc <- ext (scu_writel SCU_COPROC_CTRL 0) ;;
  if rc <? 0 then
    ext (loge "Failed to disable coprocessor: %d") ;;
    cleanup_scu EXIT_FAILURE
  else
  d <- sys (usleep 1000) ;;
  if d =? -1 then
    ext (loge "Coprocessor reset post-delay failed: %s") ;;
    cleanup_scu EXIT_FAILURE
  else
  (* 10. *)
  rc <- ext (scu_writel SCU_COPROC_CTRL SCU_COPROC_CTRL_EN) ;;
  if rc <? 0 then
    ext (loge "Failed to start coprocessor: %d") ;;
    cleanup_scu EXIT_FAILURE
  else cleanup_scu EXIT_SUCCESS.

Definition cmd_coprocessor_run (p : abi) (parent : string)
  (toks : list token) : M outcome :=
  r <- ArgHelper.parse_subcommand (parse_opt_run p) "run"
         cmd_copressor_run_args_zero parent toks ;;
  match r with
  | ArgHelper.SubExited s => pure (Exit s)
  | ArgHelper.SubParsed arguments _ => cmd_coprocessor_run_parsed p arguments
  end.

(** [argp_stop] has no parser function: every key is unknown to it. *)
Definition parse_opt_stop : parser unit :=
  fun key arg state arguments => pure (PReturn ARGP_ERR_UNKNOWN arguments).

Definition cmd_coprocessor_stop (parent : string) (toks : list token)
  : M outcome :=
  r <- ArgHelper.parse_subcommand parse_opt_stop "stop" tt parent toks ;;
  match r with
  | ArgHelper.SubExited s => pure (Exit s)
  | ArgHelper.SubParsed arguments stop_cmd =>
      rc <- ext (host_init (ArgHelper.sub_argc stop_cmd)
                           (ArgHelper.sub_argv stop_cmd)) ;;
      if rc <? 0 then
        ext (loge "Failed to initialise host interface: %d") ;;
        pure (Return EXIT_FAILURE)
      else
      ahb <- ext host_get_ahb ;;
      if ahb =? 0 then
        ext (loge "Failed to acquire AHB interface") ;;
        cleanup_host EXIT_FAILURE
      else
      rc <- ext soc_probe ;;
      if rc <? 0 then
        ext (loge "Failed to probe SoC: %d") ;;
        cleanup_host EXIT_FAILURE
      else
      gen <- ask soc_generation ;;
      if negb (Soc.ast_generation_eqb gen Soc.ast_g6) then
        ext (loge "We currently only support the AST2600-series coprocessor") ;;
        cleanup_soc EXIT_FAILURE
      else
      scu <- ext scu_get ;;
      if scu =? 0 then
        ext (loge "Failed to acquire SCU driver") ;;
        cleanup_soc EXIT_FAILURE
      else
      rc <- ext (scu_writel SCU_COPROC_CTRL 0) ;;
      rc <- (if rc <? 0
             then ext (loge "Failed to disable coprocoessor: %d") ;;
                  pure EXIT_FAILURE
             else pure rc) ;;
      ext scu_put ;;
      cleanup_soc rc
  end.

(** The sub-commands are called with the parser's state; the dispatcher
    is given for any two such commands. *)
Section Global.

Variables fn_run fn_stop : argp_state -> M outcome.

Definition parse_opt_global : parser unit :=
  fun key arg state arguments =>
  match key with
  | ARGP_KEY_ARG =>
      if (arg_num state =? 0) && String.eqb (arg_text arg) "run" then
        r <- fn_run state ;;
        match r with
        | Exit s => pure (PExit s)
        | Return _ => pure (PReturn 0 arguments)
        end
      else if (arg_num state =? 0) && String.eqb (arg_text arg) "stop" then
        r <- fn_stop state ;;
        match r with
        | Exit s => pure (PExit s)
        | Return _ => pure (PReturn 0 arguments)
        end
      else pure (PReturn 0 arguments)
  | ARGP_KEY_END =>
      if arg_num state <? 1 then do_argp_usage
      else pure (PReturn 0 arguments)
  | _ => pure (PReturn ARGP_ERR_UNKNOWN arguments)
  end.

Definition cmd_coprocessor (parent : string) (toks : list token)
  : M outcome :=
  r <- ArgHelper.parse_subcommand parse_opt_global "coprocessor" tt
         parent toks ;;
  match r with
  | ArgHelper.SubExited s => pure (Exit s)
  | ArgHelper.SubParsed _ _ => pure (Return EXIT_FAILURE)
  end.

End Global.

End Coprocessor.

(** ** The bridge driver registry *)

Module Registry.

Definition ENOENT : Z := 2.

(** Modelled from the spec: host.c is not among the sources.  "disable(name)
    fails with UnknownDriver if name not present"; otherwise the driver of
    that name is marked disabled and stays listed. *)
Fixpoint disable (name : string) (reg : list bridge_driver)
  : option (list bridge_driver) :=
  match reg with
  | [] => None
  | d :: rest =>
      if String.eqb (bd_name d) name
      then Some ({| bd_name := bd_name d; bd_priority := bd_priority d;
                    bd_enabled := false |} :: rest)
      else match disable name rest with
           | Some rest' => Some (d :: rest')
           | None => None
           end
  end.

Definition present (name : string) (reg : list bridge_driver) : bool :=
  existsb (fun d => String.eqb (bd_name d) name) reg.

(** Modelled from the spec: [disable_bridge_driver] of host.c, on the
    process-wide registry; its failure is a nonzero code. *)
Definition do_disable_bridge_driver (name : string) : M Z := fun _ w =>
  match disable name (registry w) with
  | Some reg =>
      (0, {| trace := trace w ++ [disable_bridge_driver name];
             errno := errno w; registry := reg |})
  | None => (- ENOENT, record (disable_bridge_driver name) w)
  end.

End Registry.

(** ** culvert.c *)

Module Culvert.

(** The command table, in its order. *)
Definition cmds : list string :=
  [ "ilpc"; "p2a"; "console"; "read"; "write"; "replace"; "probe"; "debug";
    "reset"; "jtag"; "devmem"; "sfc"; "otp"; "trace"; "coprocessor" ].

(** [state] as the command sees it: the command's name is taken out of
    [argv]. *)
Definition shift_argv (state : argp_state) : argp_state :=
  let i := Z.to_nat (next state) in
  {| argc := argc state - 1;
     argv := firstn i (argv state) ++ skipn (S i) (argv state);
     next := next state; arg_num := arg_num state; name := name state |}.

(** [struct arguments] holds [char *args[2]]. *)
Definition ARGS_SLOTS : Z := 2.

(** The stores of the first loop of [ARGP_KEY_ARGS], in their order:

    for (int i = 0; i < state->argc - state->next; i++)
        arguments->args[i] = state->argv[state->next + i];

    each the index written and the word stored. *)
Definition args_stores (state : argp_state) : list (Z * option string) :=
  map (fun i => (Z.of_nat i, argv_at state (next state + Z.of_nat i)))
      (seq 0 (Z.to_nat (argc state - next state))).

Section Commands.

(** The function of the command of each name in the table. *)
Variable fn : string -> argp_state -> M outcome.

Definition parse_opt : parser unit :=
  fun key arg state arguments =>
  match key with
  | KEY_OPT "q" =>
      ext (log_set_level "level_none") ;; pure (PReturn 0 arguments)
  | KEY_OPT "v" =>
      ext (log_set_level "level_trace") ;; pure (PReturn 0 arguments)
  | KEY_OPT "s" =>
      rc <- Registry.do_disable_bridge_driver (arg_text arg) ;;
      if negb (rc =? 0) then
        ext (fprintf_stderr
               "Error: '%s' not a recognized bridge name (use '-l' to list)"
               (arg_text arg)) ;;
        pure (PExit EXIT_FAILURE)
      else pure (PReturn 0 arguments)
  | KEY_OPT "l" =>
      ext print_bridge_drivers ;; pure (PExit EXIT_SUCCESS)
  | ARGP_KEY_ARGS =>
      let arg0 := arg_text (argv_at state (next state)) in
      if existsb (String.eqb arg0) cmds then
        (* Remove arguments->args[0] from the list *)
        r <- fn arg0 (shift_argv state) ;;
        match r with
        | Exit s => pure (PExit s)
        | Return rc =>
            pure (PExit (if negb (rc =? 0) then EXIT_FAILURE else EXIT_SUCCESS))
        end
      else do_argp_usage
  | ARGP_KEY_END =>
      if arg_num state <? 1 then do_argp_usage
      else pure (PReturn 0 arguments)
  | _ => pure (PReturn ARGP_ERR_UNKNOWN arguments)
  end.

Definition main (toks : list token) : M outcome :=
  (* Always initialise the log level and set a different level if an
     argument is passed. *)
  ext (log_set_level "level_info") ;;
  r <- argp_parse parse_opt "culvert" toks tt ;;
  match r with
  | Exited s => pure (Exit s)
  | Parsed err _ =>
      if negb (err =? 0) then
        ext (fprintf_stderr "Error parsing arguments" "") ;;
        pure (Exit EXIT_FAILURE)
      else pure (Exit EXIT_FAILURE)
  end.

End Commands.

End Culvert.

(** ** Kinds of calls *)

(** Calls that stay within the process: memory, logging, messages, the
    driver registry. *)
Definition local (c : call) : bool :=
  match c with
  | malloc _ | free | perror _ _ | fprintf_stderr _ _
  | log_set_level _ | loge _ | logi _ | logt _
  | argp_error _ | argp_usage | argp_failure _ _
  | disable_bridge_driver _ | print_bridge_drivers => true
  | _ => false
  end.

(** Opening a bridge to the target. *)
Definition negotiation (c : call) : bool :=
  match c with
  | host_init _ _ | host_init_new _ | devmem_init => true
  | _ => false
  end.

(** Transfers on the target's bus, through an open bridge. *)
Definition bus_operation (c : call) : bool :=
  match c with
  | soc_probe | soc_list_bridge_controllers | soc_probe_bridge_controllers _
  | soc_siphon_in _ _ _ | soc_siphon_out _ _ _
  | clk_enable_uart3
  | uart_mux_route_uart3_uart5 | uart_mux_restore
  | uart_mux_connect_uart3_uart2
  | suart_init_defaults | suart_set_baud _ | suart_flush _ _ | suart_run _ _
  | sfc_write_protect_save _ | sfc_write_protect_restore
  | flash_init | flash_read _ _ | flash_write _ _ | flash_erase _ _
  | sdmc_get_dram | sdmc_get_vram
  | scu_writel _ _
  | ast_ahb_access _ _ => true
  | _ => false
  end.

Definition is_scu_writel (c : call) : bool :=
  match c with scu_writel _ _ => true | _ => false end.

Definition is_siphon (c : call) : bool :=
  match c with
  | soc_siphon_in _ _ _ | soc_siphon_out _ _ _ => true
  | _ => false
  end.

(** Calls that write to the target: an SCU register or a bulk transfer. *)
Definition writes_target (c : call) : bool := is_scu_writel c || is_siphon c.

Definition is_flash_write (c : call) : bool :=
  match c with flash_write _ _ => true | _ => false end.

Definition is_read (c : call) : bool :=
  match c with read _ _ => true | _ => false end.

(** [w'] continues [w] with local calls only. *)
Definition local_step (w w' : world) : Prop :=
  exists evs, trace w' = trace w ++ evs /\ forallb local evs = true.

(** A computation that makes local calls only. *)
Definition quiet {A} (m : M A) : Prop :=
  forall e w, local_step w (snd (m e w)).

(** The number of plain arguments, and of words, of a command line. *)
Definition is_arg (t : token) : bool :=
  match t with TArg _ => true | _ => false end.

Definition count_args (toks : list token) : Z :=
  Z.of_nat (List.length (filter is_arg toks)).

Definition count_words (toks : list token) : Z :=
  Z.of_nat (List.length (flat_map words toks)).

(** ** Lines as getopt splits them *)

(** A word getopt takes for a plain argument: it does not begin with
    [-]. *)
Definition plain_word (s : string) : bool :=
  match s with
  | String c _ => negb (Ascii.eqb c "-")
  | EmptyString => true
  end.

(** The letters argp keeps for itself, [-?] and [-V], and the [-] of
    [--]. *)
Definition argp_own (c : ascii) : bool :=
  Ascii.eqb c "?" || Ascii.eqb c "V" || Ascii.eqb c "-".

(** [t] is a token of a line as getopt splits it for the option letters
    [flags], which take no argument, and [opts], which take one, and
    [argp_parse] hands it to the parser function: a flag is not one of
    argp's own and takes no argument, an option with an argument is not
    one of argp's own and not a flag, and a plain argument is a plain
    word.  A letter outside [flags] and [opts] is an option getopt does
    not know. *)
Definition getopt_token (flags opts : list ascii) (t : token) : bool :=
  match t with
  | TFlag c => negb (argp_own c) && negb (existsb (Ascii.eqb c) opts)
  | TOpt c _ => negb (argp_own c) && negb (existsb (Ascii.eqb c) flags)
  | TArg s => plain_word s
  end.

(** ** Environments of the worked examples *)

(** Every call succeeds: handles are not null, codes are 0. *)
Definition healthy (c : call) : Z :=
  match c with
  | host_get_ahb | clk_get | uart_mux_get | sfc_get_by_name _
  | sdmc_get | scu_get | malloc _ | devmem_as_ahb | priv_am_root => 1
  | _ => 0
  end.

(** An AST2600 with 1 GiB of DRAM, 32 MiB of it video memory, and
    [input] on standard input. *)
Definition ast2600 (answer : call -> Z) (input : list read_result) : env :=
  {| ret := fun _ c => answer c;
     fail_errno := fun _ _ => 5;
     soc_generation := Soc.ast_g6;
     dram := {| Soc.start := 0x80000000; Soc.length := 0x40000000 |};
     vram := {| Soc.start := 0xBE000000; Soc.length := 0x02000000 |};
     flash := {| Soc.start := 0x20000000; Soc.length := 0x04000000 |};
     flash_size := 0x04000000;
     discovered := bm_restricted;
     stdin := input;
     bridge_drivers :=
       [ {| bd_name := "devmem"; bd_priority := 3; bd_enabled := true |};
         {| bd_name := "p2a"; bd_priority := 2; bd_enabled := true |};
         {| bd_name := "debug-uart"; bd_priority := 1; bd_enabled := true |} ]
  |}.

Definition console_line : list token :=
  [TArg "uart3"; TArg "uart2"; TArg "115200"; TArg "root"; TArg "0penBmc"].

Definition sfc_write_line : list token :=
  [TOpt "t" "fmc"; TOpt "m" "write"; TOpt "a" "0x100"; TOpt "l" "5"].

(** [clk_get] finds no clock controller. *)
Definition no_clk (c : call) : Z :=
  match c with clk_get => 0 | _ => healthy c end.

(** [uart_mux_get] finds no UART mux. *)
Definition no_mux (c : call) : Z :=
  match c with uart_mux_get => 0 | _ => healthy c end.

(** [sfc_get_by_name] finds no flash controller. *)
Definition no_sfc (c : call) : Z :=
  match c with sfc_get_by_name _ => 0 | _ => healthy c end.

(** [devmem_init] fails with [code]; the process is root or not. *)
Definition devmem_fails (code : Z) (root : bool) (c : call) : Z :=
  match c with
  | devmem_init => code
  | priv_am_root => if root then 1 else 0
  | _ => healthy c
  end.

(** ** Environments in which a call succeeds, whenever it is made *)

(** [c] returns 0. *)
Definition succeeds (e : env) (c : call) : Prop :=
  forall h, ret e h c = 0.

(** [c] returns a code that is not negative. *)
Definition passes (e : env) (c : call) : Prop :=
  forall h, 0 <= ret e h c.

(** [c] returns a handle that is not [NULL]. *)
Definition found (e : env) (c : call) : Prop :=
  forall h, ret e h c <> 0.

(** The steps of [cmd_read_ram] up to the DRAM lookup succeed. *)
Definition ram_reachable (e : env) (key_arg_count : Z) (argv : list string)
  : Prop :=
  passes e (host_init key_arg_count argv) /\
  found e host_get_ahb /\
  passes e soc_probe /\
  found e sdmc_get /\
  succeeds e sdmc_get_dram.

(** A region lies within another, in plain integers. *)
Definition within (start length : Z) (r : Soc.soc_region) : Prop :=
  Soc.start r <= start /\ start + length <= Soc.start r + Soc.length r.

(** ** Reading the writes of a trace *)

(** The address and length of each [flash_write], in order. *)
Fixpoint flash_writes (tr : list call) : list (Z * Z) :=
  match tr with
  | [] => []
  | flash_write addr len :: rest => (addr, len) :: flash_writes rest
  | _ :: rest => flash_writes rest
  end.

(** Each write starts where the one before it ended, the first at
    [addr]; addresses are [uint32_t]. *)
Fixpoint chained (addr : Z) (ws : list (Z * Z)) : Prop :=
  match ws with
  | [] => True
  | (a, n) :: rest => a = addr /\ chained (u32 (addr + n)) rest
  end.

(** The number of [read] calls of a trace. *)
Definition count_reads (tr : list call) : nat :=
  List.length (filter is_read tr).

(** The result of one scripted [read]. *)
Definition ingress_of (r : read_result) : Z :=
  match r with RdBytes n => Z.pos n | RdError _ => -1 end.

(** ** Tokens the top-level parser goes past *)

Definition goes_on (reg : list bridge_driver) (t : token) : bool :=
  match t with
  | TFlag c => Ascii.eqb c "q" || Ascii.eqb c "v"
  | TOpt c name => Ascii.eqb c "s" && Registry.present name reg
  | TArg _ => false
  end.

Definition unknown_bridge_message : string :=
  "Error: '%s' not a recognized bridge name (use '-l' to list)".

(** ** Command lines of the worked examples *)

Definition run_line : list token :=
  [TArg "0x80000000"; TArg "0x2000000"; TArg "via"; TArg "debug-uart"].

(** A region that wraps: 0xff000000 + 32 MiB. *)
Definition run_wrap_line : list token :=
  [TArg "0xff000000"; TArg "0x2000000"].

(** Five fields, the password empty. *)
Definition blank_password_line : list token :=
  [TArg "0x80000000"; TArg "0x2000000"; TArg "via"; TArg "debug-uart";
   TArg "192.0.2.1"; TArg "23"; TArg "root"; TArg ""].

Definition blank_password_connection : Connection.connection_args :=
  {| Connection.interface := Some "debug-uart";
     Connection.ip := Some "192.0.2.1";
     Connection.username := Some "root";
     Connection.password := Some "";
     Connection.port := 23 |}.

(** An explicit start of 0 with a length of 4 KiB. *)
Definition ram_zero_start_line : list token :=
  [TOpt "S" "0"; TOpt "L" "0x1000"].

(** 4 KiB at the start of DRAM. *)
Definition ram_inside_line : list token :=
  [TOpt "S" "0x80000000"; TOpt "L" "0x1000"].

(** 4 KiB below DRAM. *)
Definition ram_outside_line : list token :=
  [TOpt "S" "0x70000000"; TOpt "L" "0x1000"].

(** [flash_write] fails at the second window. *)
Definition second_write_fails (c : call) : Z :=
  match c with
  | flash_write 0x10100 _ => - 5
  | _ => healthy c
  end.

(** ** The write mode of sfc, in the words of its description

    Each window is one [read] of [len] bytes from standard input and one
    [flash_write] of the bytes it gave, at an address that moves on by
    that many bytes. *)
Fixpoint windows (len addr : Z) (ns : list positive) : list call :=
  match ns with
  | [] => []
  | n :: rest =>
      read STDIN_FILENO len :: flash_write addr (Z.pos n)
        :: windows len (u32 (addr + Z.pos n)) rest
  end.

(** The flash address after the windows [ns]. *)
Definition address_after (addr : Z) (ns : list positive) : Z :=
  fold_left (fun a n => u32 (a + Z.pos n)) ns addr.

(** The steps of sfc's write mode up to its loop succeed. *)
Definition sfc_reachable (e : env) (key_arg_count : Z) (argv : list string)
  : Prop :=
  passes e (host_init key_arg_count argv) /\
  found e host_get_ahb /\
  passes e soc_probe /\
  found e (sfc_get_by_name "fmc") /\
  passes e flash_init /\
  found e (malloc Sfc.SFC_FLASH_WIN).

(** The calls before the loop and after it. *)
Definition sfc_write_prologue (key_arg_count : Z) (argv : list string)
  : list call :=
  [ host_init key_arg_count argv; host_get_ahb; soc_probe;
    sfc_get_by_name "fmc"; flash_init; malloc Sfc.SFC_FLASH_WIN ].

Definition sfc_write_epilogue : list call :=
  [ free; flash_destroy; soc_destroy; host_destroy ].

(** Standard input gives 64 KiB and then 100 bytes. *)
Definition two_windows : list read_result := [RdBytes 65536; RdBytes 100].

(** ** Properties of parsed arguments *)

(** A parser keeps [P] of the arguments structure, whatever it returns. *)
Definition keeps {A : Type} (P : A -> Prop) (f : parser A) : Prop :=
  forall k arg st a e w, P a ->
    match fst (f k arg st a e w) with
    | PReturn _ a' => P a'
    | PExit _ => True
    end.

(** The codes on which [argp_parse] goes on. *)
Definition goes (err : Z) : Prop := err = 0 \/ err = ARGP_ERR_UNKNOWN.

(** The arguments of coprocessor run are [unsigned long]. *)
Definition run_args_in_range (p : abi)
  (a : Coprocessor.cmd_copressor_run_args) : Prop :=
  0 <= Coprocessor.mem_base a <= ULONG_MAX p /\
  0 <= Coprocessor.mem_size a <= ULONG_MAX p.

(** The arguments of read ram are [unsigned long]. *)
Definition ram_args_in_range (p : abi) (a : Read.cmd_read_ram_args) : Prop :=
  0 <= Read.start a <= ULONG_MAX p /\ 0 <= Read.length a <= ULONG_MAX p.

(** The arguments of read ram fit [uint32_t]. *)
Definition ram_args_u32 (a : Read.cmd_read_ram_args) : Prop :=
  0 <= Read.start a <= UINT32_MAX /\ 0 <= Read.length a <= UINT32_MAX.

(** A call of sfc's write mode is no [flash_erase], and if it is a [read]
    it reads a window from standard input. *)
Definition window_call (c : call) : Prop :=
  (forall fd count, c = read fd count ->
     fd = STDIN_FILENO /\ count = Sfc.SFC_FLASH_WIN) /\
  (forall addr len, c <> flash_erase addr len).

(** ** The lines of [main] *)

(** [-q] and [-v]. *)
Definition is_verbosity (t : token) : bool :=
  match t with
  | TFlag c => Ascii.eqb c "q" || Ascii.eqb c "v"
  | _ => false
  end.

(** The level [-q] and [-v] set. *)
Definition level_of (t : token) : string :=
  match t with
  | TFlag c => if Ascii.eqb c "q" then "level_none" else "level_trace"
  | _ => ""
  end.

(** The calls the flags of [pre] make. *)
Definition verbosity_calls (pre : list token) : list call :=
  map (fun t => log_set_level (level_of t)) pre.

(** The world after the calls [cs]. *)
Definition add_calls (cs : list call) (w : world) : world :=
  {| trace := trace w ++ cs; errno := errno w; registry := registry w |}.

(** The parser state once the words of [pre] are consumed. *)
Definition state_after (argv0 : string) (pre rest : list token) : argp_state :=
  advance (initial_state argv0 (pre ++ rest)) (count_words pre).

(** [exit(rc ? EXIT_FAILURE : EXIT_SUCCESS)] after a command, or the
    status the command itself left with. *)
Definition status_of (r : outcome) : Z :=
  match r with
  | Exit s => s
  | Return rc => if rc =? 0 then EXIT_SUCCESS else EXIT_FAILURE
  end.

(** ** Dispatchers and their sub-commands *)

(** The bytes [parse_subcommand] asks [malloc] for. *)
Definition name_size (parent name : string) : Z :=
  Z.of_nat (String.length parent) + Z.of_nat (String.length name) + 1.

(** What a dispatcher makes of its sub-command's outcome: the code is
    dropped for [rc]. *)
Definition drop_code (rc : Z) (r : outcome) : outcome :=
  match r with
  | Exit s => Exit s
  | Return _ => Return rc
  end.

(** ** What a line asks of probe *)

(** The key and the argument a token reaches the parser with. *)
Definition key_of (t : token) : key :=
  match t with
  | TFlag c | TOpt c _ => KEY_OPT c
  | TArg _ => ARGP_KEY_ARG
  end.

(** The argument that comes with it. *)
Definition arg_of (t : token) : option string :=
  match t with
  | TFlag _ => None
  | TOpt _ arg | TArg arg => Some arg
  end.

(** [t] is the option [-c]. *)
Definition has_key (c : ascii) (t : token) : bool :=
  match key_of t with
  | KEY_OPT c' => Ascii.eqb c c'
  | _ => false
  end.

(** The requirement of the last [-r], [bm_permissive] without one. *)
Definition probe_requirement (toks : list token) : Z :=
  fold_left
    (fun r t =>
       if has_key "r" t
       then if String.eqb "integrity" (arg_text (arg_of t))
            then bm_restricted else bm_disabled
       else r)
    toks bm_permissive.

(** The arguments of probe after the tokens [done]. *)
Definition probe_line (done : list token) (a : Probe.cmd_probe_args) : Prop :=
  Probe.key_arg_count a = count_args done /\
  Probe.requirement a = probe_requirement done /\
  Probe.list_ifaces a = (if existsb (has_key "l") done then 1 else 0).

(** ** The arguments of sfc *)

(** What the parser keeps of the arguments: the type, once given, is
    "fmc"; the operation is unset or one of the three; address and length
    are [uint32_t]. *)
Definition sfc_args_kept (a : Sfc.cmd_sfc_args) : Prop :=
  (Sfc.type a = None \/ Sfc.type a = Some "fmc") /\
  (Sfc.op a = 99 \/ Sfc.op a = Sfc.flash_op_read \/
   Sfc.op a = Sfc.flash_op_write \/ Sfc.op a = Sfc.flash_op_erase) /\
  0 <= Sfc.address a <= UINT32_MAX /\
  0 <= Sfc.length a <= UINT32_MAX.

(** What the command runs with. *)
Definition sfc_args_valid (a : Sfc.cmd_sfc_args) : Prop :=
  Sfc.type a = Some "fmc" /\
  (Sfc.op a = Sfc.flash_op_read \/ Sfc.op a = Sfc.flash_op_write \/
   Sfc.op a = Sfc.flash_op_erase) /\
  0 <= Sfc.address a <= UINT32_MAX /\
  1 <= Sfc.length a <= UINT32_MAX.

(** The options a line has given so far, as its arguments record them. *)
Definition sfc_line (done : list token) (a : Sfc.cmd_sfc_args) : Prop :=
  Sfc.key_arg_count a = count_args done /\
  (existsb (has_key "t") done = false -> Sfc.type a = None) /\
  (existsb (has_key "m") done = false -> Sfc.op a = 99) /\
  (existsb (has_key "l") done = false -> Sfc.length a = 0).

(** ** The transfers of sfc *)

(** Calls that move data: to or from the flash, standard input or
    standard output. *)
Definition data_call (c : call) : bool :=
  match c with
  | flash_read _ _ | flash_write _ _ | flash_erase _ _
  | read _ _ | write _ _ => true
  | _ => false
  end.

(** The steps of sfc up to the flash chip succeed. *)
Definition flash_opened (e : env) (key_arg_count : Z) (argv : list string)
  : Prop :=
  passes e (host_init key_arg_count argv) /\
  found e host_get_ahb /\
  passes e soc_probe /\
  found e (sfc_get_by_name "fmc") /\
  passes e flash_init.

(** The calls of sfc up to the flash chip, and those that release
    everything. *)
Definition flash_prologue (key_arg_count : Z) (argv : list string)
  : list call :=
  [ host_init key_arg_count argv; host_get_ahb; soc_probe;
    sfc_get_by_name "fmc"; flash_init ].

Definition flash_epilogue : list call :=
  [ flash_destroy; soc_destroy; host_destroy ].

(** ** The dumps of read *)

(** Calls that change the target: its flash, its registers, its memory. *)
Definition changes_target (c : call) : bool :=
  match c with
  | flash_write _ _ | flash_erase _ _ | scu_writel _ _
  | soc_siphon_in _ _ _ => true
  | _ => false
  end.

(** The calls of [read firmware] up to the dump. *)
Definition firmware_prologue (key_arg_count : Z) (argv : list string)
  : list call :=
  [ host_init key_arg_count argv; host_get_ahb; soc_probe;
    logi "Initialising flash controller"; sfc_get_by_name "fmc";
    logi "Initialising flash chip"; flash_init;
    logi "Write-protecting all chip-selects"; sfc_write_protect_save true;
    sfc_get_flash; logi "Exfiltrating BMC flash to stdout" ].

(** ** The operands of devmem *)

(** [read] with any operands, or [write] with exactly two. *)
Definition devmem_accepts (ws : list string) : bool :=
  match ws with
  | [] => false
  | op :: rest =>
      String.eqb "read" op
      || (String.eqb "write" op && (List.length rest =? 2)%nat)
  end.

(** ** The operands of console *)

(** [uart3 uart2 BAUD USER PASSWORD], five words. *)
Definition console_accepts (ws : list string) : bool :=
  match ws with
  | [host; bmc; _; _; _] => String.eqb "uart3" host && String.eqb "uart2" bmc
  | _ => false
  end.

(** The arguments five words leave. *)
Definition console_args (p : abi) (ws : list string)
  : Console.cmd_console_args :=
  {| Console.host_uart := nth_error ws 0;
     Console.bmc_uart := nth_error ws 1;
     Console.baud := Libc.atoi p (nth 2 ws "");
     Console.user := nth_error ws 3;
     Console.pass := nth_error ws 4 |}.

(** A computation that only adds calls to the trace. *)
Definition extends {A} (m : M A) : Prop :=
  forall e w, exists evs, trace (snd (m e w)) = trace w ++ evs.

(** ** What console holds *)

(** After every call that [first] picks there is a later call that
    [last] picks. *)
Definition follows (first last : call -> bool) (tr : list call) : Prop :=
  forall pre c post,
    tr = pre ++ c :: post -> first c = true -> existsb last post = true.

(** The same, as a test. *)
Fixpoint followsb (first last : call -> bool) (tr : list call) : bool :=
  match tr with
  | [] => true
  | c :: post =>
      (negb (first c) || existsb last post) && followsb first last post
  end.

(** What console holds. *)
Inductive resource := the_host | the_soc | the_mux | the_suart.

(** The first call console makes once it holds [r]. *)
Definition first_use (r : resource) (c : call) : bool :=
  match r, c with
  | the_host, host_get_ahb
  | the_soc, clk_get
  | the_mux, suart_init_defaults
  | the_suart, suart_set_baud _ => true
  | _, _ => false
  end.

(** The call that releases it. *)
Definition release_of (r : resource) (c : call) : bool :=
  match r, c with
  | the_host, host_destroy
  | the_soc, soc_destroy
  | the_mux, uart_mux_restore
  | the_suart, suart_destroy => true
  | _, _ => false
  end.

(** A trace written as the calls appended to it one after the other. *)
Definition snocs (base : list call) (more : list (list call)) : list call :=
  fold_right (fun m acc => acc ++ m) base more.

(** ** The numbers of read ram *)

(** [strtoul] overflows on [s], or gives more than 32 bits hold. *)
Definition bad_number (p : abi) (s : string) : bool :=
  let r := Libc.strtoul p s in
  Libc.out_of_range r
  || match p with LP64 => Libc.value r >? UINT32_MAX | ILP32 => false end.

(** What [parse_subcommand] hands back for the line [toks]. *)
Definition subcommand_for (parent name : string) (toks : list token)
  : ArgHelper.subcommand :=
  {| ArgHelper.sub_name := name;
     ArgHelper.sub_argc := 1 + count_words toks;
     ArgHelper.sub_argv := (parent ++ " " ++ name)%string :: flat_map words toks |}.

(** A start above 32 bits, then a length and an interface. *)
Definition bad_start_line : list token :=
  [TOpt "S" "0x100000000"; TOpt "L" "0x1000"; TArg "devmem"].

(** ** The line of coprocessor run *)

(** [strtoul] converts the whole of [s], to [v]. *)
Definition whole_number (p : abi) (s : string) (v : Z) : Prop :=
  let r := Libc.strtoul p s in
  Libc.converted r = true /\ Libc.endp r = "" /\
  Libc.out_of_range r = false /\ Libc.value r = v.

(** The connection of the fields after [via]. *)
Definition fields_connection (p : abi) (fs : list string)
  : Connection.connection_args :=
  match fs with
  | [i] =>
      {| Connection.interface := Some i; Connection.ip := None;
         Connection.username := None; Connection.password := None;
         Connection.port := 0 |}
  | [i; host; port; user; pass] =>
      {| Connection.interface := Some i; Connection.ip := Some host;
         Connection.username := Some user; Connection.password := Some pass;
         Connection.port := Libc.atoi p port |}
  | _ => Connection.connection_args_zero
  end.

(** What [parse_via] logs on these fields. *)
Definition via_logs (fs : list string) : list call :=
  [logt "parse_via found %d arguments"; logt "parse_via interface: %s"]
  ++ (if (List.length fs =? 5)%nat then [logt "parse_via ip: %s"] else []).

(** ** The steps of a start *)

(** The calls of a start of the coprocessor, in order. *)
Definition run_sequence (p : abi) (a : Coprocessor.cmd_copressor_run_args)
  : list call :=
  let base := Coprocessor.mem_base a in
  let size := Coprocessor.mem_size a in
  [ host_init_new (Coprocessor.connection a); host_get_ahb; soc_probe;
    sdmc_get; sdmc_get_dram; scu_get;
    scu_writel Coprocessor.SCU_COPROC_CTRL 0;
    scu_writel Coprocessor.SCU_COPROC_CTRL
               Coprocessor.SCU_COPROC_CTRL_RESET_ASSERT;
    soc_siphon_in base size STDIN_FILENO;
    scu_writel Coprocessor.SCU_COPROC_MEM_BASE base;
    scu_writel Coprocessor.SCU_COPROC_IMEM_LIMIT
               (ulong p (base + Coprocessor.COPROC_CACHED_MEM_SIZE));
    scu_writel Coprocessor.SCU_COPROC_DMEM_LIMIT (ulong p (base + size));
    scu_writel Coprocessor.SCU_COPROC_CACHE_RANGE
               Coprocessor.SCU_COPROC_CACHE_1ST_16MB_EN;
    scu_writel Coprocessor.SCU_COPROC_CACHE_FUNC
               Coprocessor.SCU_COPROC_CACHE_EN;
    usleep 1000;
    scu_writel Coprocessor.SCU_COPROC_CTRL 0;
    usleep 1000;
    scu_writel Coprocessor.SCU_COPROC_CTRL Coprocessor.SCU_COPROC_CTRL_EN;
    scu_put; soc_destroy; host_destroy ].

(** ** The steps of a stop *)

(** The calls of a stop of the coprocessor, in order; [argv] is what
    [host_init] is handed. *)
Definition stop_sequence (parent : string) (argv : list string) : list call :=
  [ malloc (name_size parent "stop");
    host_init 1 argv; host_get_ahb; soc_probe;
    scu_get; scu_writel Coprocessor.SCU_COPROC_CTRL 0;
    scu_put; soc_destroy; host_destroy ].

(** ** The words handed to [host_init] *)

(** As many words from the end of the line as it has plain arguments. *)
Definition last_words (toks : list token) : list string :=
  let ws := flat_map words toks in
  skipn (List.length ws - List.length (filter is_arg toks)) ws.

(** The calls of [host_init]. *)
Definition is_host_init (c : call) : bool :=
  match c with
  | host_init _ _ => true
  | _ => false
  end.

(** ** More worked examples *)

(** A command that returns [rc] at once. *)
Definition returns (rc : Z) : argp_state -> M outcome :=
  fun _ => pure (Return rc).

(** probe on /dev/mem, integrity required. *)
Definition probe_integrity_line : list token :=
  [TOpt "r" "integrity"; TArg "devmem"].

(** 16 bytes of the flash from 0x100, and the arguments of that line. *)
Definition sfc_read_line : list token :=
  [TOpt "t" "fmc"; TOpt "m" "read"; TOpt "a" "0x100"; TOpt "l" "16"].

Definition sfc_read_args : Sfc.cmd_sfc_args :=
  {| Sfc.address := 0x100; Sfc.length := 16; Sfc.key_arg_count := 0;
     Sfc.type := Some "fmc"; Sfc.op := Sfc.flash_op_read |}.

(** * Properties *)

(** ** Local computations *)

Lemma local_step_refl (w : world) : local_step w w.
Proof. exists []. split; [now rewrite app_nil_r | reflexivity]. Qed.

Lemma local_step_trans (w1 w2 w3 : world) :
  local_step w1 w2 -> local_step w2 w3 -> local_step w1 w3.
Proof.
  intros [l1 [H1 F1]] [l2 [H2 F2]]. exists (l1 ++ l2). split.
  - rewrite H2, H1. now rewrite app_assoc.
  - rewrite forallb_app, F1, F2. reflexivity.
Qed.

Lemma quiet_pure {A} (a : A) : quiet (pure a).
Proof. intros e w. apply local_step_refl. Qed.

Lemma quiet_bind {A B} (m : M A) (k : A -> M B) :
  quiet m -> (forall a, quiet (k a)) -> quiet (bind m k).
Proof.
  intros Hm Hk e w. unfold bind. specialize (Hm e w).
  destruct (m e w) as [a w1]. simpl in Hm.
  eapply local_step_trans; [exact Hm | apply Hk].
Qed.

Lemma quiet_ext (c : call) : local c = true -> quiet (ext c).
Proof.
  intros H e w. exists [c]. simpl. now rewrite H.
Qed.

Lemma quiet_get_errno : quiet get_errno.
Proof. intros e w. apply local_step_refl. Qed.

Lemma quiet_set_errno (v : Z) : quiet (set_errno v).
Proof. intros e w. exists []. simpl. now rewrite app_nil_r. Qed.

Lemma quiet_ask {A} (f : env -> A) : quiet (ask f).
Proof. intros e w. apply local_step_refl. Qed.

Lemma quiet_do_strtoul (p : abi) (s : string) : quiet (Libc.do_strtoul p s).
Proof.
  unfold Libc.do_strtoul. apply quiet_bind.
  - destruct (Libc.out_of_range _); [apply quiet_set_errno | apply quiet_pure].
  - intros _. apply quiet_pure.
Qed.

Lemma quiet_argp_error {A} (fmt : string) : quiet (@do_argp_error A fmt).
Proof.
  unfold do_argp_error. apply quiet_bind; [now apply quiet_ext | intros; apply quiet_pure].
Qed.

Lemma quiet_argp_usage {A} : quiet (@do_argp_usage A).
Proof.
  unfold do_argp_usage. apply quiet_bind; [now apply quiet_ext | intros; apply quiet_pure].
Qed.

Create HintDb quiet.
#[local] Hint Resolve quiet_pure quiet_get_errno quiet_set_errno quiet_ask
  quiet_do_strtoul quiet_argp_error quiet_argp_usage : quiet.

(** Break a computation down to its calls. *)
Ltac quiet_step :=
  match goal with
  | |- quiet (bind _ _) => apply quiet_bind; [ | intros ]
  | |- quiet (ext _) => apply quiet_ext; reflexivity
  | |- quiet (if ?b then _ else _) => destruct b
  | |- quiet (match ?x with _ => _ end) => destruct x
  | |- quiet _ => solve [auto with quiet]
  end.
Ltac quiet_tac := repeat quiet_step.

Lemma quiet_argp_finish {A} (f : parser A) (state : argp_state) (a : A) :
  (forall k arg st a, quiet (f k arg st a)) -> quiet (argp_finish f state a).
Proof.
  intros Hf. unfold argp_finish.
  apply quiet_bind.
  - destruct (arg_num state =? 0); [apply Hf | apply quiet_pure].
  - intros [err a1 | s]; [ | apply quiet_pure].
    destruct (negb (err =? 0) && negb (err =? ARGP_ERR_UNKNOWN)); [apply quiet_pure | ].
    apply quiet_bind; [apply Hf | ].
    intros [err2 a2 | s]; apply quiet_pure.
Qed.

Lemma quiet_argp_loop {A} (f : parser A) :
  (forall k arg st a, quiet (f k arg st a)) ->
  forall toks state a, quiet (argp_loop f toks state a).
Proof.
  intros Hf. induction toks as [ | t rest IH]; intros state a.
  - apply quiet_argp_finish, Hf.
  - destruct t as [c | c arg | arg]; cbn [argp_loop].
    + apply quiet_bind; [apply Hf | ].
      intros [err a1 | s]; [ | apply quiet_pure].
      destruct (err =? 0); [apply IH | ].
      destruct (err =? ARGP_ERR_UNKNOWN); quiet_tac.
    + apply quiet_bind; [apply Hf | ].
      intros [err a1 | s]; [ | apply quiet_pure].
      destruct (err =? 0); [apply IH | ].
      destruct (err =? ARGP_ERR_UNKNOWN); quiet_tac.
    + apply quiet_bind; [apply Hf | ].
      intros [err a1 | s]; [ | apply quiet_pure].
      destruct (err =? 0); [apply IH | ].
      destruct (err =? ARGP_ERR_UNKNOWN); [ | apply quiet_pure].
      apply quiet_bind; [apply Hf | ].
      intros [err2 a2 | s]; [ | apply quiet_pure].
      destruct (err2 =? 0); [apply quiet_argp_finish, Hf | ].
      destruct (err2 =? ARGP_ERR_UNKNOWN); quiet_tac.
Qed.

Lemma quiet_parse_subcommand {A} (f : parser A) (name : string) (a : A)
  (parent : string) (toks : list token) :
  (forall k arg st a, quiet (f k arg st a)) ->
  quiet (ArgHelper.parse_subcommand f name a parent toks).
Proof.
  intros Hf. unfold ArgHelper.parse_subcommand.
  apply quiet_bind; [now apply quiet_ext | intros buf].
  destruct (buf =? 0); [quiet_tac | ].
  apply quiet_bind; [apply quiet_argp_loop, Hf | ].
  intros [err a1 | s]; apply quiet_pure.
Qed.

Lemma quiet_parse_via p argi st args : quiet (ArgHelper.parse_via p argi st args).
Proof. unfold ArgHelper.parse_via. quiet_tac. Qed.

Lemma quiet_probe_parse_opt p k arg st a : quiet (Probe.parse_opt p k arg st a).
Proof. unfold Probe.parse_opt. quiet_tac. Qed.

Lemma quiet_parse_opt_ram p k arg st a : quiet (Read.parse_opt_ram p k arg st a).
Proof. unfold Read.parse_opt_ram. quiet_tac. Qed.

Lemma quiet_parse_opt_run p k arg st a : quiet (Coprocessor.parse_opt_run p k arg st a).
Proof. unfold Coprocessor.parse_opt_run, Coprocessor.parse_ulong.
  pose proof (quiet_parse_via p).
 quiet_tac. Qed.

Lemma u32_range z : 0 <= u32 z <= UINT32_MAX.
Proof. unfold u32, UINT32_MAX. pose proof (Z.mod_pos_bound z (2^32)). lia. Qed.

Lemma u32_le z : 0 <= z -> u32 z <= z.
Proof. intros. unfold u32. apply Z.mod_le; lia. Qed.

Lemma ulong_range p z : 0 <= ulong p z <= ULONG_MAX p.
Proof. unfold ulong, ULONG_MAX. destruct p; cbn [ULONG_BITS];
  [pose proof (Z.mod_pos_bound z (2^32)) | pose proof (Z.mod_pos_bound z (2^64))]; lia. Qed.

(** A region is accepted by the three tests of [cmd_coprocessor_run] only
    if it does not wrap and lies within DRAM. *)
Lemma run_checks_sound (p : abi) (base size ds dl : Z) :
  0 <= base <= ULONG_MAX p -> 0 <= size <= ULONG_MAX p ->
  match p with LP64 => base >? UINT32_MAX | ILP32 => false end = false ->
  (Z.land (ulong p (base + size)) UINT32_MAX <? base) = false ->
  (base <? ds) || (ulong p (base + size) >? u32 (ds + dl)) = false ->
  base + size <= UINT32_MAX /\ ds <= base /\ base + size <= u32 (ds + dl).
Proof.
  intros Hb Hs H1 H2 H3.
  apply orb_false_iff in H3 as [H3 H4].
  apply Z.ltb_ge in H3.
  assert (H5 : ulong p (base + size) <= u32 (ds + dl))
    by (rewrite Z.gtb_ltb in H4; apply Z.ltb_ge in H4; exact H4).
  clear H4.
  change UINT32_MAX with (Z.ones 32) in H2. rewrite Z.land_ones in H2 by lia.
  apply Z.ltb_ge in H2.
  pose proof (u32_range (ds + dl)) as Hd. 
  unfold ulong, ULONG_MAX, UINT32_MAX in *.
  destruct p; cbn [ULONG_BITS] in *.
  - rewrite Z.mod_mod in H2 by lia.
    assert (base + size < 2 ^ 32 \/ 2^32 <= base + size) as [Hlt | Hge] by lia.
    + rewrite Z.mod_small in H5, H2 by lia. lia.
    + exfalso. 
      assert ((base + size) mod 2 ^ 32 = base + size - 2 ^ 32).
      { symmetry. apply Z.mod_unique with (q := 1); lia. }
      lia.
  - rewrite Z.gtb_ltb in H1. apply Z.ltb_ge in H1.
    assert (base + size < 2 ^ 64 \/ 2^64 <= base + size) as [Hlt | Hge] by lia.
    + rewrite (Z.mod_small (base + size) (2^64)) in H5, H2 by lia. lia.
    + exfalso.
      assert (E : (base + size) mod 2 ^ 64 = base + size - 2 ^ 64).
      { symmetry. apply Z.mod_unique with (q := 1); lia. }
      rewrite E in H2. rewrite Z.mod_small in H2 by lia. lia.
Qed.


Lemma local_not_write (tr : list call) (c : call) :
  forallb local tr = true -> writes_target c = true -> ~ In c tr.
Proof.
  intros H Hc Hin. rewrite forallb_forall in H. apply H in Hin.
  destruct c; discriminate.
Qed.

Ltac exec_coproc_in H :=
  cbv beta iota zeta delta
      [bind pure ext sys ask set_errno get_errno do_perror record fst snd
       Coprocessor.any_nonzero
       Coprocessor.cleanup_host Coprocessor.cleanup_soc Coprocessor.cleanup_scu]
    in H;
  cbn [trace errno registry] in H.

Ltac exec_coproc :=
  cbv beta iota zeta delta
      [bind pure ext sys ask set_errno get_errno do_perror record fst snd
       Coprocessor.any_nonzero
       Coprocessor.cleanup_host Coprocessor.cleanup_soc Coprocessor.cleanup_scu];
  cbn [trace errno registry].

(** Take the next test of the command under execution in [H]. *)
Ltac next_test H E :=
  exec_coproc_in H;
  match type of H with
  | context [(if ?b then _ else _) _ _] => destruct b eqn:E
  end.

(** [H] says that the write [c] is among calls none of which writes. *)
Ltac not_in_trace H Hc Hloc :=
  exec_coproc_in H;
  repeat rewrite in_app_iff in H; cbn [In] in H;
  repeat match type of H with
         | _ \/ _ => destruct H as [H | H]
         end;
  solve [ contradiction
        | rewrite <- H in Hc; discriminate Hc
        | exfalso; exact (local_not_write _ _ Hloc Hc H) ].

Lemma run_parsed_write_guard (p : abi)
  (a : Coprocessor.cmd_copressor_run_args) (e : env) (w : world) (c : call) :
  0 <= Coprocessor.mem_base a <= ULONG_MAX p ->
  0 <= Coprocessor.mem_size a <= ULONG_MAX p ->
  forallb local (trace w) = true ->
  writes_target c = true ->
  In c (trace (snd (Coprocessor.cmd_coprocessor_run_parsed p a e w))) ->
  let d := region_u32 (dram e) in
  soc_generation e = Soc.ast_g6 /\
  Coprocessor.mem_base a + Coprocessor.mem_size a <= UINT32_MAX /\
  Soc.start d <= Coprocessor.mem_base a /\
  Coprocessor.mem_base a + Coprocessor.mem_size a
    <= Soc.start d + Soc.length d.
Proof.
  intros Hb Hs Hloc Hc H.
  unfold Coprocessor.cmd_coprocessor_run_parsed in H.
  next_test H E1; [not_in_trace H Hc Hloc | ].
  next_test H E2; [not_in_trace H Hc Hloc | ].
  next_test H E3; [not_in_trace H Hc Hloc | ].
  next_test H E4; [not_in_trace H Hc Hloc | ].
  next_test H E5; [not_in_trace H Hc Hloc | ].
  next_test H E6; [not_in_trace H Hc Hloc | ].
  next_test H T1; [not_in_trace H Hc Hloc | ].
  next_test H T2; [not_in_trace H Hc Hloc | ].
  next_test H T3; [not_in_trace H Hc Hloc | ].
  clear H. split.
  - destruct (soc_generation e); try discriminate; reflexivity.
  - unfold region_u32 in *. cbn [Soc.start Soc.length] in *.
    pose proof (run_checks_sound _ _ _ _ _ Hb Hs T1 T2 T3) as [H1 [H2 H3]].
    pose proof (u32_range (Soc.start (dram e))).
    pose proof (u32_range (Soc.length (dram e))).
    pose proof (u32_le (u32 (Soc.start (dram e)) + u32 (Soc.length (dram e)))).
    lia.
Qed.

(** A region that wraps makes the command fail. *)
Lemma run_parsed_wrap_fails (p : abi)
  (a : Coprocessor.cmd_copressor_run_args) (e : env) (w : world) :
  0 <= Coprocessor.mem_base a <= ULONG_MAX p ->
  0 <= Coprocessor.mem_size a <= ULONG_MAX p ->
  UINT32_MAX < Coprocessor.mem_base a + Coprocessor.mem_size a ->
  fst (Coprocessor.cmd_coprocessor_run_parsed p a e w) = Return EXIT_FAILURE.
Proof.
  intros Hb Hs Hwrap.
  unfold Coprocessor.cmd_coprocessor_run_parsed.
  do 6 (exec_coproc;
        match goal with
        | |- context [(if ?b then _ else _) _ _] =>
            destruct b; [exec_coproc; reflexivity | ]
        end).
  exec_coproc;
  match goal with
  | |- context [(if ?b then _ else _) _ _] =>
      destruct b eqn:T1; [exec_coproc; reflexivity | ]
  end.
  exec_coproc;
  match goal with
  | |- context [(if ?b then _ else _) _ _] =>
      destruct b eqn:T2; [exec_coproc; reflexivity | ]
  end.
  exec_coproc;
  match goal with
  | |- context [(if ?b then _ else _) _ _] =>
      destruct b eqn:T3; [exec_coproc; reflexivity | ]
  end.
  exfalso. unfold region_u32 in *. cbn [Soc.start Soc.length] in *.
  pose proof (run_checks_sound _ _ _ _ _ Hb Hs T1 T2 T3) as [H1 _]. lia.
Qed.

(** ** The values [strtoul] gives *)

Lemma digit_of_nonneg (c : ascii) (d : Z) : Libc.digit_of c = Some d -> 0 <= d.
Proof.
  unfold Libc.digit_of. intros H.
  repeat match type of H with
         | (if ?b then _ else _) = _ => destruct b eqn:?
         end; inversion H; lia.
Qed.

Lemma scan_digits_nonneg (base : Z) (s : string) :
  0 <= base -> forall acc n, 0 <= acc ->
  0 <= fst (fst (Libc.scan_digits base s acc n)).
Proof.
  intros Hbase. induction s as [ | c r IH]; intros acc n Hacc; cbn [Libc.scan_digits].
  - exact Hacc.
  - destruct (Libc.digit_of c) as [d | ] eqn:Hd; [ | exact Hacc].
    destruct (d <? base); [ | exact Hacc].
    apply IH. apply digit_of_nonneg in Hd. nia.
Qed.

Lemma scan_prefix_base (s : string) : 0 <= fst (Libc.scan_prefix s).
Proof.
  unfold Libc.scan_prefix.
  repeat match goal with
         | |- context [match ?x with _ => _ end] => destruct x
         end; cbn; lia.
Qed.

Lemma strtoul_range (p : abi) (s : string) :
  0 <= Libc.value (Libc.strtoul p s) <= ULONG_MAX p.
Proof.
  assert (Hmax : 0 <= ULONG_MAX p) by (destruct p; cbv; discriminate).
  unfold Libc.strtoul.
  destruct (Libc.scan_sign (Libc.skip_space s)) as [neg s1].
  pose proof (scan_prefix_base s1) as Hbase.
  destruct (Libc.scan_prefix s1) as [base s2]. cbn [fst] in Hbase.
  pose proof (scan_digits_nonneg base s2 Hbase 0 0 (Z.le_refl 0)) as Hv.
  destruct (Libc.scan_digits base s2 0 0) as [[v n] rest]. cbn [fst] in Hv.
  destruct n as [ | n]; cbn [Libc.value]; [lia | ].
  destruct (v >? ULONG_MAX p) eqn:Hgt; cbn [Libc.value]; [lia | ].
  rewrite Z.gtb_ltb in Hgt. apply Z.ltb_ge in Hgt.
  destruct neg; [apply ulong_range | lia].
Qed.

(** ** Invariants of the arguments structure through [argp_parse] *)

Section Invariant.

Context {A : Type} (P : A -> Prop) (f : parser A).

Hypothesis Hf : keeps P f.

Lemma argp_finish_invariant (st : argp_state) (a : A) (e : env) (w : world) :
  P a ->
  match fst (argp_finish f st a e w) with
  | Parsed _ a' => P a'
  | Exited _ => True
  end.
Proof.
  intros Ha. unfold argp_finish, bind.
  destruct (arg_num st =? 0).
  - pose proof (Hf ARGP_KEY_NO_ARGS None st a e w Ha) as H1.
    destruct (f ARGP_KEY_NO_ARGS None st a e w) as [[err a1 | s] w1];
      cbn [fst] in *; [ | exact I].
    destruct (negb (err =? 0) && negb (err =? ARGP_ERR_UNKNOWN)); [exact H1 | ].
    pose proof (Hf ARGP_KEY_END None st a1 e w1 H1) as H2.
    destruct (f ARGP_KEY_END None st a1 e w1) as [[err2 a2 | s] w2];
      cbn [fst] in *; [exact H2 | exact I].
  - cbn [pure]. cbn [negb andb Z.eqb].
    pose proof (Hf ARGP_KEY_END None st a e w Ha) as H2.
    destruct (f ARGP_KEY_END None st a e w) as [[err2 a2 | s] w2];
      cbn [fst] in *; [exact H2 | exact I].
Qed.

Lemma argp_loop_invariant (toks : list token) :
  forall (st : argp_state) (a : A) (e : env) (w : world),
  P a ->
  match fst (argp_loop f toks st a e w) with
  | Parsed _ a' => P a'
  | Exited _ => True
  end.
Proof.
  induction toks as [ | t rest IH]; intros st a e w Ha.
  - now apply argp_finish_invariant.
  - destruct t as [c | c arg | arg]; cbn [argp_loop]; unfold bind.
    + pose proof (Hf (KEY_OPT c) None (advance st (Z.of_nat (List.length (words (TFlag c))))) a e w Ha) as H1.
      destruct (f (KEY_OPT c) None _ a e w) as [[err a1 | s] w1];
        cbn [fst] in *; [ | exact I].
      destruct (err =? 0); [now apply IH | ].
      destruct (err =? ARGP_ERR_UNKNOWN); [exact I | exact H1].
    + pose proof (Hf (KEY_OPT c) (Some arg) (advance st (Z.of_nat (List.length (words (TOpt c arg))))) a e w Ha) as H1.
      destruct (f (KEY_OPT c) (Some arg) _ a e w) as [[err a1 | s] w1];
        cbn [fst] in *; [ | exact I].
      destruct (err =? 0); [now apply IH | ].
      destruct (err =? ARGP_ERR_UNKNOWN); [exact I | exact H1].
    + pose proof (Hf ARGP_KEY_ARG (Some arg) (advance st 1) a e w Ha) as H1.
      destruct (f ARGP_KEY_ARG (Some arg) _ a e w) as [[err a1 | s] w1];
        cbn [fst] in *; [ | exact I].
      destruct (err =? 0); [now apply IH | ].
      destruct (err =? ARGP_ERR_UNKNOWN); [ | exact H1].
      pose proof (Hf ARGP_KEY_ARGS None st a1 e w1 H1) as H2.
      destruct (f ARGP_KEY_ARGS None st a1 e w1) as [[err2 a2 | s] w2];
        cbn [fst] in *; [ | exact I].
      destruct (err2 =? 0); [now apply argp_finish_invariant | ].
      destruct (err2 =? ARGP_ERR_UNKNOWN); [exact I | exact H2].
Qed.

Lemma parse_subcommand_invariant (name : string) (a : A) (parent : string)
  (toks : list token) (e : env) (w : world) :
  P a ->
  match fst (ArgHelper.parse_subcommand f name a parent toks e w) with
  | ArgHelper.SubParsed a' _ => P a'
  | ArgHelper.SubExited _ => True
  end.
Proof.
  intros Ha. unfold ArgHelper.parse_subcommand, bind.
  cbn [ext]. destruct (_ =? 0); [exact I | ].
  unfold argp_parse.
  match goal with
  | |- context [argp_loop f toks ?st a e ?w1] =>
      pose proof (argp_loop_invariant toks st a e w1 Ha) as H;
      destruct (argp_loop f toks st a e w1) as [[err a1 | s] w2]
  end; cbn [fst] in *; [exact H | exact I].
Qed.

End Invariant.


Lemma parse_ulong_range (p : abi) (s f1 f2 : string) (e : env) (w : world) (v : Z) :
  fst (Coprocessor.parse_ulong p s f1 f2 e w) = inl v -> 0 <= v <= ULONG_MAX p.
Proof.
  unfold Coprocessor.parse_ulong, Libc.do_strtoul, bind.
  cbv beta iota zeta delta [set_errno get_errno pure fst snd].
  pose proof (strtoul_range p s).
  destruct (Libc.out_of_range (Libc.strtoul p s));
  cbv beta iota zeta delta [set_errno get_errno pure fst snd];
  repeat match goal with
         | |- context [if ?b then _ else _] => destruct b
         end; intros H1; inversion H1; subst; assumption.
Qed.

Lemma parse_opt_run_keeps (p : abi) :
  keeps (run_args_in_range p) (Coprocessor.parse_opt_run p).
Proof.
  intros k arg st a e w [Hb Hs].
  unfold Coprocessor.parse_opt_run.
  destruct (key_is_arg k && String.eqb (arg_text arg) "via").
  - unfold bind. destruct (ArgHelper.parse_via _ _ _ _ e w) as [r w1].
    destruct (negb _); [exact I | ]. cbn. now split.
  - destruct k; try (cbn; now split).
    + destruct (arg_num st) as [ | [q | q | ] | q]; try (cbn; now split); unfold bind;
      match goal with
      | |- context [Coprocessor.parse_ulong ?p ?s ?f1 ?f2 ?e ?w] =>
          pose proof (parse_ulong_range p s f1 f2 e w) as Hv;
          destruct (Coprocessor.parse_ulong p s f1 f2 e w) as [[v | fmt] w1]
      end; cbn [fst] in *; try exact I.
      * split; cbn; [now apply Hv | exact Hs].
      * destruct (negb _); [exact I | ]. split; cbn; [exact Hb | now apply Hv].
    + destruct (arg_num st <? 2); cbn; [exact I | now split].
Qed.

Lemma quiet_run_local {A} (m : M A) (e : env) :
  quiet m -> forallb local (trace (snd (run m e))) = true.
Proof.
  intros H. destruct (H e (world0 e)) as [evs [Ht Hl]].
  unfold run. rewrite Ht. exact Hl.
Qed.

(** ** devmem: which message a failed open gives *)

(** Claim C8.  When [devmem_init] fails the command exits with
    [EXIT_FAILURE]; the privilege hint is printed exactly when the code
    is [-EACCES] or [-EPERM] and the process is not root, the message of
    [perror] exactly otherwise, and the bus is not touched. *)
Theorem devmem_privilege_hint (parent : string) (toks : list token) (e : env)
  (arguments : unit) (devmem_cmd : ArgHelper.subcommand) (w1 : world) :
  run (ArgHelper.parse_subcommand Devmem.parse_opt "devmem" tt parent toks) e
    = (ArgHelper.SubParsed arguments devmem_cmd, w1) ->
  let rc := ret e (trace w1) devmem_init in
  let root := ret e (trace w1 ++ [devmem_init]) priv_am_root in
  let unprivileged := (rc = - EACCES \/ rc = - EPERM) /\ root = 0 in
  rc < 0 ->
  exists evs,
    trace_of (Devmem.cmd_devmem parent toks) e = trace w1 ++ evs /\
    result_of (Devmem.cmd_devmem parent toks) e = Exit EXIT_FAILURE /\
    (In priv_print_unprivileged evs <-> unprivileged) /\
    (In (perror "devmem_init" (- rc)) evs <-> ~ unprivileged) /\
    forallb (fun c => negb (bus_operation c)) evs = true.
Proof.
  intros Hparse rc root unprivileged Hrc.
  unfold trace_of, result_of, run, Devmem.cmd_devmem, bind in *.
  rewrite Hparse. cbn [ext pure fst snd].
  fold rc. apply Z.ltb_lt in Hrc as Hneg. rewrite Hneg.
  unfold unprivileged.
  destruct (rc =? - EACCES) eqn:Ha; destruct (rc =? - EPERM) eqn:Hp;
    cbn [orb andb ext pure fst snd record trace]; fold root;
    try (destruct (root =? 0) eqn:Hr);
    cbn [orb andb ext pure fst snd record trace set_errno do_perror bind
         get_errno errno];
    rewrite ?Z.eqb_eq, ?Z.eqb_neq in *;
    eexists; (split; [rewrite <- ?app_assoc; reflexivity | ]);
    (split; [reflexivity | ]); cbn [In app];
    (split; [ | split; [ | reflexivity]]);
    split; intros; try tauto;
    repeat match goal with
           | H : _ \/ _ |- _ => destruct H
           | H : _ /\ _ |- _ => destruct H
           | H : ~ _ |- _ => exfalso; apply H; tauto
           end; try discriminate; try tauto; try lia.
Qed.

Lemma devmem_privilege_hint_witness :
  let e := ast2600 (devmem_fails (- EACCES) false) [] in
  let line := [TArg "read"; TArg "0x1e6e2000"] in
  result_of (Devmem.cmd_devmem "culvert" line) e = Exit EXIT_FAILURE /\
  In priv_print_unprivileged (trace_of (Devmem.cmd_devmem "culvert" line) e).
Proof.
  cbv zeta.
  destruct (devmem_privilege_hint "culvert" [TArg "read"; TArg "0x1e6e2000"]
              (ast2600 (devmem_fails (- EACCES) false) []) tt
              {| ArgHelper.sub_name := "devmem"; ArgHelper.sub_argc := 3;
                 ArgHelper.sub_argv :=
                   ["culvert devmem"; "read"; "0x1e6e2000"] |}
              {| trace := [malloc 14]; errno := 0;
                 registry :=
                   bridge_drivers
                     (ast2600 (devmem_fails (- EACCES) false) []) |}
              eq_refl eq_refl)
    as [evs [Ht [Hr [Hh _]]]].
  split; [exact Hr | ].
  rewrite Ht. apply in_or_app. right. apply Hh.
  split; [left | ]; reflexivity.
Defined.

Lemma quiet_parse_opt_stop k arg st a : quiet (Coprocessor.parse_opt_stop k arg st a).
Proof. apply quiet_pure. Qed.

Lemma stop_scu_guard (parent : string) (toks : list token) (e : env) (reg val : Z) :
  In (scu_writel reg val)
     (trace_of (Coprocessor.cmd_coprocessor_stop parent toks) e) ->
  soc_generation e = Soc.ast_g6.
Proof.
  unfold trace_of, run, Coprocessor.cmd_coprocessor_stop. unfold bind at 1.
  pose proof (quiet_run_local
    (ArgHelper.parse_subcommand Coprocessor.parse_opt_stop "stop" tt parent toks) e
    (quiet_parse_subcommand _ _ _ _ _ quiet_parse_opt_stop)) as Hloc.
  unfold run in Hloc.
  destruct (ArgHelper.parse_subcommand _ _ _ _ _ e (world0 e)) as [[a sub | s] w1];
    cbn [snd] in Hloc; intros H.
  - assert (Hc : writes_target (scu_writel reg val) = true) by reflexivity.
    next_test H E1; [not_in_trace H Hc Hloc | ].
    next_test H E2; [not_in_trace H Hc Hloc | ].
    next_test H E3; [not_in_trace H Hc Hloc | ].
    next_test H E4; [not_in_trace H Hc Hloc | ].
    destruct (soc_generation e); try discriminate; reflexivity.
  - assert (Hc : writes_target (scu_writel reg val) = true) by reflexivity.
    not_in_trace H Hc Hloc.
Qed.

(** Claim C5.  If coprocessor run writes an SCU register then the chip
    is an AST2600 and the region given does not wrap 32 bits and lies
    within the probed DRAM; if coprocessor stop writes one then the chip
    is an AST2600. *)
Theorem coprocessor_scu_writes_guarded (p : abi) (parent : string)
  (toks : list token) (e : env) (reg val : Z) :
  (In (scu_writel reg val)
      (trace_of (Coprocessor.cmd_coprocessor_run p parent toks) e) ->
   soc_generation e = Soc.ast_g6 /\
   exists arguments run_cmd w1,
     run (ArgHelper.parse_subcommand (Coprocessor.parse_opt_run p) "run"
            Coprocessor.cmd_copressor_run_args_zero parent toks) e
       = (ArgHelper.SubParsed arguments run_cmd, w1) /\
     let mem_base := Coprocessor.mem_base arguments in
     let mem_size := Coprocessor.mem_size arguments in
     let dram := region_u32 (dram e) in
     mem_base + mem_size <= UINT32_MAX /\
     Soc.start dram <= mem_base /\
     mem_base + mem_size <= Soc.start dram + Soc.length dram) /\
  (In (scu_writel reg val)
      (trace_of (Coprocessor.cmd_coprocessor_stop parent toks) e) ->
   soc_generation e = Soc.ast_g6).
Proof.
  split; [ | apply stop_scu_guard].
  unfold trace_of, run, Coprocessor.cmd_coprocessor_run. unfold bind at 1.
  pose proof (quiet_run_local
    (ArgHelper.parse_subcommand (Coprocessor.parse_opt_run p) "run"
       Coprocessor.cmd_copressor_run_args_zero parent toks) e
    (quiet_parse_subcommand _ _ _ _ _ (quiet_parse_opt_run p))) as Hloc.
  pose proof (parse_subcommand_invariant (run_args_in_range p) _
    (parse_opt_run_keeps p) "run" Coprocessor.cmd_copressor_run_args_zero
    parent toks e (world0 e)) as Hrange.
  unfold run in Hloc.
  destruct (ArgHelper.parse_subcommand _ _ _ _ _ e (world0 e)) as [[a sub | s] w1];
    cbn [fst snd] in *; intros H.
  - assert (Hr : run_args_in_range p a).
    { apply Hrange. split; cbn; pose proof (ulong_range p 0); lia. }
    destruct Hr as [Hb Hs].
    destruct (run_parsed_write_guard p a e w1 (scu_writel reg val) Hb Hs Hloc
                eq_refl H) as [Hg Hc].
    split; [exact Hg | ]. exists a, sub, w1. split; [reflexivity | exact Hc].
  - assert (Hc : writes_target (scu_writel reg val) = true) by reflexivity.
    not_in_trace H Hc Hloc.
Qed.

Lemma coprocessor_scu_writes_guarded_witness :
  soc_generation (ast2600 healthy []) = Soc.ast_g6 /\
  exists arguments run_cmd w1,
     run (ArgHelper.parse_subcommand (Coprocessor.parse_opt_run LP64) "run"
            Coprocessor.cmd_copressor_run_args_zero "culvert coprocessor" run_line) (ast2600 healthy [])
       = (ArgHelper.SubParsed arguments run_cmd, w1) /\
     let mem_base := Coprocessor.mem_base arguments in
     let mem_size := Coprocessor.mem_size arguments in
     let dram := region_u32 (dram (ast2600 healthy [])) in
     mem_base + mem_size <= UINT32_MAX /\
     Soc.start dram <= mem_base /\
     mem_base + mem_size <= Soc.start dram + Soc.length dram.
Proof.
  apply (proj1 (coprocessor_scu_writes_guarded LP64 "culvert coprocessor"
                  run_line (ast2600 healthy []) Coprocessor.SCU_COPROC_CTRL 0)).
  vm_compute. tauto.
Defined.

(** ** The count of connection fields *)

Lemma parse_via_code (p : abi) (argi : Z) (st : argp_state)
  (args : Connection.connection_args) (e : env) (w : world) :
  let n := argc st - argi - 1 in
  fst (fst (ArgHelper.parse_via p argi st args e w))
    = if (n =? 1) || (n =? 5) then 0 else - EINVAL.
Proof.
  unfold ArgHelper.parse_via. cbv zeta.
  destruct (argi >=? argc st) eqn:Hge.
  - rewrite Z.geb_leb in Hge. apply Z.leb_le in Hge.
    destruct (argc st - argi - 1 =? 1) eqn:H1; [apply Z.eqb_eq in H1; lia | ].
    destruct (argc st - argi - 1 =? 5) eqn:H5; [apply Z.eqb_eq in H5; lia | ].
    reflexivity.
  - unfold bind. cbn [ext pure fst snd].
    destruct (argc st - argi - 1 =? 1) eqn:H1; cbn [negb andb orb]; [reflexivity | ].
    destruct (argc st - argi - 1 =? 5) eqn:H5; cbn [negb andb orb]; reflexivity.
Qed.

Lemma count_words_cons (t : token) (toks : list token) :
  count_words (t :: toks) = Z.of_nat (List.length (words t)) + count_words toks.
Proof.
  unfold count_words. cbn [flat_map]. rewrite length_app. lia.
Qed.

Lemma count_args_cons (t : token) (toks : list token) :
  count_args (t :: toks) = (if is_arg t then 1 else 0) + count_args toks.
Proof.
  unfold count_args. cbn [filter]. destruct (is_arg t); cbn [List.length]; lia.
Qed.

(** On a plain argument [parse_opt_run] returns 0 or ends the process. *)
Lemma parse_opt_run_arg (p : abi) (arg : option string) (st : argp_state)
  (a : Coprocessor.cmd_copressor_run_args) (e : env) (w : world) :
  match fst (Coprocessor.parse_opt_run p ARGP_KEY_ARG arg st a e w) with
  | PReturn err _ => err = 0
  | PExit s => s = EX_USAGE
  end.
Proof.
  unfold Coprocessor.parse_opt_run.
  destruct (key_is_arg ARGP_KEY_ARG && String.eqb (arg_text arg) "via").
  - unfold bind. destruct (ArgHelper.parse_via _ _ _ _ e w) as [r w1].
    destruct (negb _); cbn; trivial.
  - destruct (arg_num st) as [ | [q | q | ] | q]; try (cbn; reflexivity); unfold bind;
      destruct (Coprocessor.parse_ulong _ _ _ _ e w) as [[v | fmt] w1];
      cbn; trivial.
    destruct (negb _); cbn; trivial.
Qed.

Lemma run_loop_via (p : abi) (post : list token) :
  ~ (count_words post = 1 \/ count_words post = 5) ->
  forall (pre : list token) (st : argp_state)
    (a : Coprocessor.cmd_copressor_run_args) (e : env) (w : world),
  argc st - next st = count_words (pre ++ TArg "via" :: post) ->
  fst (argp_loop (Coprocessor.parse_opt_run p) (pre ++ TArg "via" :: post)
         st a e w) = Exited EX_USAGE.
Proof.
  intros Hbad. induction pre as [ | t pre IH]; intros st a e w Hst.
  - cbn [app] in *. rewrite count_words_cons in Hst.
    cbn [words List.length] in Hst. change (Z.of_nat 1) with 1 in Hst.
    cbn [argp_loop]. unfold bind at 1.
    unfold Coprocessor.parse_opt_run at 1. cbn [key_is_arg arg_text andb].
    change (String.eqb "via" "via") with true. cbv iota.
    unfold bind at 1.
    pose proof (parse_via_code p (next (advance st 1) - 1) (advance st 1)
                  (Coprocessor.connection a) e w) as Hc.
    destruct (ArgHelper.parse_via _ _ _ _ e w) as [r w1]. cbn [fst] in *.
    cbn [advance argc next] in Hc.
    replace (argc st - (next st + 1 - 1) - 1) with (count_words post) in Hc by lia.
    destruct (count_words post =? 1) eqn:H1; [apply Z.eqb_eq in H1; tauto | ].
    destruct (count_words post =? 5) eqn:H5; [apply Z.eqb_eq in H5; tauto | ].
    cbn [orb] in Hc. rewrite Hc. reflexivity.
  - cbn [app]. rewrite <- app_comm_cons in Hst. rewrite count_words_cons in Hst.
    destruct t as [c | c arg | arg]; cbn [argp_loop]; unfold bind at 1.
    + reflexivity.
    + reflexivity.
    + pose proof (parse_opt_run_arg p (Some arg) (advance st 1) a e w) as Harg.
      destruct (Coprocessor.parse_opt_run p ARGP_KEY_ARG _ _ a e w)
        as [[err a1 | s] w1]; cbn [fst] in *; [ | now subst s].
      subst err. cbn [Z.eqb]. apply IH.
      cbn [words List.length] in Hst. change (Z.of_nat 1) with 1 in Hst.
      cbn [count_arg advance argc next]. lia.
Qed.

(** On an option [Probe.parse_opt] leaves the count of arguments alone. *)
Lemma probe_parse_opt_option (p : abi) (c : ascii) (arg : option string)
  (st : argp_state) (a : Probe.cmd_probe_args) (e : env) (w : world) :
  match fst (Probe.parse_opt p (KEY_OPT c) arg st a e w) with
  | PReturn err a' =>
      Probe.key_arg_count a' = Probe.key_arg_count a /\
      (err = 0 \/ err = ARGP_ERR_UNKNOWN)
  | PExit s => s = EX_USAGE
  end.
Proof.
  unfold Probe.parse_opt.
  destruct c as [[] [] [] [] [] [] [] []]; cbn; auto;
    destruct (negb _ && negb _); cbn; auto.
Qed.

Lemma probe_parse_opt_arg (p : abi) (arg : option string)
  (st : argp_state) (a : Probe.cmd_probe_args) (e : env) (w : world) :
  exists a',
    Probe.parse_opt p ARGP_KEY_ARG arg st a e w = (PReturn 0 a', w) /\
    Probe.key_arg_count a' = Probe.key_arg_count a + 1.
Proof.
  unfold Probe.parse_opt. cbn [pure].
  repeat match goal with
         | |- context [match ?x with _ => _ end] => destruct x
         end; eexists; split; reflexivity.
Qed.

Lemma probe_finish_count (p : abi) (st : argp_state)
  (a : Probe.cmd_probe_args) (e : env) (w : world) :
  Probe.key_arg_count a > 1 -> Probe.key_arg_count a <> 5 ->
  fst (argp_finish (Probe.parse_opt p) st a e w) = Exited EX_USAGE.
Proof.
  intros H1 H5. unfold argp_finish.
  assert (Hend :
    fst ((r2 <- Probe.parse_opt p ARGP_KEY_END None st a ;;
          match r2 with
          | PExit s => pure (Exited s)
          | PReturn err2 a2 =>
            pure (Parsed (if err2 =? ARGP_ERR_UNKNOWN then 0 else err2) a2)
          end) e w) = Exited EX_USAGE).
  { unfold bind, Probe.parse_opt.
    assert (Hgt : (Probe.key_arg_count a >? 1) = true)
      by (rewrite Z.gtb_ltb; apply Z.ltb_lt; lia).
    assert (Hne : (Probe.key_arg_count a =? 5) = false) by (apply Z.eqb_neq; lia).
    rewrite Hgt, Hne. reflexivity. }
  destruct (arg_num st =? 0); unfold bind at 1; cbn; exact Hend.
Qed.

Lemma probe_loop_count (p : abi) (toks : list token) :
  forall (st : argp_state) (a : Probe.cmd_probe_args) (e : env) (w : world),
  Probe.key_arg_count a + count_args toks > 1 ->
  Probe.key_arg_count a + count_args toks <> 5 ->
  fst (argp_loop (Probe.parse_opt p) toks st a e w) = Exited EX_USAGE.
Proof.
  induction toks as [ | t toks IH]; intros st a e w H1 H5.
  - cbn [argp_loop]. unfold count_args in *. cbn in H1, H5.
    apply probe_finish_count; lia.
  - rewrite count_args_cons in H1, H5.
    destruct t as [c | c arg | arg]; cbn [argp_loop is_arg] in *; unfold bind at 1.
    + pose proof (probe_parse_opt_option p c None
                    (advance st (Z.of_nat (List.length (words (TFlag c))))) a e w) as Ho.
      destruct (Probe.parse_opt p (KEY_OPT c) None _ a e w) as [[err a1 | s] w1];
        cbn [fst] in *; [ | now subst s].
      destruct Ho as [Hk [He | He]]; subst err; cbn; [ | reflexivity].
      apply IH; lia.
    + pose proof (probe_parse_opt_option p c (Some arg)
                    (advance st (Z.of_nat (List.length (words (TOpt c arg))))) a e w) as Ho.
      destruct (Probe.parse_opt p (KEY_OPT c) (Some arg) _ a e w) as [[err a1 | s] w1];
        cbn [fst] in *; [ | now subst s].
      destruct Ho as [Hk [He | He]]; subst err; cbn; [ | reflexivity].
      apply IH; lia.
    + destruct (probe_parse_opt_arg p (Some arg) (advance st 1) a e w)
        as [a1 [Heq Hk]].
      rewrite Heq. cbn [Z.eqb]. apply IH; lia.
Qed.

(** When the parser ends the process the command has made local calls
    only. *)
Lemma parse_subcommand_exits {A} (f : parser A) (name : string) (a : A)
  (parent : string) (toks : list token) (e : env) :
  (forall e w,
     fst (argp_loop f toks
            (initial_state (parent ++ " " ++ name)%string toks) a e w)
       = Exited EX_USAGE) ->
  exists s,
    fst (run (ArgHelper.parse_subcommand f name a parent toks) e)
      = ArgHelper.SubExited s /\ s <> EXIT_SUCCESS.
Proof.
  intros H. unfold run, ArgHelper.parse_subcommand, argp_parse, bind.
  cbn [ext]. destruct (_ =? 0); [cbn; eexists; split; [reflexivity | discriminate] | ].
  match goal with
  | |- context [argp_loop f toks ?st a e ?w] =>
      pose proof (H e w) as Hs;
      destruct (argp_loop f toks st a e w) as [r w1]
  end.
  cbn [fst] in Hs. subst r. cbn. eexists; split; [reflexivity | discriminate].
Qed.

Lemma initial_state_words (argv0 : string) (toks : list token) :
  argc (initial_state argv0 toks) - next (initial_state argv0 toks)
    = count_words toks.
Proof.
  unfold initial_state, count_words. cbn [argc next List.length]. lia.
Qed.

(** A command whose parser ends the process ends with the parser's
    status, local calls made only. *)
Lemma command_exits {A} (parse : M (ArgHelper.sub_result A))
  (body : A -> ArgHelper.subcommand -> M outcome) (e : env) (s : Z) :
  quiet parse ->
  fst (run parse e) = ArgHelper.SubExited s ->
  let r := run (r <- parse ;;
                match r with
                | ArgHelper.SubExited s => pure (Exit s)
                | ArgHelper.SubParsed a sub => body a sub
                end) e in
  fst r = Exit s /\ forallb local (trace (snd r)) = true.
Proof.
  intros Hq Hs. pose proof (quiet_run_local parse e Hq) as Hloc.
  unfold run, bind in *.
  destruct (parse e (world0 e)) as [r w1]. cbn [fst snd] in *. subst r.
  split; [reflexivity | exact Hloc].
Qed.

(** Claim C1.  [parse_via] returns 0 exactly when the words after [via]
    number 1 or 5, and [-EINVAL] otherwise.  A [coprocessor run] line whose
    [via] is followed by any other number of words, and a [probe] line
    with 2, 3, 4 or more than 5 plain arguments, end the process with a
    status that is not success, having made local calls only: nothing was
    negotiated and nothing read or written.  The lines are those argp
    hands to the parser: up to [via] for coprocessor run, which has no
    option, and throughout for probe, with its flag [-l] and its options
    [-i] and [-r], there is no [-?], [-V] or [--] and no plain argument
    that begins with [-]. *)
Theorem connection_field_count (p : abi) :
  (forall argi st args e w,
     let n := argc st - argi - 1 in
     let rc := fst (fst (ArgHelper.parse_via p argi st args e w)) in
     (rc = 0 <-> n = 1 \/ n = 5) /\ (rc = 0 \/ rc = - EINVAL)) /\
  (forall parent pre post e,
     forallb (getopt_token [] []) pre = true ->
     ~ (count_words post = 1 \/ count_words post = 5) ->
     let r := run (Coprocessor.cmd_coprocessor_run p parent
                     (pre ++ TArg "via" :: post)) e in
     (exists s, fst r = Exit s /\ s <> EXIT_SUCCESS) /\
     forallb local (trace (snd r)) = true) /\
  (forall parent toks e,
     forallb (getopt_token ["l"%char] ["i"%char; "r"%char]) toks = true ->
     count_args toks > 1 -> count_args toks <> 5 ->
     let r := run (Probe.cmd_probe p parent toks) e in
     (exists s, fst r = Exit s /\ s <> EXIT_SUCCESS) /\
     forallb local (trace (snd r)) = true).
Proof.
  split; [ | split].
  - intros argi st args e w n rc. subst rc.
    rewrite (parse_via_code p argi st args e w). fold n.
    destruct ((n =? 1) || (n =? 5)) eqn:Hc.
    + apply orb_true_iff in Hc. rewrite !Z.eqb_eq in Hc.
      split; [split; [intros _; exact Hc | reflexivity] | left; reflexivity].
    + apply orb_false_iff in Hc. rewrite !Z.eqb_neq in Hc.
      split; [split; [discriminate | tauto] | right; reflexivity].
  - intros parent pre post e _ Hbad.
    destruct (parse_subcommand_exits (Coprocessor.parse_opt_run p) "run"
      Coprocessor.cmd_copressor_run_args_zero parent
      (pre ++ TArg "via" :: post) e) as [s [Hs Hne]].
    { intros e' w. apply run_loop_via; [exact Hbad | ].
      apply initial_state_words. }
    destruct (command_exits _
      (fun a _ => Coprocessor.cmd_coprocessor_run_parsed p a) e s
      (quiet_parse_subcommand _ _ _ _ _ (quiet_parse_opt_run p)) Hs)
      as [Hr Hloc].
    split; [exists s; split; [exact Hr | exact Hne] | exact Hloc].
  - intros parent toks e _ H1 H5.
    destruct (parse_subcommand_exits (Probe.parse_opt p) "probe"
      Probe.cmd_probe_args_zero parent toks e) as [s [Hs Hne]].
    { intros e' w. apply probe_loop_count;
        cbn [Probe.cmd_probe_args_zero Probe.key_arg_count]; lia. }
    assert (H : let r := run (Probe.cmd_probe p parent toks) e in
                fst r = Exit s /\ forallb local (trace (snd r)) = true).
    { unfold Probe.cmd_probe. apply command_exits; [ | exact Hs].
      apply quiet_parse_subcommand, quiet_probe_parse_opt. }
    destruct H as [Hr Hloc].
    split; [exists s; split; [exact Hr | exact Hne] | exact Hloc].
Qed.

Lemma connection_field_count_witness :
  let r := run (Probe.cmd_probe LP64 "culvert"
                  [TArg "debug-uart"; TArg "192.0.2.1"; TArg "23"]) (ast2600 healthy []) in
  (exists s, fst r = Exit s /\ s <> EXIT_SUCCESS) /\
  forallb local (trace (snd r)) = true.
Proof.
  apply (proj2 (proj2 (connection_field_count LP64))); vm_compute; congruence.
Defined.

(** Claim C4, as the code has it.  With five words after [via],
    [parse_via] returns 0 and takes the fifth as the password, whatever
    it holds; with 2, 3, 4 or more than 5 words (a password left out, or
    an interface followed by extra words) it returns [-EINVAL], leaves the
    connection untouched and has made local calls only. *)
Theorem via_clause_validation (p : abi) (argi : Z) (st : argp_state)
  (args : Connection.connection_args) (e : env) (w : world) :
  let n := argc st - argi - 1 in
  let r := ArgHelper.parse_via p argi st args e w in
  (n = 5 ->
   fst (fst r) = 0 /\
   Connection.password (snd (fst r)) = argv_at st (argi + 5)) /\
  (1 < n -> n <> 5 -> fst r = (- EINVAL, args) /\ local_step w (snd r)).
Proof.
  intros n r. subst r. split.
  - intros H5. unfold ArgHelper.parse_via. fold n.
    assert (Hge : (argi >=? argc st) = false)
      by (rewrite Z.geb_leb; apply Z.leb_gt; lia).
    rewrite Hge. rewrite H5. cbn. split; reflexivity.
  - intros H1 H5. split.
    + unfold ArgHelper.parse_via. fold n.
      assert (Hge : (argi >=? argc st) = false)
        by (rewrite Z.geb_leb; apply Z.leb_gt; lia).
      rewrite Hge.
      assert (E1 : (n =? 1) = false) by (apply Z.eqb_neq; lia).
      assert (E5 : (n =? 5) = false) by (apply Z.eqb_neq; lia).
      unfold bind. cbn [ext]. rewrite E1, E5. reflexivity.
    + apply quiet_parse_via.
Qed.

Lemma via_clause_validation_witness :
  let st := initial_state "culvert coprocessor run"
              [TArg "0x80000000"; TArg "0x2000000"; TArg "via";
               TArg "debug-uart"; TArg "192.0.2.1"; TArg "23"; TArg "root"] in
  let r := ArgHelper.parse_via LP64 3 st Connection.connection_args_zero
             (ast2600 healthy []) (world0 (ast2600 healthy [])) in
  fst r = (- EINVAL, Connection.connection_args_zero) /\
  local_step (world0 (ast2600 healthy [])) (snd r).
Proof.
  apply (proj2 (via_clause_validation LP64 3
    (initial_state "culvert coprocessor run"
              [TArg "0x80000000"; TArg "0x2000000"; TArg "via";
               TArg "debug-uart"; TArg "192.0.2.1"; TArg "23"; TArg "root"])
    Connection.connection_args_zero (ast2600 healthy [])
    (world0 (ast2600 healthy [])))); vm_compute; [reflexivity | discriminate].
Defined.

(** Claim C4 does not hold of five fields with an empty password:
    [parse_via] returns 0 with that password, and the command goes on to
    negotiate with it. *)
Lemma blank_password_accepted :
  let e := ast2600 healthy [] in
  let st := initial_state "culvert coprocessor run" blank_password_line in
  fst (ArgHelper.parse_via LP64 3 st Connection.connection_args_zero e
         (world0 e))
    = (0, blank_password_connection) /\
  In (host_init_new blank_password_connection)
     (trace_of (Coprocessor.cmd_coprocessor_run LP64 "culvert coprocessor"
                  blank_password_line) e) /\
  result_of (Coprocessor.cmd_coprocessor_run LP64 "culvert coprocessor"
               blank_password_line) e = Return EXIT_SUCCESS.
Proof.
  vm_compute. repeat split. tauto.
Qed.

(** ** Answers of an environment, as tests see them *)

Lemma passes_ltb (e : env) (c : call) :
  passes e c -> forall h, (ret e h c <? 0) = false.
Proof. intros H h. apply Z.ltb_ge, H. Qed.

Lemma found_eqb (e : env) (c : call) :
  found e c -> forall h, (ret e h c =? 0) = false.
Proof. intros H h. apply Z.eqb_neq, H. Qed.

Lemma succeeds_eqb (e : env) (c : call) :
  succeeds e c -> forall h, (ret e h c =? 0) = true.
Proof. intros H h. apply Z.eqb_eq, H. Qed.

Lemma local_not_siphon (tr : list call) (c : call) :
  forallb local tr = true -> is_siphon c = true -> ~ In c tr.
Proof.
  intros H Hc Hin. rewrite forallb_forall in H. apply H in Hin.
  destruct c; discriminate.
Qed.

(** Symbolic execution of a command in the goal. *)
Ltac exec_read :=
  cbv beta iota zeta delta
      [bind pure ext sys ask set_errno get_errno do_perror record fst snd
       Read.cleanup_host Read.cleanup_soc Read.cleanup_chip];
  cbn [trace errno registry].

Ltac exec_read_in H :=
  cbv beta iota zeta delta
      [bind pure ext sys ask set_errno get_errno do_perror record fst snd
       Read.cleanup_host Read.cleanup_soc Read.cleanup_chip] in H;
  cbn [trace errno registry] in H.

Lemma ram_explicit_test (a : Read.cmd_read_ram_args) :
  Read.start a = 0 \/ Read.length a = 0 ->
  negb (Read.start a =? 0) && negb (Read.length a =? 0) = false.
Proof. intros [H | H]; rewrite H; cbn; [reflexivity | apply andb_false_r]. Qed.

(** With a zero start or length the command runs as with neither given. *)
Lemma ram_parsed_zero (p : abi) (a : Read.cmd_read_ram_args)
  (sub : ArgHelper.subcommand) :
  Read.start a = 0 \/ Read.length a = 0 ->
  Read.cmd_read_ram_parsed p a sub
    = Read.cmd_read_ram_parsed p
        {| Read.start := 0; Read.length := 0;
           Read.key_arg_count := Read.key_arg_count a |} sub.
Proof.
  intros H. unfold Read.cmd_read_ram_parsed.
  cbn [Read.start Read.length Read.key_arg_count].
  rewrite (ram_explicit_test a H). reflexivity.
Qed.

(** Every dump of such a run is of DRAM less the video memory. *)
Lemma ram_parsed_zero_dump (p : abi) (a : Read.cmd_read_ram_args)
  (sub : ArgHelper.subcommand) (e : env) (w : world) (phys len fd : Z) :
  Read.start a = 0 \/ Read.length a = 0 ->
  forallb local (trace w) = true ->
  In (soc_siphon_out phys len fd)
     (trace (snd (Read.cmd_read_ram_parsed p a sub e w))) ->
  phys = Soc.start (region_u32 (dram e)) /\
  len = u32 (Soc.length (region_u32 (dram e))
             - Soc.length (region_u32 (vram e))) /\
  fd = STDOUT_FILENO.
Proof.
  intros Hz Hloc H. unfold Read.cmd_read_ram_parsed in H.
  rewrite (ram_explicit_test a Hz) in H.
  repeat (exec_read_in H;
          match type of H with
          | context [(if ?b then _ else _) _ _] => destruct b
          end);
    exec_read_in H;
    repeat rewrite in_app_iff in H; cbn [In] in H;
    repeat match type of H with
           | _ \/ _ => destruct H as [H | H]
           end;
    try discriminate H; try contradiction;
    try (exfalso; exact (local_not_siphon _ (soc_siphon_out phys len fd) Hloc eq_refl H));
    inversion H; subst; repeat split.
Qed.

Lemma ram_parsed_default (p : abi) (a : Read.cmd_read_ram_args)
  (sub : ArgHelper.subcommand) (e : env) (w : world) :
  Read.start a = 0 \/ Read.length a = 0 ->
  ram_reachable e (Read.key_arg_count a)
    (host_argv sub (Read.key_arg_count a)) ->
  succeeds e sdmc_get_vram ->
  In (soc_siphon_out (Soc.start (region_u32 (dram e)))
        (u32 (Soc.length (region_u32 (dram e))
              - Soc.length (region_u32 (vram e)))) STDOUT_FILENO)
     (trace (snd (Read.cmd_read_ram_parsed p a sub e w))).
Proof.
  intros Hz (H1 & H2 & H3 & H4 & H5) H6. unfold Read.cmd_read_ram_parsed.
  rewrite (ram_explicit_test a Hz).
  repeat (exec_read;
          first [ rewrite (passes_ltb _ _ H1) | rewrite (found_eqb _ _ H2)
                | rewrite (passes_ltb _ _ H3) | rewrite (found_eqb _ _ H4)
                | rewrite (succeeds_eqb _ _ H5) | rewrite (succeeds_eqb _ _ H6) ];
          cbn [negb]).
  exec_read.
  match goal with
  | |- context [(if ?b then _ else _) _ _] => destruct b
  end; exec_read; repeat rewrite in_app_iff; cbn [In]; tauto.
Qed.

Lemma ulong_small (p : abi) (z : Z) : 0 <= z <= UINT32_MAX -> ulong p z = z.
Proof.
  intros H. unfold ulong. apply Z.mod_small. unfold UINT32_MAX in H.
  destruct p; cbn [ULONG_BITS]; lia.
Qed.

Lemma region_u32_range (r : Soc.soc_region) :
  0 <= Soc.start (region_u32 r) <= UINT32_MAX /\
  0 <= Soc.length (region_u32 r) <= UINT32_MAX.
Proof. unfold region_u32. cbn [Soc.start Soc.length]. split; apply u32_range. Qed.

Lemma ulong_max_abi (p : abi) :
  UINT32_MAX <= ULONG_MAX p /\
  (p = ILP32 -> ULONG_MAX p = UINT32_MAX).
Proof. destruct p; cbv; split; congruence. Qed.

Lemma do_strtoul_value (p : abi) (s : string) (e : env) (w : world) :
  fst (Libc.do_strtoul p s e w) = Libc.strtoul p s.
Proof.
  unfold Libc.do_strtoul, bind.
  destruct (Libc.out_of_range (Libc.strtoul p s)); reflexivity.
Qed.

(** Whatever its parser returns, read ram's start and length are values
    of [unsigned long]. *)
Lemma parse_opt_ram_keeps (p : abi) :
  keeps (ram_args_in_range p) (Read.parse_opt_ram p).
Proof.
  intros k arg st a e w [Hs Hl]. unfold Read.parse_opt_ram.
  pose proof (strtoul_range p (arg_text arg)) as Hv.
  pose proof (do_strtoul_value p (arg_text arg) e w) as Hd.
  destruct k as [c | | | | ];
    [ destruct c as [[] [] [] [] [] [] [] []] | .. ];
    cbv beta iota; unfold bind;
    try (destruct (Libc.do_strtoul p (arg_text arg) e w) as [r w1];
         cbn [fst] in Hd; subst r);
    cbv beta iota zeta delta [get_errno pure ext fst snd do_argp_error bind];
    cbn [Read.start Read.length Read.key_arg_count];
    repeat match goal with
           | |- context [if ?b then _ else _] => destruct b
           end;
    try exact I; split; cbn [Read.start Read.length]; assumption.
Qed.

(** The test of the explicit branch, in plain integers. *)
Lemma ram_reject_test (p : abi) (start length : Z) (d : Soc.soc_region) :
  0 <= start -> 0 <= length ->
  0 <= Soc.start d -> 0 <= Soc.length d ->
  (start + length <= ULONG_MAX p ->
   (start <? Soc.start d)
   || (ulong p (start + length) >? u32 (Soc.start d + Soc.length d)) = false
   -> within start length d) /\
  (Soc.start d + Soc.length d <= UINT32_MAX -> within start length d ->
   (start <? Soc.start d)
   || (ulong p (start + length) >? u32 (Soc.start d + Soc.length d)) = false).
Proof.
  intros Hs Hl Hds Hdl.
  assert (Hsmall : start + length <= ULONG_MAX p ->
                   ulong p (start + length) = start + length).
  { intros H. unfold ulong. apply Z.mod_small. unfold ULONG_MAX in H. lia. }
  unfold within. split.
  - intros Hsum H. rewrite (Hsmall Hsum) in H.
    apply orb_false_iff in H as [H1 H2]. apply Z.ltb_ge in H1.
    rewrite Z.gtb_ltb in H2. apply Z.ltb_ge in H2.
    pose proof (u32_le (Soc.start d + Soc.length d)). lia.
  - intros Hd [H1 H2]. rewrite Hsmall
      by (destruct (ulong_max_abi p) as [Hm _]; lia).
    apply orb_false_iff. split; [apply Z.ltb_ge; lia | ].
    rewrite Z.gtb_ltb. apply Z.ltb_ge.
    unfold u32. rewrite Z.mod_small; [lia | unfold UINT32_MAX in Hd; lia].
Qed.

Ltac to_arith :=
  repeat match goal with
         | H : (_ <? _) = true |- _ => apply Z.ltb_lt in H
         | H : (_ <? _) = false |- _ => apply Z.ltb_ge in H
         | H : (_ =? _) = true |- _ => apply Z.eqb_eq in H
         | H : (_ =? _) = false |- _ => apply Z.eqb_neq in H
         | H : negb _ = true |- _ => apply negb_true_iff in H
         | H : negb _ = false |- _ => apply negb_false_iff in H
         end.

Lemma ram_parsed_rejects (p : abi) (a : Read.cmd_read_ram_args)
  (sub : ArgHelper.subcommand) (e : env) (w : world) :
  ram_args_in_range p a ->
  Read.start a <> 0 -> Read.length a <> 0 ->
  Read.start a + Read.length a <= ULONG_MAX p ->
  ~ within (Read.start a) (Read.length a) (region_u32 (dram e)) ->
  forallb local (trace w) = true ->
  let r := Read.cmd_read_ram_parsed p a sub e w in
  (forall phys len fd, ~ In (soc_siphon_out phys len fd) (trace (snd r))) /\
  (exists rc, fst r = Return rc /\ rc <> 0) /\
  (ram_reachable e (Read.key_arg_count a)
     (host_argv sub (Read.key_arg_count a)) ->
   fst r = Return (- EINVAL)).
Proof.
  intros [[Hs0 _] [Hl0 _]] Hs Hl Hsum Hout Hloc r. subst r.
  unfold Read.cmd_read_ram_parsed.
  assert (T1 : negb (Read.start a =? 0) && negb (Read.length a =? 0) = true).
  { apply andb_true_iff. split; apply negb_true_iff, Z.eqb_neq; assumption. }
  destruct (region_u32_range (dram e)) as [[Hd1 _] [Hd2 _]].
  assert (T2 : (Read.start a <? Soc.start (region_u32 (dram e)))
     || (ulong p (Read.start a + Read.length a)
         >? u32 (Soc.start (region_u32 (dram e))
                 + Soc.length (region_u32 (dram e)))) = true).
  { apply not_false_is_true. intros H. apply Hout.
    apply (proj1 (ram_reject_test p (Read.start a) (Read.length a)
                    (region_u32 (dram e)) Hs0 Hl0 Hd1 Hd2) Hsum H). }
  rewrite T1.
  repeat (exec_read; rewrite ?T2; exec_read;
          match goal with
          | |- context [(if ?b then _ else _) _ _] => destruct b eqn:?
          end);
    exec_read; rewrite ?T2; exec_read;
    (split;
     [ intros phys len fd H; repeat rewrite in_app_iff in H; cbn [In] in H;
       repeat match type of H with
              | _ \/ _ => destruct H as [H | H]
              end;
       solve [ discriminate H | contradiction
             | exact (local_not_siphon _ (soc_siphon_out phys len fd)
                        Hloc eq_refl H) ]
     | split;
       [ eexists; split; [reflexivity | to_arith; unfold ENODEV, EINVAL; lia]
       | intros (H1 & H2 & H3 & H4 & H5);
         try reflexivity;
         repeat match goal with
                | H : context [ret _ _ (host_init _ _)] |- _ =>
                    rewrite (passes_ltb _ _ H1) in H; discriminate H
                | H : context [ret _ _ host_get_ahb] |- _ =>
                    rewrite (found_eqb _ _ H2) in H; discriminate H
                | H : context [ret _ _ soc_probe] |- _ =>
                    rewrite (passes_ltb _ _ H3) in H; discriminate H
                | H : context [ret _ _ sdmc_get] |- _ =>
                    rewrite (found_eqb _ _ H4) in H; discriminate H
                | H : context [ret _ _ sdmc_get_dram] |- _ =>
                    rewrite (succeeds_eqb _ _ H5) in H; discriminate H
                end ] ]).
Qed.

Lemma ram_parsed_accepts (p : abi) (a : Read.cmd_read_ram_args)
  (sub : ArgHelper.subcommand) (e : env) (w : world) :
  ram_args_in_range p a ->
  Read.start a <> 0 -> Read.length a <> 0 ->
  within (Read.start a) (Read.length a) (region_u32 (dram e)) ->
  Soc.start (region_u32 (dram e)) + Soc.length (region_u32 (dram e))
    <= UINT32_MAX ->
  ram_reachable e (Read.key_arg_count a)
    (host_argv sub (Read.key_arg_count a)) ->
  In (soc_siphon_out (Read.start a) (Read.length a) STDOUT_FILENO)
     (trace (snd (Read.cmd_read_ram_parsed p a sub e w))).
Proof.
  intros [[Hs0 _] [Hl0 _]] Hs Hl Hin Hd (H1 & H2 & H3 & H4 & H5).
  unfold Read.cmd_read_ram_parsed.
  assert (T1 : negb (Read.start a =? 0) && negb (Read.length a =? 0) = true).
  { apply andb_true_iff. split; apply negb_true_iff, Z.eqb_neq; assumption. }
  destruct (region_u32_range (dram e)) as [[Hd1 _] [Hd2 _]].
  rewrite T1.
  pose proof (proj2 (ram_reject_test p (Read.start a) (Read.length a)
                       (region_u32 (dram e)) Hs0 Hl0 Hd1 Hd2) Hd Hin) as T2.
  repeat (exec_read;
          first [ rewrite (passes_ltb _ _ H1) | rewrite (found_eqb _ _ H2)
                | rewrite (passes_ltb _ _ H3) | rewrite (found_eqb _ _ H4)
                | rewrite (succeeds_eqb _ _ H5) | rewrite T2 ];
          cbn [negb]).
  exec_read.
  match goal with
  | |- context [(if ?b then _ else _) _ _] => destruct b
  end; exec_read; repeat rewrite in_app_iff; cbn [In]; tauto.
Qed.

(** A command whose parser returns runs its body from where the parser
    left off, only local calls made so far. *)
Lemma command_parsed {A} (parse : M (ArgHelper.sub_result A))
  (body : A -> ArgHelper.subcommand -> M outcome) (e : env)
  (a : A) (sub : ArgHelper.subcommand) (w1 : world) :
  quiet parse ->
  run parse e = (ArgHelper.SubParsed a sub, w1) ->
  run (r <- parse ;;
       match r with
       | ArgHelper.SubExited s => pure (Exit s)
       | ArgHelper.SubParsed a sub => body a sub
       end) e = body a sub e w1 /\
  forallb local (trace w1) = true.
Proof.
  intros Hq Hp. pose proof (quiet_run_local parse e Hq) as Hloc.
  unfold run, bind in *. rewrite Hp in *. split; [reflexivity | exact Hloc].
Qed.

Lemma read_ram_parsed (p : abi) (parent : string) (toks : list token)
  (e : env) (a : Read.cmd_read_ram_args) (sub : ArgHelper.subcommand)
  (w1 : world) :
  run (ArgHelper.parse_subcommand (Read.parse_opt_ram p) "ram"
         Read.cmd_read_ram_args_zero parent toks) e
    = (ArgHelper.SubParsed a sub, w1) ->
  (run (Read.cmd_read_ram p parent toks) e
     = Read.cmd_read_ram_parsed p a sub e w1 /\
   forallb local (trace w1) = true) /\
  ram_args_in_range p a.
Proof.
  intros Hp. split.
  - unfold Read.cmd_read_ram. apply command_parsed; [ | exact Hp].
    apply quiet_parse_subcommand, quiet_parse_opt_ram.
  - pose proof (parse_subcommand_invariant (ram_args_in_range p)
                  (Read.parse_opt_ram p) (parse_opt_ram_keeps p) "ram"
                  Read.cmd_read_ram_args_zero parent toks e (world0 e)) as H.
    unfold run in Hp. rewrite Hp in H. apply H.
    pose proof (ulong_max_abi p) as [Hm _]. unfold UINT32_MAX in Hm.
    split; cbn; lia.
Qed.

(** Claim C9.  When read ram is left with a start or a length of zero it
    runs exactly as with neither given: every dump it makes is of
    [dram.start] for [dram.length - vram.length] bytes to standard
    output, and it makes that dump whenever the steps before it
    succeed. *)
Theorem read_ram_zero_falls_back (p : abi) (parent : string)
  (toks : list token) (e : env) (a : Read.cmd_read_ram_args)
  (sub : ArgHelper.subcommand) (w1 : world) :
  run (ArgHelper.parse_subcommand (Read.parse_opt_ram p) "ram"
         Read.cmd_read_ram_args_zero parent toks) e
    = (ArgHelper.SubParsed a sub, w1) ->
  Read.start a = 0 \/ Read.length a = 0 ->
  let r := run (Read.cmd_read_ram p parent toks) e in
  let dram := region_u32 (dram e) in
  let vram := region_u32 (vram e) in
  let length := u32 (Soc.length dram - Soc.length vram) in
  r = Read.cmd_read_ram_parsed p
        {| Read.start := 0; Read.length := 0;
           Read.key_arg_count := Read.key_arg_count a |} sub e w1 /\
  (forall phys len fd,
     In (soc_siphon_out phys len fd) (trace (snd r)) ->
     phys = Soc.start dram /\ len = length /\ fd = STDOUT_FILENO) /\
  (ram_reachable e (Read.key_arg_count a)
     (host_argv sub (Read.key_arg_count a)) ->
   succeeds e sdmc_get_vram ->
   In (soc_siphon_out (Soc.start dram) length STDOUT_FILENO) (trace (snd r))).
Proof.
  intros Hp Hz. cbv zeta.
  destruct (read_ram_parsed p parent toks e a sub w1 Hp) as [[Hr Hloc] Ha].
  rewrite Hr. split; [ | split].
  - now rewrite (ram_parsed_zero p a sub Hz).
  - intros phys len fd H.
    exact (ram_parsed_zero_dump p a sub e w1 phys len fd Hz Hloc H).
  - intros Hreach Hv. now apply ram_parsed_default.
Qed.

Lemma healthy_ram_reachable (input : list read_result) (k : Z)
  (argv : list string) :
  ram_reachable (ast2600 healthy input) k argv.
Proof. repeat split; intros h; cbn; lia. Qed.

Lemma read_ram_zero_falls_back_witness :
  In (soc_siphon_out 0x80000000 0x3E000000 STDOUT_FILENO)
     (trace_of (Read.cmd_read_ram LP64 "culvert read" ram_zero_start_line)
        (ast2600 healthy [])).
Proof.
  refine (proj2 (proj2 (read_ram_zero_falls_back LP64 "culvert read"
    ram_zero_start_line (ast2600 healthy [])
    {| Read.start := 0; Read.length := 0x1000; Read.key_arg_count := 0 |}
    _ _ _ _)) _ _).
  - vm_compute. reflexivity.
  - left. reflexivity.
  - apply healthy_ram_reachable.
  - intros h. reflexivity.
Defined.

(** Claim C2, as the code has it.  With start and length both zero, and
    the steps before it succeeding, read ram dumps [dram.start] for
    [dram.length - vram.length].  With both nonzero: if their sum does
    not overflow [unsigned long] and the range is not within DRAM, no
    transfer is made, the command returns a failure and, when the steps
    up to the DRAM lookup succeed, that failure is [-EINVAL]; if the
    range is within DRAM, and DRAM's end fits 32 bits, the range given
    is dumped. *)
Theorem read_ram_range (p : abi) (parent : string) (toks : list token)
  (e : env) (a : Read.cmd_read_ram_args) (sub : ArgHelper.subcommand)
  (w1 : world) :
  run (ArgHelper.parse_subcommand (Read.parse_opt_ram p) "ram"
         Read.cmd_read_ram_args_zero parent toks) e
    = (ArgHelper.SubParsed a sub, w1) ->
  let r := run (Read.cmd_read_ram p parent toks) e in
  let dram := region_u32 (dram e) in
  let vram := region_u32 (vram e) in
  let reachable :=
    ram_reachable e (Read.key_arg_count a)
      (host_argv sub (Read.key_arg_count a)) in
  (Read.start a = 0 -> Read.length a = 0 ->
   reachable -> succeeds e sdmc_get_vram ->
   In (soc_siphon_out (Soc.start dram)
         (u32 (Soc.length dram - Soc.length vram)) STDOUT_FILENO)
      (trace (snd r))) /\
  (Read.start a <> 0 -> Read.length a <> 0 ->
   (Read.start a + Read.length a <= ULONG_MAX p ->
    ~ within (Read.start a) (Read.length a) dram ->
    (forall phys len fd, ~ In (soc_siphon_out phys len fd) (trace (snd r))) /\
    (exists rc, fst r = Return rc /\ rc <> 0) /\
    (reachable -> fst r = Return (- EINVAL))) /\
   (within (Read.start a) (Read.length a) dram ->
    Soc.start dram + Soc.length dram <= UINT32_MAX ->
    reachable ->
    In (soc_siphon_out (Read.start a) (Read.length a) STDOUT_FILENO)
       (trace (snd r)))).
Proof.
  intros Hp. cbv zeta.
  destruct (read_ram_parsed p parent toks e a sub w1 Hp) as [[Hr Hloc] Ha].
  rewrite Hr. split.
  - intros Hs Hl Hreach Hv. apply ram_parsed_default; auto.
  - intros Hs Hl. split.
    + intros Hsum Hout. now apply ram_parsed_rejects.
    + intros Hin Hd Hreach. now apply ram_parsed_accepts.
Qed.

Lemma read_ram_range_witness :
  result_of (Read.cmd_read_ram LP64 "culvert read" ram_outside_line)
    (ast2600 healthy []) = Return (- EINVAL).
Proof.
  refine (proj2 (proj2 (proj1 (proj2 (read_ram_range LP64 "culvert read"
    ram_outside_line (ast2600 healthy [])
    {| Read.start := 0x70000000; Read.length := 0x1000;
       Read.key_arg_count := 0 |} _ _ _) _ _) _ _)) _).
  - vm_compute. reflexivity.
  - discriminate.
  - discriminate.
  - vm_compute. discriminate.
  - unfold within. cbn. lia.
  - apply healthy_ram_reachable.
Defined.

(** Claim C2 does not hold of an explicit pair that starts at 0: it lies
    outside DRAM, yet the command returns 0 and dumps the default
    range. *)
Lemma read_ram_zero_start_not_rejected :
  let e := ast2600 healthy [] in
  let r := run (Read.cmd_read_ram LP64 "culvert read" ram_zero_start_line) e in
  ~ within 0 0x1000 (region_u32 (dram e)) /\
  fst r = Return 0 /\
  In (soc_siphon_out 0x80000000 0x3E000000 STDOUT_FILENO) (trace (snd r)).
Proof.
  cbv zeta. split; [ | split].
  - unfold within. cbn. lia.
  - vm_compute. reflexivity.
  - vm_compute. tauto.
Qed.

(** ** What holds of the arguments when [argp_parse] returns 0 *)

Section Success.

Context {A : Type} (P Q : A -> Prop) (f : parser A).

Hypothesis Hkeep :
  forall k arg st a e w err a',
    P a -> fst (f k arg st a e w) = PReturn err a' -> goes err -> P a'.

Hypothesis Hend :
  forall st a e w err a',
    P a -> fst (f ARGP_KEY_END None st a e w) = PReturn err a' -> goes err ->
    Q a'.

Lemma argp_finish_success (st : argp_state) (a : A) (e : env) (w : world)
  (a' : A) :
  P a -> fst (argp_finish f st a e w) = Parsed 0 a' -> Q a'.
Proof.
  intros Ha. unfold argp_finish, bind.
  assert (Hfin : forall a1 w1, P a1 ->
    fst (let (r2, w2) := f ARGP_KEY_END None st a1 e w1 in
         match r2 with
         | PReturn err2 a2 =>
             pure (Parsed (if err2 =? ARGP_ERR_UNKNOWN then 0 else err2) a2)
         | PExit s => pure (Exited s)
         end e w2) = Parsed 0 a' -> Q a').
  { intros a1 w1 Ha1.
    pose proof (Hend st a1 e w1) as He.
    destruct (f ARGP_KEY_END None st a1 e w1) as [[err2 a2 | s] w2];
      cbn [fst pure]; [ | discriminate].
    destruct (err2 =? ARGP_ERR_UNKNOWN) eqn:Hu; intros H; inversion H; subst.
    - apply Z.eqb_eq in Hu. eapply (He err2 a'); [exact Ha1 | reflexivity | now right].
    - eapply (He 0 a'); [exact Ha1 | reflexivity | now left]. }
  destruct (arg_num st =? 0).
  - pose proof (Hkeep ARGP_KEY_NO_ARGS None st a e w) as Hk.
    destruct (f ARGP_KEY_NO_ARGS None st a e w) as [[err a1 | s] w1];
      cbn [fst pure]; [ | discriminate].
    destruct (err =? 0) eqn:E0; cbn [negb andb].
    + apply Z.eqb_eq in E0. apply Hfin. eapply Hk; [exact Ha | reflexivity | now left].
    + destruct (err =? ARGP_ERR_UNKNOWN) eqn:Eu; cbn [negb].
      * apply Z.eqb_eq in Eu. apply Hfin. eapply Hk; [exact Ha | reflexivity | now right].
      * cbn [pure fst]. intros H. inversion H. subst. apply Z.eqb_neq in E0. lia.
  - cbn [pure Z.eqb negb andb]. apply Hfin. exact Ha.
Qed.

Lemma argp_loop_success (toks : list token) :
  forall (st : argp_state) (a : A) (e : env) (w : world) (a' : A),
  P a -> fst (argp_loop f toks st a e w) = Parsed 0 a' -> Q a'.
Proof.
  induction toks as [ | t rest IH]; intros st a e w a' Ha.
  - now apply argp_finish_success.
  - destruct t as [c | c arg | arg]; cbn [argp_loop]; unfold bind.
    + pose proof (Hkeep (KEY_OPT c) None
        (advance st (Z.of_nat (List.length (words (TFlag c))))) a e w) as Hk.
      destruct (f (KEY_OPT c) None _ a e w) as [[err a1 | s] w1];
        cbn [fst pure]; [ | discriminate].
      destruct (err =? 0) eqn:E0.
      * apply IH. eapply Hk; [exact Ha | reflexivity | left; now apply Z.eqb_eq].
      * destruct (err =? ARGP_ERR_UNKNOWN); cbn [ext pure fst]; [discriminate | ].
        intros H. inversion H. subst. discriminate.
    + pose proof (Hkeep (KEY_OPT c) (Some arg)
        (advance st (Z.of_nat (List.length (words (TOpt c arg))))) a e w) as Hk.
      destruct (f (KEY_OPT c) (Some arg) _ a e w) as [[err a1 | s] w1];
        cbn [fst pure]; [ | discriminate].
      destruct (err =? 0) eqn:E0.
      * apply IH. eapply Hk; [exact Ha | reflexivity | left; now apply Z.eqb_eq].
      * destruct (err =? ARGP_ERR_UNKNOWN); cbn [ext pure fst]; [discriminate | ].
        intros H. inversion H. subst. discriminate.
    + pose proof (Hkeep ARGP_KEY_ARG (Some arg) (advance st 1) a e w) as Hk.
      destruct (f ARGP_KEY_ARG (Some arg) _ a e w) as [[err a1 | s] w1];
        cbn [fst pure]; [ | discriminate].
      destruct (err =? 0) eqn:E0.
      * apply IH. eapply Hk; [exact Ha | reflexivity | left; now apply Z.eqb_eq].
      * destruct (err =? ARGP_ERR_UNKNOWN) eqn:Eu.
        -- assert (Ha1 : P a1)
             by (eapply Hk; [exact Ha | reflexivity | right; now apply Z.eqb_eq]).
           pose proof (Hkeep ARGP_KEY_ARGS None st a1 e w1) as Hk2.
           destruct (f ARGP_KEY_ARGS None st a1 e w1) as [[err2 a2 | s] w2];
             cbn [fst pure]; [ | discriminate].
           destruct (err2 =? 0) eqn:E2.
           ++ apply argp_finish_success.
              eapply Hk2; [exact Ha1 | reflexivity | left; now apply Z.eqb_eq].
           ++ destruct (err2 =? ARGP_ERR_UNKNOWN); cbn [ext pure fst];
                [discriminate | ].
              intros H. inversion H. subst. discriminate.
        -- cbn [pure fst]. intros H. inversion H. subst. discriminate.
Qed.

End Success.

(** ** The range test of read ram's option parser *)

Lemma not_goes_key_error : ~ goes ARGP_KEY_ERROR.
Proof. intros [H | H]; discriminate H. Qed.

Lemma parse_opt_ram_keeps_u32 (p : abi) k arg st a e w err a' :
  ram_args_u32 a ->
  fst (Read.parse_opt_ram p k arg st a e w) = PReturn err a' -> goes err ->
  ram_args_u32 a'.
Proof.
  intros [Hs Hl] H Hg. unfold Read.parse_opt_ram in H.
  pose proof (strtoul_range p (arg_text arg)) as Hv.
  pose proof (do_strtoul_value p (arg_text arg) e w) as Hd.
  assert (Hmax : p = ILP32 -> ULONG_MAX p = UINT32_MAX)
    by (intros ->; reflexivity).
  destruct k as [c | | | | ];
    [ destruct c as [[] [] [] [] [] [] [] []] | .. ];
    cbv beta iota in H; unfold bind in H;
    try (destruct (Libc.do_strtoul p (arg_text arg) e w) as [r w1];
         cbn [fst] in Hd; subst r);
    cbv beta iota zeta delta [get_errno pure ext fst snd do_argp_error bind] in H;
    cbn [Read.start Read.length Read.key_arg_count] in H;
    repeat match type of H with
           | context [if ?b then _ else _] => destruct b eqn:?
           end;
    inversion H; subst;
    try (exfalso; exact (not_goes_key_error Hg));
    try (split; assumption);
    split; cbn [Read.start Read.length]; try assumption;
    destruct p; try rewrite Z.gtb_ltb in *; to_arith;
    try (specialize (Hmax eq_refl)); lia.
Qed.

Lemma parse_opt_ram_end (p : abi) st a e w err a' :
  ram_args_u32 a ->
  fst (Read.parse_opt_ram p ARGP_KEY_END None st a e w) = PReturn err a' ->
  goes err ->
  0 <= Read.start a' /\ 0 <= Read.length a' /\
  Read.start a' + Read.length a' <= UINT32_MAX.
Proof.
  intros [Hs Hl] H _. unfold Read.parse_opt_ram in H.
  rewrite (ulong_small p) in H by lia.
  destruct (UINT32_MAX - Read.length a <? Read.start a) eqn:T;
    cbn in H; inversion H; subst. to_arith. lia.
Qed.

(** When [argp_parse] returns 0 to read ram the range does not wrap. *)
Lemma read_ram_parse_no_wrap (p : abi) (argv0 : string) (toks : list token)
  (e : env) (w w1 : world) (a : Read.cmd_read_ram_args) :
  argp_parse (Read.parse_opt_ram p) argv0 toks Read.cmd_read_ram_args_zero e w
    = (Parsed 0 a, w1) ->
  0 <= Read.start a /\ 0 <= Read.length a /\
  Read.start a + Read.length a <= UINT32_MAX.
Proof.
  intros H. unfold argp_parse in H.
  apply (argp_loop_success ram_args_u32 _ (Read.parse_opt_ram p)
           (parse_opt_ram_keeps_u32 p) (parse_opt_ram_end p) toks
           (initial_state argv0 toks) Read.cmd_read_ram_args_zero e w a).
  - split; cbn; unfold UINT32_MAX; lia.
  - now rewrite H.
Qed.

(** The test itself: a range that wraps ends the process. *)
Lemma parse_opt_ram_wrap (p : abi) (st : argp_state)
  (a : Read.cmd_read_ram_args) (e : env) (w : world) :
  ulong p (UINT32_MAX - Read.length a) < Read.start a ->
  Read.parse_opt_ram p ARGP_KEY_END None st a e w
    = (PExit EX_USAGE,
       record (argp_error
                 "RAM region start address + length exceeds address space") w).
Proof.
  intros H. apply Z.ltb_lt in H. unfold Read.parse_opt_ram. rewrite H.
  reflexivity.
Qed.

Lemma coprocessor_run_parsed (p : abi) (parent : string) (toks : list token)
  (e : env) (a : Coprocessor.cmd_copressor_run_args)
  (sub : ArgHelper.subcommand) (w1 : world) :
  run (ArgHelper.parse_subcommand (Coprocessor.parse_opt_run p) "run"
         Coprocessor.cmd_copressor_run_args_zero parent toks) e
    = (ArgHelper.SubParsed a sub, w1) ->
  run (Coprocessor.cmd_coprocessor_run p parent toks) e
    = Coprocessor.cmd_coprocessor_run_parsed p a e w1 /\
  forallb local (trace w1) = true /\
  run_args_in_range p a.
Proof.
  intros Hp.
  destruct (command_parsed _
    (fun a _ => Coprocessor.cmd_coprocessor_run_parsed p a) e a sub w1
    (quiet_parse_subcommand _ _ _ _ _ (quiet_parse_opt_run p)) Hp)
    as [Hr Hloc].
  split; [exact Hr | split; [exact Hloc | ]].
  pose proof (parse_subcommand_invariant (run_args_in_range p) _
    (parse_opt_run_keeps p) "run" Coprocessor.cmd_copressor_run_args_zero
    parent toks e (world0 e)) as Hrange.
  unfold run in Hp. rewrite Hp in Hrange. apply Hrange.
  split; cbn; pose proof (ulong_range p 0); lia.
Qed.

(** Claim C6, as the code has it.  Read ram's option parser ends the
    process at [ARGP_KEY_END] when [UINT32_MAX - length < start]; whenever
    [argp_parse] returns 0 the pair does not wrap; and when the parser
    ends the process the command has made local calls only.  Coprocessor
    run, given a region that wraps, returns [EXIT_FAILURE] without
    writing an SCU register or transferring anything. *)
Theorem region_wrap_rejected (p : abi) (parent : string) (toks : list token)
  (e : env) :
  (* read ram: the test of the option parser *)
  (forall st a w,
     ulong p (UINT32_MAX - Read.length a) < Read.start a ->
     Read.parse_opt_ram p ARGP_KEY_END None st a e w
       = (PExit EX_USAGE,
          record (argp_error
            "RAM region start address + length exceeds address space") w)) /\
  (forall argv0 w a w1,
     argp_parse (Read.parse_opt_ram p) argv0 toks
       Read.cmd_read_ram_args_zero e w = (Parsed 0 a, w1) ->
     0 <= Read.start a /\ 0 <= Read.length a /\
     Read.start a + Read.length a <= UINT32_MAX) /\
  (forall s,
     fst (run (ArgHelper.parse_subcommand (Read.parse_opt_ram p) "ram"
                 Read.cmd_read_ram_args_zero parent toks) e)
       = ArgHelper.SubExited s ->
     let r := run (Read.cmd_read_ram p parent toks) e in
     fst r = Exit s /\ forallb local (trace (snd r)) = true) /\
  (* coprocessor run: the test of the command *)
  (forall a sub w1,
     run (ArgHelper.parse_subcommand (Coprocessor.parse_opt_run p) "run"
            Coprocessor.cmd_copressor_run_args_zero parent toks) e
       = (ArgHelper.SubParsed a sub, w1) ->
     UINT32_MAX < Coprocessor.mem_base a + Coprocessor.mem_size a ->
     let r := run (Coprocessor.cmd_coprocessor_run p parent toks) e in
     fst r = Return EXIT_FAILURE /\
     forall c, In c (trace (snd r)) -> writes_target c = false).
Proof.
  split; [ | split; [ | split]].
  - intros st a w H. now apply parse_opt_ram_wrap.
  - intros argv0 w a w1 H. exact (read_ram_parse_no_wrap p argv0 toks e w w1 a H).
  - intros s Hs. unfold Read.cmd_read_ram. apply command_exits; [ | exact Hs].
    apply quiet_parse_subcommand, quiet_parse_opt_ram.
  - intros a sub w1 Hp Hwrap.
    destruct (coprocessor_run_parsed p parent toks e a sub w1 Hp)
      as [Hr [Hloc [Hb Hs]]].
    cbv zeta. rewrite Hr. split.
    + now apply run_parsed_wrap_fails.
    + intros c Hin. destruct (writes_target c) eqn:Hc; [ | reflexivity].
      exfalso.
      destruct (run_parsed_write_guard p a e w1 c Hb Hs Hloc Hc Hin)
        as [_ [Hno _]]. lia.
Qed.

Lemma region_wrap_rejected_witness :
  let r := run (Coprocessor.cmd_coprocessor_run LP64 "culvert coprocessor"
                  run_wrap_line) (ast2600 healthy []) in
  fst r = Return EXIT_FAILURE /\
  forall c, In c (trace (snd r)) -> writes_target c = false.
Proof.
  refine (proj2 (proj2 (proj2 (region_wrap_rejected LP64 "culvert coprocessor"
    run_wrap_line (ast2600 healthy [])))) 
    {| Coprocessor.mem_base := 0xff000000; Coprocessor.mem_size := 0x2000000;
       Coprocessor.connection := Connection.connection_args_zero |} _ _ _ _).
  - vm_compute. reflexivity.
  - vm_compute. reflexivity.
Defined.

(** Claim C6 does not hold of coprocessor run: it turns a wrapping region
    down only after the bridge is opened and the chip and its DRAM are
    probed. *)
Lemma coprocessor_wrap_rejected_after_probe :
  let r := run (Coprocessor.cmd_coprocessor_run LP64 "culvert coprocessor"
                  run_wrap_line) (ast2600 healthy []) in
  UINT32_MAX - 0x2000000 < 0xff000000 /\
  fst r = Return EXIT_FAILURE /\
  trace (snd r)
    = [ malloc 23; host_init_new Connection.connection_args_zero;
        host_get_ahb; soc_probe; sdmc_get; sdmc_get_dram;
        loge "Invalid RAM region provided for coprocessor";
        soc_destroy; host_destroy ] /\
  existsb bus_operation (trace (snd r)) = true.
Proof.
  vm_compute. repeat split.
Qed.

(** ** The registry *)

Lemma disable_absent (name : string) (reg : list bridge_driver) :
  Registry.present name reg = false -> Registry.disable name reg = None.
Proof.
  induction reg as [ | d rest IH]; cbn; [reflexivity | ].
  destruct (String.eqb (bd_name d) name); cbn; [discriminate | ].
  intros H. now rewrite (IH H).
Qed.

Lemma disable_present (name : string) (reg : list bridge_driver) :
  Registry.present name reg = true ->
  exists reg',
    Registry.disable name reg = Some reg' /\
    forall n, Registry.present n reg' = Registry.present n reg.
Proof.
  unfold Registry.present.
  induction reg as [ | d rest IH]; cbn [existsb Registry.disable];
    [discriminate | ].
  destruct (String.eqb (bd_name d) name) eqn:E; cbn [orb].
  - intros _. eexists. split; [reflexivity | ]. intros n. reflexivity.
  - intros H. destruct (IH H) as [reg' [Hd Hp]]. rewrite Hd.
    eexists. split; [reflexivity | ]. intros n. cbn [existsb].
    now rewrite Hp.
Qed.

(** ** Options before an unknown bridge name *)

Section Skip.

Variable fn : string -> argp_state -> M outcome.

Lemma parse_opt_skip_unknown (name : string) (st : argp_state) (e : env)
  (w : world) :
  Registry.disable name (registry w) = None ->
  Culvert.parse_opt fn (KEY_OPT "s") (Some name) st tt e w
    = (PExit EXIT_FAILURE,
       record (fprintf_stderr unknown_bridge_message name)
         (record (disable_bridge_driver name) w)).
Proof.
  intros H. unfold Culvert.parse_opt, bind, Registry.do_disable_bridge_driver.
  cbn [arg_text]. rewrite H. reflexivity.
Qed.

Lemma parse_opt_skip_known (name : string) (st : argp_state) (e : env)
  (w : world) (reg : list bridge_driver) :
  Registry.disable name (registry w) = Some reg ->
  Culvert.parse_opt fn (KEY_OPT "s") (Some name) st tt e w
    = (PReturn 0 tt,
       {| trace := trace w ++ [disable_bridge_driver name];
          errno := errno w; registry := reg |}).
Proof.
  intros H. unfold Culvert.parse_opt, bind, Registry.do_disable_bridge_driver.
  cbn [arg_text]. rewrite H. reflexivity.
Qed.

End Skip.

Section SkipLoop.

Variables fn fn' : string -> argp_state -> M outcome.
Variable name : string.
Variable post : list token.
Variable reg0 : list bridge_driver.
Hypothesis Hname : Registry.present name reg0 = false.

Lemma main_loop_skip (e : env) (pre : list token) :
  forall (st : argp_state) (w : world),
  forallb (goes_on reg0) pre = true ->
  (forall n, Registry.present n (registry w) = Registry.present n reg0) ->
  forallb local (trace w) = true ->
  exists evs w',
    argp_loop (Culvert.parse_opt fn) (pre ++ TOpt "s" name :: post) st tt e w
      = (Exited EXIT_FAILURE, w') /\
    trace w' = evs ++ [fprintf_stderr unknown_bridge_message name] /\
    forallb local (trace w') = true.
Proof.
  induction pre as [ | t pre IH]; intros st w Hpre Hreg Hloc.
  - cbn [app argp_loop]. unfold bind.
    rewrite parse_opt_skip_unknown
      by (apply disable_absent; rewrite Hreg; exact Hname).
    cbn [pure]. eexists. eexists. split; [reflexivity | ].
    cbn [record trace]. split.
    + reflexivity.
    + rewrite !forallb_app, Hloc. reflexivity.
  - cbn [forallb] in Hpre. apply andb_true_iff in Hpre as [Ht Hpre].
    destruct t as [c | c n | arg]; cbn [goes_on] in Ht; [ | | discriminate].
    + cbn [app argp_loop]. unfold bind at 1.
      assert (Hc : c = "q"%char \/ c = "v"%char).
      { apply orb_true_iff in Ht as [H | H]; apply Ascii.eqb_eq in H; auto. }
      destruct Hc as [-> | ->];
        cbv beta iota zeta delta [Culvert.parse_opt bind pure ext record fst snd];
        cbn [Z.eqb]; apply IH; auto;
        cbn [trace]; rewrite forallb_app, Hloc; reflexivity.
    + cbn [app argp_loop]. unfold bind at 1.
      apply andb_true_iff in Ht as [Hc Hn]. apply Ascii.eqb_eq in Hc. subst c.
      destruct (disable_present n (registry w)) as [reg' [Hd Hp]];
        [rewrite Hreg; exact Hn | ].
      rewrite (parse_opt_skip_known fn n _ e w reg' Hd). cbn [Z.eqb].
      apply IH; auto.
      * intros m. cbn [registry]. rewrite Hp. apply Hreg.
      * cbn [trace]. rewrite forallb_app, Hloc. reflexivity.
Qed.

(** Up to the unknown name the command table is not looked at. *)
Lemma main_loop_skip_any (e : env) (pre : list token) :
  forall (st : argp_state) (w : world),
  forallb (goes_on reg0) pre = true ->
  (forall n, Registry.present n (registry w) = Registry.present n reg0) ->
  argp_loop (Culvert.parse_opt fn) (pre ++ TOpt "s" name :: post) st tt e w
    = argp_loop (Culvert.parse_opt fn') (pre ++ TOpt "s" name :: post)
        st tt e w.
Proof.
  induction pre as [ | t pre IH]; intros st w Hpre Hreg.
  - cbn [app argp_loop]. unfold bind.
    rewrite !parse_opt_skip_unknown
      by (apply disable_absent; rewrite Hreg; exact Hname).
    reflexivity.
  - cbn [forallb] in Hpre. apply andb_true_iff in Hpre as [Ht Hpre].
    destruct t as [c | c n | arg]; cbn [goes_on] in Ht; [ | | discriminate].
    + cbn [app argp_loop]. unfold bind at 1. unfold bind at 2.
      assert (Hc : c = "q"%char \/ c = "v"%char).
      { apply orb_true_iff in Ht as [H | H]; apply Ascii.eqb_eq in H; auto. }
      destruct Hc as [-> | ->];
        cbv beta iota zeta delta [Culvert.parse_opt bind pure ext record fst snd];
        cbn [Z.eqb]; apply IH; auto.
    + cbn [app argp_loop]. unfold bind at 1. unfold bind at 2.
      apply andb_true_iff in Ht as [Hc Hn]. apply Ascii.eqb_eq in Hc. subst c.
      destruct (disable_present n (registry w)) as [reg' [Hd Hp]];
        [rewrite Hreg; exact Hn | ].
      rewrite !(parse_opt_skip_known _ n _ e w reg' Hd). cbn [Z.eqb].
      apply IH; auto.
      intros m. cbn [registry]. rewrite Hp. apply Hreg.
Qed.

End SkipLoop.

(** Claim C7.  When the top-level parser reaches [-s NAME] with [NAME]
    not in the registry, the process reports that name on standard error
    and exits with [EXIT_FAILURE]; it has made local calls only, and the
    run is the same whatever the commands of the table are: none is
    entered, nothing is negotiated. *)
Theorem skip_unknown_bridge (fn : string -> argp_state -> M outcome)
  (pre post : list token) (name : string) (e : env) :
  forallb (goes_on (bridge_drivers e)) pre = true ->
  Registry.present name (bridge_drivers e) = false ->
  let r := run (Culvert.main fn (pre ++ TOpt "s" name :: post)) e in
  fst r = Exit EXIT_FAILURE /\
  (exists evs,
     trace (snd r) = evs ++ [fprintf_stderr unknown_bridge_message name]) /\
  forallb local (trace (snd r)) = true /\
  (forall fn', run (Culvert.main fn' (pre ++ TOpt "s" name :: post)) e = r).
Proof.
  intros Hpre Hname. cbv zeta.
  assert (Hany : forall f,
    run (Culvert.main f (pre ++ TOpt "s" name :: post)) e
      = run (Culvert.main fn (pre ++ TOpt "s" name :: post)) e).
  { intros f. unfold run, Culvert.main, argp_parse.
    unfold bind at 1. unfold bind at 3. cbn [ext].
    unfold bind at 1. unfold bind at 2.
    rewrite (main_loop_skip_any f fn name post (bridge_drivers e) Hname e pre);
      [reflexivity | exact Hpre | reflexivity]. }
  split; [ | split; [ | split; [ | exact Hany]]];
    unfold run, Culvert.main, argp_parse; unfold bind at 1; cbn [ext];
    unfold bind at 1;
    destruct (main_loop_skip fn name post (bridge_drivers e) Hname e pre
                (initial_state "culvert" (pre ++ TOpt "s" name :: post))
                (record (log_set_level "level_info") (world0 e)) Hpre)
      as [evs [w' [Hl [Ht Hloc]]]]; try reflexivity;
    rewrite Hl; cbn [pure fst snd]; eauto.
Qed.

Lemma skip_unknown_bridge_witness :
  let r := run (Culvert.main (fun _ _ => pure (Return 0))
                  ([TFlag "v"; TOpt "s" "p2a"]
                   ++ TOpt "s" "jtag" :: [TArg "read"; TArg "ram"]))
             (ast2600 healthy []) in
  fst r = Exit EXIT_FAILURE /\
  (exists evs,
     trace (snd r) = evs ++ [fprintf_stderr unknown_bridge_message "jtag"]) /\
  forallb local (trace (snd r)) = true /\
  (forall fn', run (Culvert.main fn' ([TFlag "v"; TOpt "s" "p2a"]
                   ++ TOpt "s" "jtag" :: [TArg "read"; TArg "ram"]))
                 (ast2600 healthy []) = r).
Proof.
  apply (skip_unknown_bridge (fun _ _ => pure (Return 0))
           [TFlag "v"; TOpt "s" "p2a"] [TArg "read"; TArg "ram"] "jtag"
           (ast2600 healthy [])); reflexivity.
Defined.

(** ** The loop of sfc's write mode *)

Lemma write_loop_eof (len addr rc : Z) (e : env) (w : world) :
  Sfc.write_loop [] len addr rc e w = ((addr, rc), record (read 0 len) w).
Proof. reflexivity. Qed.

Lemma write_loop_error (err : positive) (rest : list read_result)
  (len addr rc : Z) (e : env) (w : world) :
  Sfc.write_loop (RdError err :: rest) len addr rc e w
    = ((addr, - Z.pos err),
       {| trace := trace w ++ [read 0 len]; errno := Z.pos err;
          registry := registry w |}).
Proof. reflexivity. Qed.

Lemma write_loop_bytes (n : positive) (rest : list read_result)
  (len addr rc : Z) (e : env) (w : world) :
  let w1 := record (read 0 len) w in
  let code := ret e (trace w1) (flash_write addr (Z.pos n)) in
  let w2 := record (flash_write addr (Z.pos n)) w1 in
  Sfc.write_loop (RdBytes n :: rest) len addr rc e w
    = if code <? 0 then ((addr, code), w2)
      else Sfc.write_loop rest len (u32 (addr + Z.pos n)) code e w2.
Proof.
  cbv zeta. cbn [Sfc.write_loop]. unfold bind at 1. cbn [Sfc.do_read].
  cbn [Z.eqb Z.ltb Z.compare]. unfold bind at 1. cbn [ext].
  destruct (_ <? 0); reflexivity.
Qed.

Lemma write_loop_windows (e : env) (input : list read_result) :
  forall (len addr rc : Z) (w : world),
  exists ns tail,
    input = map RdBytes ns ++ tail /\
    let r := Sfc.write_loop input len addr rc e w in
    let addr' := address_after addr ns in
    let h := trace w ++ windows len addr ns ++ [read STDIN_FILENO len] in
    fst (fst r) = addr' /\
    match tail with
    | [] =>
        (* end of file *)
        trace (snd r) = h /\
        (ns = [] -> snd (fst r) = rc) /\ (ns <> [] -> 0 <= snd (fst r))
    | RdError err :: _ =>
        trace (snd r) = h /\ snd (fst r) = - Z.pos err
    | RdBytes n :: _ =>
        (* its [flash_write] failed *)
        trace (snd r) = h ++ [flash_write addr' (Z.pos n)] /\
        snd (fst r) = ret e h (flash_write addr' (Z.pos n)) /\
        snd (fst r) < 0
    end.
Proof.
  induction input as [ | r rest IH]; intros len addr rc w.
  - exists [], []. split; [reflexivity | ]. rewrite write_loop_eof.
    cbn. repeat split; congruence.
  - destruct r as [n | err].
    + pose proof (write_loop_bytes n rest len addr rc e w) as Hb.
      cbv zeta in Hb.
      destruct (ret e (trace (record (read 0 len) w))
                  (flash_write addr (Z.pos n)) <? 0) eqn:Hcode.
      * exists [], (RdBytes n :: rest). split; [reflexivity | ].
        rewrite Hb. cbn [map app windows address_after fold_left fst snd
                         record trace].
        apply Z.ltb_lt in Hcode. cbn [record trace] in Hcode.
        repeat split; exact Hcode.
      * destruct (IH len (u32 (addr + Z.pos n))
                    (ret e (trace (record (read 0 len) w))
                       (flash_write addr (Z.pos n)))
                    (record (flash_write addr (Z.pos n))
                       (record (read 0 len) w)))
          as [ns [tail [Hin Hr]]].
        exists (n :: ns), tail. split; [cbn; now rewrite Hin | ].
        rewrite Hb. cbv zeta in Hr |- *.
        cbn [windows address_after fold_left record trace] in Hr |- *.
        fold (address_after (u32 (addr + Z.pos n)) ns).
        destruct Hr as [Ha Ht]. split; [exact Ha | ].
        assert (Eh : ((trace w ++ [read 0 len])
                      ++ [flash_write addr (Z.pos n)])
                     ++ windows len (u32 (addr + Z.pos n)) ns ++ [read 0 len]
                   = trace w ++ read STDIN_FILENO len
                       :: flash_write addr (Z.pos n)
                       :: windows len (u32 (addr + Z.pos n)) ns
                          ++ [read STDIN_FILENO len]).
        { rewrite <- !app_assoc. reflexivity. }
        change (read 0 len) with (read STDIN_FILENO len) in *.
        rewrite Eh in Ht.
        apply Z.ltb_ge in Hcode. cbn [record trace] in Hcode.
        destruct tail as [ | [m | err] tail'].
        -- destruct Ht as [H1 [H2 H3]]. split; [exact H1 | ].
           split; [discriminate | ]. intros _.
           destruct ns as [ | n' ns'];
             [rewrite H2 by reflexivity; exact Hcode | apply H3; discriminate].
        -- exact Ht.
        -- exact Ht.
    + exists [], (RdError err :: rest). split; [reflexivity | ].
      rewrite write_loop_error. cbn. repeat split.
Qed.

(** ** What a trace of sfc's write mode holds *)

Lemma local_window_call (c : call) : local c = true -> window_call c.
Proof.
  intros H. split.
  - intros fd count ->. discriminate H.
  - intros addr len ->. discriminate H.
Qed.

Lemma local_window_calls (tr : list call) :
  forallb local tr = true -> Forall window_call tr.
Proof.
  intros H. apply Forall_forall. intros c Hc.
  rewrite forallb_forall in H. apply local_window_call, H, Hc.
Qed.

Lemma windows_window_calls (addr : Z) (ns : list positive) :
  Forall window_call (windows Sfc.SFC_FLASH_WIN addr ns).
Proof.
  revert addr. induction ns as [ | n ns IH]; intros addr; cbn [windows].
  - constructor.
  - constructor; [split; intros; [ | discriminate] | ].
    + inversion H. split; reflexivity.
    + constructor; [split; intros; discriminate | apply IH].
Qed.

Lemma flash_writes_app (l1 l2 : list call) :
  flash_writes (l1 ++ l2) = flash_writes l1 ++ flash_writes l2.
Proof.
  induction l1 as [ | c l1 IH]; [reflexivity | ].
  destruct c; cbn; rewrite ?IH; reflexivity.
Qed.

Lemma local_flash_writes (tr : list call) :
  forallb local tr = true -> flash_writes tr = [].
Proof.
  induction tr as [ | c tr IH]; [reflexivity | ].
  cbn [forallb]. intros H. apply andb_true_iff in H as [Hc Ht].
  destruct c; try discriminate; cbn; auto.
Qed.

Lemma chained_windows (len : Z) (ns : list positive) :
  forall (addr : Z) (more : list (Z * Z)),
  chained (address_after addr ns) more ->
  chained addr (flash_writes (windows len addr ns) ++ more).
Proof.
  induction ns as [ | n ns IH]; intros addr more H; cbn.
  - exact H.
  - split; [reflexivity | ]. apply IH. exact H.
Qed.

Ltac exec_sfc :=
  cbv beta iota zeta delta
      [bind pure ext sys ask set_errno get_errno do_perror record fst snd
       Sfc.cleanup_host Sfc.cleanup_soc Sfc.cleanup_flash];
  cbn [trace errno registry].

(** With the write mode chosen the command does not look at [-l]. *)
Lemma sfc_write_length_unused (a : Sfc.cmd_sfc_args)
  (sub : ArgHelper.subcommand) (l : Z) :
  Sfc.op a = Sfc.flash_op_write ->
  Sfc.cmd_sfc_parsed (Sfc.set_length a l) sub = Sfc.cmd_sfc_parsed a sub.
Proof.
  intros Hop. unfold Sfc.cmd_sfc_parsed, Sfc.set_length.
  cbn [Sfc.address Sfc.length Sfc.key_arg_count Sfc.type Sfc.op].
  rewrite Hop. reflexivity.
Qed.

Lemma sfc_write_trace (a : Sfc.cmd_sfc_args) (sub : ArgHelper.subcommand)
  (e : env) (w : world) :
  Sfc.op a = Sfc.flash_op_write ->
  forallb local (trace w) = true ->
  let tr := trace (snd (Sfc.cmd_sfc_parsed a sub e w)) in
  Forall window_call tr /\ chained (Sfc.address a) (flash_writes tr).
Proof.
  intros Hop Hloc. cbv zeta.
  pose proof (local_window_calls _ Hloc) as Hw.
  pose proof (local_flash_writes _ Hloc) as Hf.
  unfold Sfc.cmd_sfc_parsed. rewrite Hop.
  change (Sfc.flash_op_write =? Sfc.flash_op_read) with false.
  change (Sfc.flash_op_write =? Sfc.flash_op_write) with true.
  cbv iota. unfold Sfc.set_length.
  cbn [Sfc.address Sfc.length Sfc.key_arg_count].
  do 6 (exec_sfc;
        match goal with
        | |- context [(if ?b then _ else _) _ _] =>
            destruct b;
            [ exec_sfc; rewrite !flash_writes_app, Hf;
              repeat rewrite Forall_app;
              split; [repeat split; try exact Hw;
                      repeat constructor; intros; discriminate
                     | exact I]
            | ]
        end).
  exec_sfc.
  match goal with
  | |- context [Sfc.write_loop ?i ?l ?ad ?rc ?e ?w0] =>
      destruct (write_loop_windows e i l ad rc w0) as [ns [tail [_ Hr]]];
      destruct (Sfc.write_loop i l ad rc e w0) as [[addr' rc'] wl]
  end.
  cbv zeta in Hr. cbn [fst snd trace] in Hr. destruct Hr as [_ Ht].
  assert (Hwl : exists final,
    trace wl = ((((((trace w ++
      [host_init (Sfc.key_arg_count a) (host_argv sub (Sfc.key_arg_count a))])
      ++ [host_get_ahb]) ++ [soc_probe]) ++ [sfc_get_by_name "fmc"])
      ++ [flash_init]) ++ [malloc Sfc.SFC_FLASH_WIN])
      ++ windows Sfc.SFC_FLASH_WIN (Sfc.address a) ns ++ final /\
    Forall window_call final /\
    chained (address_after (Sfc.address a) ns) (flash_writes final)).
  { destruct tail as [ | [m | err] tail'].
    - destruct Ht as [Ht _]. eexists. split; [exact Ht | ].
      split; [ | exact I]. repeat constructor; intros; try discriminate.
      inversion H. reflexivity. inversion H. reflexivity.
    - destruct Ht as [Ht _]. rewrite <- !app_assoc in Ht.
      eexists. split; [rewrite <- !app_assoc; exact Ht | ].
      split; [ | cbn; auto]. repeat constructor; intros; try discriminate.
      inversion H. reflexivity. inversion H. reflexivity.
    - destruct Ht as [Ht _]. eexists. split; [exact Ht | ].
      split; [ | exact I]. repeat constructor; intros; try discriminate.
      inversion H. reflexivity. inversion H. reflexivity. }
  destruct Hwl as [final [Hwl [Hfin Hch]]].
  cbn [trace]. rewrite Hwl.
  rewrite !flash_writes_app, Hf. cbn [flash_writes app].
  rewrite !app_nil_r.
  split.
  - repeat rewrite Forall_app. repeat split; try exact Hw; try exact Hfin;
      try apply windows_window_calls;
      repeat constructor; intros; discriminate.
  - apply chained_windows. exact Hch.
Qed.

Ltac norm_app := repeat (rewrite <- app_assoc; cbn [app]); cbn [app].

(** The whole run of the write mode when the steps before the loop
    succeed. *)
Lemma sfc_write_run (a : Sfc.cmd_sfc_args) (sub : ArgHelper.subcommand)
  (e : env) (w : world) :
  Sfc.op a = Sfc.flash_op_write ->
  sfc_reachable e (Sfc.key_arg_count a) (host_argv sub (Sfc.key_arg_count a)) ->
  exists ns tail,
    stdin e = map RdBytes ns ++ tail /\
    let r := Sfc.cmd_sfc_parsed a sub e w in
    let addr' := address_after (Sfc.address a) ns in
    let h := trace w
             ++ sfc_write_prologue (Sfc.key_arg_count a)
                  (host_argv sub (Sfc.key_arg_count a))
             ++ windows Sfc.SFC_FLASH_WIN (Sfc.address a) ns
             ++ [read STDIN_FILENO Sfc.SFC_FLASH_WIN] in
    match tail with
    | [] =>
        trace (snd r) = h ++ sfc_write_epilogue /\
        exists rc, fst r = Return rc /\ 0 <= rc
    | RdError err :: _ =>
        trace (snd r) = h ++ sfc_write_epilogue /\
        fst r = Return (- Z.pos err)
    | RdBytes n :: _ =>
        trace (snd r)
          = h ++ flash_write addr' (Z.pos n) :: sfc_write_epilogue /\
        fst r = Return (ret e h (flash_write addr' (Z.pos n))) /\
        ret e h (flash_write addr' (Z.pos n)) < 0
    end.
Proof.
  intros Hop (H1 & H2 & H3 & H4 & H5 & H6).
  unfold Sfc.cmd_sfc_parsed. rewrite Hop.
  change (Sfc.flash_op_write =? Sfc.flash_op_read) with false.
  change (Sfc.flash_op_write =? Sfc.flash_op_write) with true.
  cbv iota. unfold Sfc.set_length.
  cbn [Sfc.address Sfc.length Sfc.key_arg_count].
  exec_sfc.
  rewrite (passes_ltb _ _ H1). exec_sfc.
  rewrite (found_eqb _ _ H2). exec_sfc.
  rewrite (passes_ltb _ _ H3). exec_sfc.
  rewrite (found_eqb _ _ H4). exec_sfc.
  rewrite (passes_ltb _ _ H5). exec_sfc.
  rewrite (found_eqb _ _ H6). exec_sfc.
  match goal with
  | |- context [Sfc.write_loop ?i ?l ?ad ?rc ?e ?w0] =>
      destruct (write_loop_windows e i l ad rc w0) as [ns [tail [Hin Hr]]];
      destruct (Sfc.write_loop i l ad rc e w0) as [[addr' rc'] wl]
  end.
  exists ns, tail. split; [exact Hin | ].
  cbv zeta in Hr. cbn [fst snd trace] in Hr. destruct Hr as [_ Ht].
  cbn [fst snd trace]. unfold sfc_write_prologue, sfc_write_epilogue.
  repeat rewrite <- app_assoc in Ht. cbn [app] in Ht.
  destruct tail as [ | [n | err] tail'].
  - (* end of file *)
    destruct Ht as [Ht [Hrc0 Hrc1]]. rewrite Ht.
    norm_app. split; [reflexivity | ].
    exists rc'. split; [reflexivity | ].
    destruct ns as [ | n ns]; [ | apply Hrc1; discriminate].
    rewrite Hrc0 by reflexivity. apply H5.
  - (* a failed write *)
    destruct Ht as [Ht [Hrc Hneg]]. rewrite Ht.
    norm_app. split; [reflexivity | ].
    rewrite Hrc in *. norm_app. split; [reflexivity | ].
    revert Hneg. norm_app. exact (fun H => H).
  - (* a read error *)
    destruct Ht as [Ht Hrc]. rewrite Ht, Hrc.
    norm_app. split; reflexivity.
Qed.

Lemma quiet_sfc_parse_opt p k arg st a : quiet (Sfc.parse_opt p k arg st a).
Proof. unfold Sfc.parse_opt. quiet_tac. Qed.

(** Claim C10.  In the write mode of sfc the value of [-l] has no effect.
    Every [read] of the command takes a window of 65536 bytes from
    standard input, nothing is erased, and the writes follow one another
    from the [-a] address, each as long as the bytes read.  When the
    steps before the loop succeed the command runs whole windows and
    stops at the end of the file (code not negative), at a read error
    (code [-errno]) or at a failed [flash_write] (its code); after that
    it only frees the buffer and releases the chip, the SoC and the
    host: what was written stays written. *)
Theorem sfc_write_streams (p : abi) (parent : string) (toks : list token)
  (e : env) (a : Sfc.cmd_sfc_args) (sub : ArgHelper.subcommand) (w1 : world) :
  run (ArgHelper.parse_subcommand (Sfc.parse_opt p) "sfc"
         Sfc.cmd_sfc_args_init parent toks) e
    = (ArgHelper.SubParsed a sub, w1) ->
  Sfc.op a = Sfc.flash_op_write ->
  let tr := trace_of (Sfc.cmd_sfc p parent toks) e in
  (* -l is not looked at *)
  (forall l,
     Sfc.cmd_sfc_parsed (Sfc.set_length a l) sub = Sfc.cmd_sfc_parsed a sub) /\
  (* every read takes a 64 KiB window from standard input, nothing is
     erased, and the writes follow one another from the -a address *)
  Sfc.SFC_FLASH_WIN = 65536 /\
  Forall window_call tr /\
  chained (Sfc.address a) (flash_writes tr) /\
  (* the run: whole windows, then the end of file, a read error or a
     failed write, and only the cleanup after it *)
  (sfc_reachable e (Sfc.key_arg_count a)
     (host_argv sub (Sfc.key_arg_count a)) ->
   exists ns tail,
     stdin e = map RdBytes ns ++ tail /\
     let r := run (Sfc.cmd_sfc p parent toks) e in
     let addr' := address_after (Sfc.address a) ns in
     let h := trace w1
              ++ sfc_write_prologue (Sfc.key_arg_count a)
                   (host_argv sub (Sfc.key_arg_count a))
              ++ windows Sfc.SFC_FLASH_WIN (Sfc.address a) ns
              ++ [read STDIN_FILENO Sfc.SFC_FLASH_WIN] in
     match tail with
     | [] =>
         trace (snd r) = h ++ sfc_write_epilogue /\
         exists rc, fst r = Return rc /\ 0 <= rc
     | RdError err :: _ =>
         trace (snd r) = h ++ sfc_write_epilogue /\
         fst r = Return (- Z.pos err)
     | RdBytes n :: _ =>
         trace (snd r)
           = h ++ flash_write addr' (Z.pos n) :: sfc_write_epilogue /\
         fst r = Return (ret e h (flash_write addr' (Z.pos n))) /\
         ret e h (flash_write addr' (Z.pos n)) < 0
     end).
Proof.
  intros Hp Hop tr.
  destruct (command_parsed _ Sfc.cmd_sfc_parsed e a sub w1
              (quiet_parse_subcommand _ _ _ _ _ (quiet_sfc_parse_opt p)) Hp)
    as [Hr Hloc].
  split; [intros l; now apply sfc_write_length_unused | ].
  split; [reflexivity | ].
  destruct (sfc_write_trace a sub e w1 Hop Hloc) as [Hw Hc].
  subst tr. unfold trace_of, Sfc.cmd_sfc. rewrite Hr.
  split; [exact Hw | split; [exact Hc | ]].
  intros Hreach. exact (sfc_write_run a sub e w1 Hop Hreach).
Qed.

Lemma sfc_write_streams_witness :
  let tr := trace_of (Sfc.cmd_sfc LP64 "culvert" sfc_write_line)
              (ast2600 second_write_fails two_windows) in
  Forall window_call tr /\ chained 0x100 (flash_writes tr).
Proof.
  refine (let H := sfc_write_streams LP64 "culvert" sfc_write_line
                     (ast2600 second_write_fails two_windows)
                     {| Sfc.address := 0x100; Sfc.length := 5;
                        Sfc.key_arg_count := 0; Sfc.type := Some "fmc";
                        Sfc.op := Sfc.flash_op_write |} _ _ _ _ in
          conj (proj1 (proj2 (proj2 H))) (proj1 (proj2 (proj2 (proj2 H))))).
  - vm_compute. reflexivity.
  - reflexivity.
Defined.

(** The second write fails: the loop stops there, the first window stays
    written, and the failure is the command's code. *)
Example sfc_write_stops_at_failure :
  run (Sfc.cmd_sfc LP64 "culvert" sfc_write_line)
      (ast2600 second_write_fails two_windows)
  = (Return (- 5),
     {| trace :=
          [ malloc 11; host_init 0 []; host_get_ahb; soc_probe;
            sfc_get_by_name "fmc"; flash_init; malloc 65536;
            read 0 65536; flash_write 0x100 65536;
            read 0 65536; flash_write 0x10100 100;
            free; flash_destroy; soc_destroy; host_destroy ];
        errno := 0;
        registry := bridge_drivers (ast2600 second_write_fails two_windows) |}).
Proof. vm_compute. reflexivity. Qed.

(** Claim C3, evaluated.  When the clock controller, the UART mux or the
    flash controller cannot be found after a successful [soc_probe], the
    console and sfc commands log the failure and return 0, the success
    code; read firmware, in the same place, returns [-ENODEV]. *)
Theorem missing_controller_returns_success :
  let console e := run (Console.cmd_console LP64 "culvert" console_line) e in
  let sfc e := run (Sfc.cmd_sfc LP64 "culvert" sfc_write_line) e in
  (fst (console (ast2600 no_clk [])) = Return 0 /\
   In (loge "Failed to acquire clock controller, exiting")
      (trace (snd (console (ast2600 no_clk []))))) /\
  (fst (console (ast2600 no_mux [])) = Return 0 /\
   In (loge "Failed to acquire UART mux controller, exiting")
      (trace (snd (console (ast2600 no_mux []))))) /\
  (fst (sfc (ast2600 no_sfc [])) = Return 0 /\
   In (loge "Failed to acquire SPI controller, exiting")
      (trace (snd (sfc (ast2600 no_sfc []))))) /\
  (* read firmware, in the same place, returns -ENODEV *)
  result_of (Read.cmd_read_firmware "culvert read" []) (ast2600 no_sfc [])
    = Return (- ENODEV).
Proof.
  vm_compute. repeat split; tauto.
Qed.

(** read.c returns [ARGP_KEY_ERROR] from its parser when a number does not
    parse; [argp_parse] hands that code back and [parse_subcommand] drops
    it, so the command goes on with what was stored. *)
Example read_ram_parser_error_ignored :
  let r := run (Read.cmd_read_ram LP64 "culvert read"
                  [TOpt "L" "2"; TOpt "S" "99999999999999999999999"])
             (ast2600 healthy []) in
  fst r = Return 0 /\
  In (loge "Failed to parse RAM region start address '%s': %s")
     (trace (snd r)) /\
  In (soc_siphon_out (ULONG_MAX LP64) 2 STDOUT_FILENO) (trace (snd r)).
Proof. vm_compute. repeat split; tauto. Qed.

(** * More of the commands *)

(** ** main: the options before the command *)

Lemma advance_advance (st : argp_state) (a b : Z) :
  advance (advance st a) b = advance st (a + b).
Proof. unfold advance. cbn. f_equal. lia. Qed.

Lemma advance_zero (st : argp_state) : advance st 0 = st.
Proof. destruct st. unfold advance. cbn. f_equal. lia. Qed.

Lemma count_words_nil : count_words [] = 0.
Proof. reflexivity. Qed.

Lemma count_words_nonneg toks : 0 <= count_words toks.
Proof. unfold count_words. lia. Qed.

Lemma count_words_app (l1 l2 : list token) :
  count_words (l1 ++ l2) = count_words l1 + count_words l2.
Proof.
  unfold count_words. rewrite flat_map_app, length_app. lia.
Qed.

Lemma add_calls_nil (w : world) : add_calls [] w = w.
Proof. destruct w. unfold add_calls. cbn. now rewrite app_nil_r. Qed.

Lemma add_calls_record (c : call) (cs : list call) (w : world) :
  add_calls cs (record c w) = add_calls (c :: cs) w.
Proof.
  unfold add_calls, record. cbn. f_equal. now rewrite <- app_assoc.
Qed.

Lemma add_calls_snoc (cs : list call) (c : call) (w : world) :
  record c (add_calls cs w) = add_calls (cs ++ [c]) w.
Proof.
  unfold add_calls, record. cbn. f_equal. now rewrite <- app_assoc.
Qed.

Section MainLoop.

Variable fn : string -> argp_state -> M outcome.

Lemma parse_opt_verbosity (c : ascii) (arg : option string)
  (st : argp_state) (e : env) (w : world) :
  is_verbosity (TFlag c) = true ->
  Culvert.parse_opt fn (KEY_OPT c) arg st tt e w
    = (PReturn 0 tt, record (log_set_level (level_of (TFlag c))) w).
Proof.
  cbn [is_verbosity]. intros H.
  apply orb_true_iff in H as [H | H]; apply Ascii.eqb_eq in H; subst c;
    reflexivity.
Qed.

(** The verbosity flags are gone past, each setting the log level. *)
Lemma main_loop_verbosity (e : env) (rest : list token) (pre : list token) :
  forall (st : argp_state) (w : world),
  forallb is_verbosity pre = true ->
  argp_loop (Culvert.parse_opt fn) (pre ++ rest) st tt e w
    = argp_loop (Culvert.parse_opt fn) rest
        (advance st (count_words pre)) tt e
        (add_calls (verbosity_calls pre) w).
Proof.
  induction pre as [ | t pre IH]; intros st w Hpre.
  - cbn [app verbosity_calls map]. rewrite count_words_nil, advance_zero.
    now rewrite add_calls_nil.
  - cbn [forallb] in Hpre. apply andb_true_iff in Hpre as [Ht Hpre].
    destruct t as [c | c n | arg]; cbn [is_verbosity] in Ht; try discriminate.
    cbn [app argp_loop]. unfold bind at 1.
    rewrite count_words_cons. cbn [words List.length].
    change (Z.of_nat 1) with 1.
    rewrite (parse_opt_verbosity c None (advance st 1) e w Ht).
    cbn [Z.eqb]. rewrite (IH _ _ Hpre), advance_advance.
    cbn [verbosity_calls map]. now rewrite add_calls_record.
Qed.

(** A plain word brings the parser to [ARGP_KEY_ARGS]. *)
Lemma main_loop_args (e : env) (name : string) (rest : list token)
  (st : argp_state) (w : world) :
  argp_loop (Culvert.parse_opt fn) (TArg name :: rest) st tt e w
    = (let r := Culvert.parse_opt fn ARGP_KEY_ARGS None st tt e w in
       match fst r with
       | PExit s => (Exited s, snd r)
       | PReturn _ _ => (Exited EX_USAGE, snd r)
       end).
Proof.
  cbn [argp_loop]. unfold bind at 1.
  change (Culvert.parse_opt fn ARGP_KEY_ARG (Some name) (advance st 1) tt e w)
    with (PReturn ARGP_ERR_UNKNOWN tt, w).
  cbv iota beta. change (ARGP_ERR_UNKNOWN =? 0) with false.
  change (ARGP_ERR_UNKNOWN =? ARGP_ERR_UNKNOWN) with true. cbv iota.
  unfold bind at 1. cbv zeta.
  unfold Culvert.parse_opt.
  destruct (existsb _ Culvert.cmds).
  - unfold bind. destruct (fn _ _ e w) as [[rc | s] w2]; reflexivity.
  - reflexivity.
Qed.

End MainLoop.

(** ** The state at a plain word *)

Lemma count_words_length (toks : list token) :
  count_words toks = Z.of_nat (List.length (flat_map words toks)).
Proof. reflexivity. Qed.

Lemma state_after_next (argv0 : string) (pre rest : list token) :
  next (state_after argv0 pre rest) = 1 + count_words pre.
Proof. reflexivity. Qed.

Lemma state_after_argv (argv0 : string) (pre rest : list token) :
  argv (state_after argv0 pre rest)
    = argv0 :: flat_map words pre ++ flat_map words rest.
Proof. unfold state_after. cbn. now rewrite flat_map_app. Qed.

Lemma state_after_argc (argv0 : string) (pre rest : list token) :
  argc (state_after argv0 pre rest) = 1 + count_words pre + count_words rest.
Proof.
  unfold state_after. cbn [advance argc initial_state].
  rewrite length_cons, flat_map_app, length_app.
  unfold count_words. lia.
Qed.

(** [state->argv[state->next + i]] is the [i]th remaining word. *)
Lemma state_after_word (argv0 : string) (pre rest : list token) (i : nat) :
  argv_at (state_after argv0 pre rest)
          (next (state_after argv0 pre rest) + Z.of_nat i)
    = nth_error (flat_map words rest) i.
Proof.
  unfold argv_at. rewrite state_after_next, state_after_argv.
  pose proof (count_words_nonneg pre) as Hp.
  destruct (1 + count_words pre + Z.of_nat i <? 0) eqn:H;
    [apply Z.ltb_lt in H; lia | ].
  replace (Z.to_nat (1 + count_words pre + Z.of_nat i))
    with (S (List.length (flat_map words pre) + i))
    by (unfold count_words; lia).
  cbn [nth_error]. rewrite nth_error_app2 by lia.
  f_equal. lia.
Qed.

Lemma firstn_app_length {A} (l1 l2 : list A) :
  firstn (List.length l1) (l1 ++ l2) = l1.
Proof.
  rewrite firstn_app, Nat.sub_diag, firstn_all. cbn. apply app_nil_r.
Qed.

Lemma skipn_app_cons {A} (l1 : list A) (x : A) (l2 : list A) :
  skipn (S (List.length l1)) (l1 ++ x :: l2) = l2.
Proof. induction l1 as [ | y l1 IH]; [reflexivity | exact IH]. Qed.

Lemma shift_argv_state_after (argv0 cmd : string) (pre rest : list token) :
  Culvert.shift_argv (state_after argv0 pre (TArg cmd :: rest))
    = {| argc := 1 + count_words pre + count_words rest;
         argv := argv0 :: flat_map words pre ++ flat_map words rest;
         next := 1 + count_words pre;
         arg_num := 0;
         name := argv0 |}.
Proof.
  unfold Culvert.shift_argv.
  rewrite state_after_argc, state_after_argv, state_after_next.
  rewrite count_words_cons. cbn [words List.length flat_map app].
  replace (Z.to_nat (1 + count_words pre))
    with (S (List.length (flat_map words pre))) by (unfold count_words; lia).
  rewrite firstn_cons, skipn_cons, firstn_app_length, skipn_app_cons.
  reflexivity || (f_equal; lia).
Qed.

Section Main.

Variable fn : string -> argp_state -> M outcome.

(** [main] up to the first word that is not [-q] or [-v]. *)
Lemma main_verbosity (e : env) (pre rest : list token) :
  forallb is_verbosity pre = true ->
  run (Culvert.main fn (pre ++ rest)) e
    = (let r := argp_loop (Culvert.parse_opt fn) rest
                  (state_after "culvert" pre rest) tt e
                  (add_calls (log_set_level "level_info" :: verbosity_calls pre)
                     (world0 e)) in
       match fst r with
       | Exited s => (Exit s, snd r)
       | Parsed err _ =>
           if negb (err =? 0)
           then (Exit EXIT_FAILURE,
                 record (fprintf_stderr "Error parsing arguments" "") (snd r))
           else (Exit EXIT_FAILURE, snd r)
       end).
Proof.
  intros Hpre. unfold run, Culvert.main, argp_parse.
  unfold bind at 1. cbn [ext]. unfold bind at 1.
  rewrite (main_loop_verbosity fn e rest pre _ _ Hpre).
  rewrite add_calls_record. fold (state_after "culvert" pre rest).
  cbv zeta.
  destruct (argp_loop _ rest _ tt e _) as [[err a | s] w2]; cbn [fst snd];
    [ | reflexivity].
  destruct (negb (err =? 0)); reflexivity.
Qed.

(** Property X1.
    [-l] prints the bridge drivers and leaves with success, whatever
    follows it on the line and whatever the commands are. *)
Theorem main_list_bridges (e : env) (pre post : list token) :
  forallb is_verbosity pre = true ->
  run (Culvert.main fn (pre ++ TFlag "l" :: post)) e
    = (Exit EXIT_SUCCESS,
       add_calls (log_set_level "level_info"
                  :: verbosity_calls pre ++ [print_bridge_drivers])
         (world0 e)).
Proof.
  intros Hpre. rewrite (main_verbosity e pre _ Hpre).
  cbn [argp_loop]. unfold bind at 1.
  cbv beta iota zeta delta [Culvert.parse_opt bind pure ext fst snd].
  rewrite add_calls_snoc. reflexivity.
Qed.

(** Property X2.
    Without a command, or with a word that is not in the command table,
    [main] prints the usage and leaves with [EX_USAGE]; no command is
    entered.  That word is a plain one, not beginning with [-], and the
    words from it on are at most two, the room of [args]: with more the
    copy into [args] runs past its end. *)
Theorem main_usage (e : env) (pre : list token) :
  forallb is_verbosity pre = true ->
  let usage :=
    (Exit EX_USAGE,
     add_calls (log_set_level "level_info"
                :: verbosity_calls pre ++ [argp_usage]) (world0 e)) in
  run (Culvert.main fn pre) e = usage /\
  (forall name rest,
     plain_word name = true ->
     existsb (String.eqb name) Culvert.cmds = false ->
     count_words (TArg name :: rest) <= Culvert.ARGS_SLOTS ->
     run (Culvert.main fn (pre ++ TArg name :: rest)) e = usage).
Proof.
  intros Hpre usage. subst usage. split.
  - rewrite <- (app_nil_r pre) at 1.
    rewrite (main_verbosity e pre [] Hpre).
    cbn [argp_loop]. unfold argp_finish.
    change (arg_num (state_after "culvert" pre []) =? 0) with true.
    cbv beta iota zeta delta [Culvert.parse_opt bind pure ext fst snd do_argp_usage].
    change (arg_num (state_after "culvert" pre []) <? 1) with true.
    change (negb (ARGP_ERR_UNKNOWN =? 0)
            && negb (ARGP_ERR_UNKNOWN =? ARGP_ERR_UNKNOWN)) with false.
    cbv beta iota. rewrite add_calls_snoc. reflexivity.
  - intros name rest _ Hname _.
    rewrite (main_verbosity e pre _ Hpre), main_loop_args.
    unfold Culvert.parse_opt.
    pose proof (state_after_word "culvert" pre (TArg name :: rest) 0) as Hw.
    rewrite Z.add_0_r in Hw. rewrite Hw. cbn [flat_map words app nth_error arg_text].
    rewrite Hname.
    cbv beta iota zeta delta [bind pure ext fst snd do_argp_usage].
    rewrite add_calls_snoc. reflexivity.
Qed.

(** Property X3.
    The first plain word, when it names a command of the table, enters
    that command with its name taken out of [argv]; the process leaves
    with success exactly when the command returns 0, with failure when
    it returns anything else, and with the command's own status when the
    command leaves by itself.  The words from the command's name on are
    at most two, the room of [args]. *)
Theorem main_dispatch (e : env) (pre rest : list token) (cmd : string) :
  forallb is_verbosity pre = true ->
  existsb (String.eqb cmd) Culvert.cmds = true ->
  count_words (TArg cmd :: rest) <= Culvert.ARGS_SLOTS ->
  let state :=
    {| argc := 1 + count_words pre + count_words rest;
       argv := "culvert" :: flat_map words pre ++ flat_map words rest;
       next := 1 + count_words pre;
       arg_num := 0;
       name := "culvert" |} in
  let r := fn cmd state e
             (add_calls (log_set_level "level_info" :: verbosity_calls pre)
                (world0 e)) in
  run (Culvert.main fn (pre ++ TArg cmd :: rest)) e
    = (Exit (status_of (fst r)), snd r).
Proof.
  intros Hpre Hcmd _. cbv zeta.
  rewrite (main_verbosity e pre _ Hpre), main_loop_args.
  unfold Culvert.parse_opt.
  pose proof (state_after_word "culvert" pre (TArg cmd :: rest) 0) as Hw.
  rewrite Z.add_0_r in Hw. rewrite Hw. cbn [flat_map words app nth_error arg_text].
  rewrite Hcmd, shift_argv_state_after. unfold bind.
  destruct (fn cmd _ e _) as [[rc | s] w2]; cbn [fst snd pure status_of];
    [ | reflexivity].
  destruct (rc =? 0); reflexivity.
Qed.

(** Property X4.
    At the first plain word, one that does not begin with [-], the parser
    is handed [ARGP_KEY_ARGS], and its first loop stores every remaining
    word of the line, the command's name first, into [args]: slot [i]
    gets the [i]th of them.  The stores stay within the two slots of the
    array exactly when at most two words remain. *)
Theorem main_args_stores (e : env) (pre rest : list token) (name : string) :
  forallb is_verbosity pre = true ->
  let state := state_after "culvert" pre (TArg name :: rest) in
  let remaining := name :: flat_map words rest in
  (plain_word name = true ->
   exists s w2,
     Culvert.parse_opt fn ARGP_KEY_ARGS None state tt e
       (add_calls (log_set_level "level_info" :: verbosity_calls pre)
          (world0 e)) = (PExit s, w2) /\
     run (Culvert.main fn (pre ++ TArg name :: rest)) e = (Exit s, w2)) /\
  Culvert.args_stores state
    = map (fun i => (Z.of_nat i, nth_error remaining i))
          (seq 0 (List.length remaining)) /\
  (Forall (fun s => fst s < Culvert.ARGS_SLOTS) (Culvert.args_stores state)
   <-> count_words (TArg name :: rest) <= Culvert.ARGS_SLOTS).
Proof.
  intros Hpre state remaining.
  assert (Hstores : Culvert.args_stores state
    = map (fun i => (Z.of_nat i, nth_error remaining i))
          (seq 0 (List.length remaining))).
  { unfold Culvert.args_stores. subst state.
    rewrite state_after_argc, state_after_next.
    replace (Z.to_nat (1 + count_words pre + count_words (TArg name :: rest)
                       - (1 + count_words pre)))
      with (List.length remaining)
      by (subst remaining; rewrite count_words_cons; unfold count_words;
          cbn [words List.length]; lia).
    apply map_ext. intros i.
    rewrite <- (state_after_next "culvert" pre (TArg name :: rest)).
    now rewrite state_after_word. }
  split; [ | split; [exact Hstores | ]].
  - intros _. rewrite (main_verbosity e pre _ Hpre), main_loop_args.
    fold state. unfold Culvert.parse_opt.
    destruct (existsb _ Culvert.cmds).
    + unfold bind. destruct (fn _ _ e _) as [[rc | s] w2]; cbn [fst snd pure];
        eexists; eexists; split; reflexivity.
    + cbv beta iota zeta delta [bind pure ext fst snd do_argp_usage].
      eexists; eexists; split; reflexivity.
  - rewrite Hstores, Forall_map, Forall_forall. cbn [fst].
    rewrite count_words_cons. cbn [words]. rewrite count_words_length.
    change (Z.of_nat (List.length [name]) + Z.of_nat (List.length (flat_map words rest)))
      with (Z.of_nat 1 + Z.of_nat (List.length (flat_map words rest))).
    subst remaining. cbn [List.length]. split.
    + intros H.
      specialize (H (List.length (flat_map words rest))).
      rewrite in_seq in H. lia.
    + intros H i Hi. rewrite in_seq in Hi. lia.
Qed.

End Main.

(** ** The dispatchers of read and coprocessor *)

(** [parse_subcommand] once its buffer is allocated. *)
Lemma parse_subcommand_run {A} (f : parser A) (name : string) (a : A)
  (parent : string) (toks : list token) (e : env) :
  found e (malloc (name_size parent name)) ->
  run (ArgHelper.parse_subcommand f name a parent toks) e
    = (let r := argp_loop f toks
                  (initial_state (parent ++ " " ++ name) toks) a e
                  (record (malloc (name_size parent name)) (world0 e)) in
       match fst r with
       | Parsed _ a' =>
           (ArgHelper.SubParsed a'
              {| ArgHelper.sub_name := name;
                 ArgHelper.sub_argc := 1 + count_words toks;
                 ArgHelper.sub_argv :=
                   (parent ++ " " ++ name)%string :: flat_map words toks |},
            snd r)
       | Exited s => (ArgHelper.SubExited s, snd r)
       end).
Proof.
  intros Hm. unfold run, ArgHelper.parse_subcommand, argp_parse.
  unfold bind at 1. cbn [ext]. fold (name_size parent name).
  rewrite (found_eqb _ _ Hm). unfold bind at 1. cbv zeta.
  destruct (argp_loop f toks _ a e _) as [[err a' | s] w2]; cbn [fst snd pure];
    [ | reflexivity].
  assert (Hc : Z.of_nat (List.length
                  ((parent ++ " " ++ name)%string :: flat_map words toks))
               = 1 + count_words toks)
    by (unfold count_words; cbn [List.length]; lia).
  now rewrite Hc.
Qed.

Section ReadGlobal.

Variables fn_firmware fn_ram : argp_state -> M outcome.

Let parse := Read.parse_opt_global fn_firmware fn_ram.

(** After the type word every plain word is gone past. *)
Lemma read_global_plain (e : env) (ws : list string) :
  forall (st : argp_state) (w : world),
  1 <= arg_num st ->
  argp_loop parse (map TArg ws) st tt e w = (Parsed 0 tt, w).
Proof.
  induction ws as [ | x ws IH]; intros st w Hn.
  - cbn [map argp_loop]. unfold argp_finish.
    destruct (arg_num st =? 0) eqn:E0; [apply Z.eqb_eq in E0; lia | ].
    unfold bind, pure. cbn [negb andb Z.eqb]. cbv iota.
    unfold parse, Read.parse_opt_global.
    destruct (arg_num st <? 1) eqn:E1; [apply Z.ltb_lt in E1; lia | ].
    reflexivity.
  - cbn [map argp_loop]. unfold bind at 1.
    assert (Hc : parse ARGP_KEY_ARG (Some x) (advance st 1) tt e w
                 = (PReturn 0 tt, w)).
    { unfold parse, Read.parse_opt_global. cbn [advance arg_num].
      destruct (arg_num st) as [ | q | q]; try lia; reflexivity. }
    rewrite Hc. cbn [Z.eqb]. apply IH. cbn [count_arg advance arg_num]. lia.
Qed.

(** ... up to a flag, which the dispatcher does not know. *)
Lemma read_global_flag (e : env) (c : ascii) (rest : list token)
  (ws : list string) :
  forall (st : argp_state) (w : world),
  1 <= arg_num st ->
  argp_loop parse (map TArg ws ++ TFlag c :: rest) st tt e w
    = (Exited EX_USAGE, record (argp_error "unrecognized option") w).
Proof.
  induction ws as [ | x ws IH]; intros st w Hn.
  - cbn [map app argp_loop]. unfold bind at 1.
    unfold parse, Read.parse_opt_global. cbn [pure]. reflexivity.
  - cbn [map app argp_loop]. unfold bind at 1.
    assert (Hc : parse ARGP_KEY_ARG (Some x) (advance st 1) tt e w
                 = (PReturn 0 tt, w)).
    { unfold parse, Read.parse_opt_global. cbn [advance arg_num].
      destruct (arg_num st) as [ | q | q]; try lia; reflexivity. }
    rewrite Hc. cbn [Z.eqb]. apply IH. cbn [count_arg advance arg_num]. lia.
Qed.

Lemma run_cmd_read (parent : string) (toks : list token) (e : env) :
  found e (malloc (name_size parent "read")) ->
  run (Read.cmd_read fn_firmware fn_ram parent toks) e
    = (let r := argp_loop parse toks
                  (initial_state (parent ++ " read") toks) tt e
                  (record (malloc (name_size parent "read")) (world0 e)) in
       match fst r with
       | Parsed _ _ => (Return 0, snd r)
       | Exited s => (Exit s, snd r)
       end).
Proof.
  intros Hm. unfold run, Read.cmd_read. unfold bind at 1.
  change (ArgHelper.parse_subcommand (Read.parse_opt_global fn_firmware fn_ram)
            "read" tt parent toks e (world0 e))
    with (run (ArgHelper.parse_subcommand parse "read" tt parent toks) e).
  rewrite (parse_subcommand_run parse "read" tt parent toks e Hm). cbv zeta.
  destruct (argp_loop parse toks _ tt e _) as [[err a' | s] w2]; reflexivity.
Qed.

(** The type word enters its command. *)
Lemma read_global_type (t : string) (fn : argp_state -> M outcome)
  (st : argp_state) (e : env) (w : world) :
  (t = "firmware" /\ fn = fn_firmware) \/ (t = "ram" /\ fn = fn_ram) ->
  arg_num st = 0 ->
  parse ARGP_KEY_ARG (Some t) st tt e w
    = (match fst (fn st e w) with
       | Exit s => PExit s
       | Return _ => PReturn 0 tt
       end, snd (fn st e w)).
Proof.
  intros Ht Hn. unfold parse, Read.parse_opt_global. rewrite Hn.
  destruct Ht as [[-> ->] | [-> ->]]; cbn [arg_text];
    [change (String.eqb "firmware" "firmware") with true
    | change (String.eqb "firmware" "ram") with false;
      change (String.eqb "ram" "ram") with true ];
    cbv iota; unfold bind;
    match goal with
    | |- context [?f st e w] => destruct (f st e w) as [[rc | s] w2]
    end; reflexivity.
Qed.

Lemma read_loop_unknown (t : string) (rest : list token) (st : argp_state)
  (e : env) (w : world) :
  t <> "firmware" -> t <> "ram" -> arg_num st = 0 ->
  argp_loop parse (TArg t :: rest) st tt e w
    = (Exited EX_USAGE, record (argp_error "Invalid read type '%s'") w).
Proof.
  intros Hf Hr Hn. cbn [argp_loop]. unfold bind at 1.
  unfold parse at 1, Read.parse_opt_global.
  cbn [advance arg_num arg_text]. rewrite Hn.
  apply String.eqb_neq in Hf, Hr.
  rewrite String.eqb_sym in Hf. rewrite String.eqb_sym in Hr.
  rewrite Hf, Hr. reflexivity.
Qed.

Lemma read_loop_plain (t : string) (fn : argp_state -> M outcome)
  (ws : list string) (st : argp_state) (e : env) (w : world) :
  (t = "firmware" /\ fn = fn_firmware) \/ (t = "ram" /\ fn = fn_ram) ->
  arg_num st = 0 ->
  argp_loop parse (map TArg (t :: ws)) st tt e w
    = (match fst (fn (advance st 1) e w) with
       | Exit s => Exited s
       | Return _ => Parsed 0 tt
       end, snd (fn (advance st 1) e w)).
Proof.
  intros Ht Hn. cbn [map argp_loop]. unfold bind at 1.
  rewrite (read_global_type t fn _ e _ Ht) by exact Hn.
  destruct (fn (advance st 1) e w) as [[rc | s] w2];
    cbn [fst snd pure]; [ | reflexivity].
  cbn [Z.eqb]. apply read_global_plain. cbn [count_arg advance arg_num]. lia.
Qed.

Lemma read_loop_flag (t : string) (fn : argp_state -> M outcome)
  (ws : list string) (c : ascii) (rest : list token) (st : argp_state)
  (e : env) (w : world) :
  (t = "firmware" /\ fn = fn_firmware) \/ (t = "ram" /\ fn = fn_ram) ->
  arg_num st = 0 ->
  argp_loop parse (TArg t :: map TArg ws ++ TFlag c :: rest) st tt e w
    = match fst (fn (advance st 1) e w) with
      | Exit s => (Exited s, snd (fn (advance st 1) e w))
      | Return _ =>
          (Exited EX_USAGE,
           record (argp_error "unrecognized option")
             (snd (fn (advance st 1) e w)))
      end.
Proof.
  intros Ht Hn. cbn [argp_loop]. unfold bind at 1.
  rewrite (read_global_type t fn _ e _ Ht) by exact Hn.
  destruct (fn (advance st 1) e w) as [[rc | s] w2];
    cbn [fst snd pure]; [ | reflexivity].
  cbn [Z.eqb]. apply read_global_flag. cbn [count_arg advance arg_num]. lia.
Qed.

(** Property X5.
    read.c's dispatcher.  Without a type word it prints the usage and
    leaves; a first word that is neither [firmware] nor [ram] ends the
    process through [argp_error], no command entered.  On a line of plain
    words the command of the type is entered once and, when it returns,
    [cmd_read] returns 0 whatever the command's code was.  When a flag
    follows the type word the command is run first and the dispatcher's
    own parser, which has no option, then ends the process with
    [EX_USAGE].  Plain words are words that do not begin with [-], and
    the flag is not one argp answers by itself. *)
Theorem read_dispatch (parent : string) (e : env) :
  found e (malloc (name_size parent "read")) ->
  let cmd := Read.cmd_read fn_firmware fn_ram parent in
  let w0 := record (malloc (name_size parent "read")) (world0 e) in
  let state toks := advance (initial_state (parent ++ " read") toks) 1 in
  run (cmd []) e = (Exit EX_USAGE, record argp_usage w0) /\
  (forall t rest,
     plain_word t = true ->
     t <> "firmware" -> t <> "ram" ->
     run (cmd (TArg t :: rest)) e
       = (Exit EX_USAGE, record (argp_error "Invalid read type '%s'") w0)) /\
  (forall t fn ws,
     (t = "firmware" /\ fn = fn_firmware) \/ (t = "ram" /\ fn = fn_ram) ->
     forallb plain_word ws = true ->
     let toks := map TArg (t :: ws) in
     let r := fn (state toks) e w0 in
     run (cmd toks) e = (drop_code 0 (fst r), snd r)) /\
  (forall t fn ws c rest,
     (t = "firmware" /\ fn = fn_firmware) \/ (t = "ram" /\ fn = fn_ram) ->
     forallb plain_word ws = true ->
     getopt_token [] [] (TFlag c) = true ->
     let toks := TArg t :: map TArg ws ++ TFlag c :: rest in
     let r := fn (state toks) e w0 in
     run (cmd toks) e
       = match fst r with
         | Exit s => (Exit s, snd r)
         | Return _ =>
             (Exit EX_USAGE,
              record (argp_error "unrecognized option") (snd r))
         end).
Proof.
  intros Hm cmd w0 state. subst cmd.
  split; [ | split; [ | split]].
  - rewrite (run_cmd_read parent [] e Hm). reflexivity.
  - intros t rest _ Hf Hr. rewrite (run_cmd_read parent _ e Hm).
    rewrite (read_loop_unknown t rest _ e _ Hf Hr) by reflexivity.
    reflexivity.
  - intros t fn ws Ht _ toks r. subst toks r.
    rewrite (run_cmd_read parent _ e Hm).
    rewrite (read_loop_plain t fn ws _ e _ Ht) by reflexivity.
    fold w0. fold (state (map TArg (t :: ws))).
    destruct (fn (state (map TArg (t :: ws))) e w0) as [[rc | s] w2];
      reflexivity.
  - intros t fn ws c rest Ht _ _ toks r. subst toks r.
    rewrite (run_cmd_read parent _ e Hm).
    rewrite (read_loop_flag t fn ws c rest _ e _ Ht) by reflexivity.
    fold w0. fold (state (TArg t :: map TArg ws ++ TFlag c :: rest)).
    destruct (fn (state _) e w0) as [[rc | s] w2]; reflexivity.
Qed.

End ReadGlobal.

Section CoprocessorGlobal.

Variables fn_run fn_stop : argp_state -> M outcome.

Let parse := Coprocessor.parse_opt_global fn_run fn_stop.

Lemma coprocessor_global_plain (e : env) (ws : list string) :
  forall (st : argp_state) (w : world),
  1 <= arg_num st ->
  argp_loop parse (map TArg ws) st tt e w = (Parsed 0 tt, w).
Proof.
  induction ws as [ | x ws IH]; intros st w Hn.
  - cbn [map argp_loop]. unfold argp_finish.
    destruct (arg_num st =? 0) eqn:E0; [apply Z.eqb_eq in E0; lia | ].
    unfold bind, pure. cbn [negb andb Z.eqb]. cbv iota.
    unfold parse, Coprocessor.parse_opt_global.
    destruct (arg_num st <? 1) eqn:E1; [apply Z.ltb_lt in E1; lia | ].
    reflexivity.
  - cbn [map argp_loop]. unfold bind at 1.
    assert (Hc : parse ARGP_KEY_ARG (Some x) (advance st 1) tt e w
                 = (PReturn 0 tt, w)).
    { unfold parse, Coprocessor.parse_opt_global. cbn [advance arg_num].
      destruct (arg_num st =? 0) eqn:E0; [apply Z.eqb_eq in E0; lia | ].
      reflexivity. }
    rewrite Hc. cbn [Z.eqb]. apply IH. cbn [count_arg advance arg_num]. lia.
Qed.

Lemma coprocessor_global_type (t : string) (fn : argp_state -> M outcome)
  (st : argp_state) (e : env) (w : world) :
  (t = "run" /\ fn = fn_run) \/ (t = "stop" /\ fn = fn_stop) ->
  arg_num st = 0 ->
  parse ARGP_KEY_ARG (Some t) st tt e w
    = (match fst (fn st e w) with
       | Exit s => PExit s
       | Return _ => PReturn 0 tt
       end, snd (fn st e w)).
Proof.
  intros Ht Hn. unfold parse, Coprocessor.parse_opt_global. rewrite Hn.
  cbn [Z.eqb andb].
  destruct Ht as [[-> ->] | [-> ->]]; cbn [arg_text];
    [change (String.eqb "run" "run") with true
    | change (String.eqb "stop" "run") with false;
      change (String.eqb "stop" "stop") with true ];
    cbv iota; unfold bind;
    match goal with
    | |- context [?f st e w] => destruct (f st e w) as [[rc | s] w2]
    end; reflexivity.
Qed.

Lemma run_cmd_coprocessor (parent : string) (toks : list token) (e : env) :
  found e (malloc (name_size parent "coprocessor")) ->
  run (Coprocessor.cmd_coprocessor fn_run fn_stop parent toks) e
    = (let r := argp_loop parse toks
                  (initial_state (parent ++ " coprocessor") toks) tt e
                  (record (malloc (name_size parent "coprocessor"))
                     (world0 e)) in
       match fst r with
       | Parsed _ _ => (Return EXIT_FAILURE, snd r)
       | Exited s => (Exit s, snd r)
       end).
Proof.
  intros Hm. unfold run, Coprocessor.cmd_coprocessor. unfold bind at 1.
  change (ArgHelper.parse_subcommand
            (Coprocessor.parse_opt_global fn_run fn_stop)
            "coprocessor" tt parent toks e (world0 e))
    with (run (ArgHelper.parse_subcommand parse "coprocessor" tt parent toks)
            e).
  rewrite (parse_subcommand_run parse "coprocessor" tt parent toks e Hm).
  cbv zeta.
  destruct (argp_loop parse toks _ tt e _) as [[err a' | s] w2]; reflexivity.
Qed.

Lemma coprocessor_loop_other (t : string) (ws : list string)
  (st : argp_state) (e : env) (w : world) :
  t <> "run" -> t <> "stop" -> arg_num st = 0 ->
  argp_loop parse (map TArg (t :: ws)) st tt e w = (Parsed 0 tt, w).
Proof.
  intros Hr Hs Hn. cbn [map argp_loop]. unfold bind at 1.
  unfold parse at 1, Coprocessor.parse_opt_global. cbn [arg_text].
  apply String.eqb_neq in Hr, Hs. rewrite Hr, Hs, !andb_false_r.
  cbn [pure Z.eqb].
  apply coprocessor_global_plain. cbn [count_arg advance arg_num]. lia.
Qed.

Lemma coprocessor_loop_plain (t : string) (fn : argp_state -> M outcome)
  (ws : list string) (st : argp_state) (e : env) (w : world) :
  (t = "run" /\ fn = fn_run) \/ (t = "stop" /\ fn = fn_stop) ->
  arg_num st = 0 ->
  argp_loop parse (map TArg (t :: ws)) st tt e w
    = (match fst (fn (advance st 1) e w) with
       | Exit s => Exited s
       | Return _ => Parsed 0 tt
       end, snd (fn (advance st 1) e w)).
Proof.
  intros Ht Hn. cbn [map argp_loop]. unfold bind at 1.
  rewrite (coprocessor_global_type t fn _ e _ Ht) by exact Hn.
  destruct (fn (advance st 1) e w) as [[rc | s] w2];
    cbn [fst snd pure]; [ | reflexivity].
  cbn [Z.eqb]. apply coprocessor_global_plain.
  cbn [count_arg advance arg_num]. lia.
Qed.

(** Property X6.
    coprocessor.c's dispatcher.  Without a word it prints the usage and
    leaves.  On a line of plain words, none beginning with [-], [run] or
    [stop] as the first word enters its command once, and when that
    returns [cmd_coprocessor] returns [EXIT_FAILURE] whatever the
    command's code was; any other first word enters nothing, is not
    reported, and gives [EXIT_FAILURE] too. *)
Theorem coprocessor_dispatch (parent : string) (e : env) :
  found e (malloc (name_size parent "coprocessor")) ->
  let cmd := Coprocessor.cmd_coprocessor fn_run fn_stop parent in
  let w0 := record (malloc (name_size parent "coprocessor")) (world0 e) in
  let state toks :=
    advance (initial_state (parent ++ " coprocessor") toks) 1 in
  run (cmd []) e = (Exit EX_USAGE, record argp_usage w0) /\
  (forall t ws,
     forallb plain_word (t :: ws) = true ->
     t <> "run" -> t <> "stop" ->
     run (cmd (map TArg (t :: ws))) e = (Return EXIT_FAILURE, w0)) /\
  (forall t fn ws,
     (t = "run" /\ fn = fn_run) \/ (t = "stop" /\ fn = fn_stop) ->
     forallb plain_word ws = true ->
     let toks := map TArg (t :: ws) in
     let r := fn (state toks) e w0 in
     run (cmd toks) e = (drop_code EXIT_FAILURE (fst r), snd r)).
Proof.
  intros Hm cmd w0 state. subst cmd.
  split; [ | split].
  - rewrite (run_cmd_coprocessor parent [] e Hm). reflexivity.
  - intros t ws _ Hr Hs. rewrite (run_cmd_coprocessor parent _ e Hm).
    rewrite (coprocessor_loop_other t ws _ e _ Hr Hs) by reflexivity.
    reflexivity.
  - intros t fn ws Ht _ toks r. subst toks r.
    rewrite (run_cmd_coprocessor parent _ e Hm).
    rewrite (coprocessor_loop_plain t fn ws _ e _ Ht) by reflexivity.
    fold w0. fold (state (map TArg (t :: ws))).
    destruct (fn (state (map TArg (t :: ws))) e w0) as [[rc | s] w2];
      reflexivity.
Qed.

End CoprocessorGlobal.

Lemma count_args_app (l1 l2 : list token) :
  count_args (l1 ++ l2) = count_args l1 + count_args l2.
Proof.
  unfold count_args. rewrite filter_app, length_app. lia.
Qed.

Lemma count_args_nonneg (toks : list token) : 0 <= count_args toks.
Proof. unfold count_args. lia. Qed.

(** ** What the tokens gone past make of the arguments *)

Section Tracks.

Context {A : Type} (f : parser A) (R : list token -> A -> Prop).

(** A token the parser returns 0 on is taken into account. *)
Hypothesis Htok :
  forall done t st a e w err a',
    arg_num st = count_args done -> R done a ->
    fst (f (key_of t) (arg_of t) st a e w) = PReturn err a' -> err = 0 ->
    R (done ++ [t]) a'.

(** The parser takes plain arguments one at a time. *)
Hypothesis Harg :
  forall arg st a e w err a',
    fst (f ARGP_KEY_ARG arg st a e w) = PReturn err a' ->
    err <> ARGP_ERR_UNKNOWN.

(** The end of the line changes nothing. *)
Hypothesis Hend :
  forall done k st a e w err a',
    k = ARGP_KEY_NO_ARGS \/ k = ARGP_KEY_END ->
    R done a -> fst (f k None st a e w) = PReturn err a' -> R done a'.

Lemma argp_finish_tracks (done : list token) (st : argp_state) (a : A)
  (e : env) (w : world) (err : Z) (a' : A) :
  R done a ->
  fst (argp_finish f st a e w) = Parsed err a' -> R done a'.
Proof.
  intros Ha. unfold argp_finish, bind.
  assert (Hfin : forall a1 w1, R done a1 ->
    fst (let (r2, w2) := f ARGP_KEY_END None st a1 e w1 in
         match r2 with
         | PReturn err2 a2 =>
             pure (Parsed (if err2 =? ARGP_ERR_UNKNOWN then 0 else err2) a2)
         | PExit s => pure (Exited s)
         end e w2) = Parsed err a' -> R done a').
  { intros a1 w1 Ha1.
    pose proof (Hend done ARGP_KEY_END st a1 e w1) as He.
    destruct (f ARGP_KEY_END None st a1 e w1) as [[err2 a2 | s] w2];
      cbn [fst pure]; [ | discriminate].
    intros H. inversion H. subst.
    eapply He; [now right | exact Ha1 | reflexivity]. }
  destruct (arg_num st =? 0).
  - pose proof (Hend done ARGP_KEY_NO_ARGS st a e w) as Hk.
    destruct (f ARGP_KEY_NO_ARGS None st a e w) as [[err1 a1 | s] w1];
      cbn [fst pure]; [ | discriminate].
    assert (Ha1 : R done a1) by (eapply Hk; [now left | exact Ha | reflexivity]).
    destruct (negb (err1 =? 0) && negb (err1 =? ARGP_ERR_UNKNOWN)).
    + cbn [pure fst]. intros H. inversion H. now subst.
    + now apply Hfin.
  - cbn [pure Z.eqb negb andb]. now apply Hfin.
Qed.

(** When [argp_parse] returns 0 the arguments are what the whole line
    makes of them. *)
Lemma argp_loop_tracks (toks : list token) :
  forall (done : list token) (st : argp_state) (a : A) (e : env) (w : world)
    (a' : A),
  arg_num st = count_args done -> R done a ->
  fst (argp_loop f toks st a e w) = Parsed 0 a' -> R (done ++ toks) a'.
Proof.
  induction toks as [ | t rest IH]; intros done st a e w a' Hn Ha.
  - rewrite app_nil_r. cbn [argp_loop]. now apply argp_finish_tracks.
  - replace (done ++ t :: rest) with ((done ++ [t]) ++ rest)
      by (rewrite <- app_assoc; reflexivity).
    destruct t as [c | c arg | arg]; cbn [argp_loop]; unfold bind at 1.
    + pose proof (Htok done (TFlag c)
                    (advance st (Z.of_nat (List.length (words (TFlag c)))))
                    a e w) as Hk.
      cbn [key_of arg_of] in Hk.
      destruct (f (KEY_OPT c) None _ a e w) as [[err a1 | s] w1];
        cbn [fst pure]; [ | discriminate].
      destruct (err =? 0) eqn:E0.
      * apply IH.
        -- rewrite count_args_app. cbn. cbn [advance arg_num]. lia.
        -- eapply Hk; [exact Hn | exact Ha | reflexivity | now apply Z.eqb_eq].
      * destruct (err =? ARGP_ERR_UNKNOWN); cbn [ext pure fst];
          [discriminate | ].
        intros H. inversion H. subst. discriminate.
    + pose proof (Htok done (TOpt c arg)
                    (advance st (Z.of_nat (List.length (words (TOpt c arg)))))
                    a e w) as Hk.
      cbn [key_of arg_of] in Hk.
      destruct (f (KEY_OPT c) (Some arg) _ a e w) as [[err a1 | s] w1];
        cbn [fst pure]; [ | discriminate].
      destruct (err =? 0) eqn:E0.
      * apply IH.
        -- rewrite count_args_app. cbn. cbn [advance arg_num]. lia.
        -- eapply Hk; [exact Hn | exact Ha | reflexivity | now apply Z.eqb_eq].
      * destruct (err =? ARGP_ERR_UNKNOWN); cbn [ext pure fst];
          [discriminate | ].
        intros H. inversion H. subst. discriminate.
    + pose proof (Htok done (TArg arg) (advance st 1) a e w) as Hk.
      pose proof (Harg (Some arg) (advance st 1) a e w) as Hu.
      cbn [key_of arg_of] in Hk.
      destruct (f ARGP_KEY_ARG (Some arg) _ a e w) as [[err a1 | s] w1];
        cbn [fst pure] in *; [ | discriminate].
      destruct (err =? 0) eqn:E0.
      * apply IH.
        -- rewrite count_args_app. cbn. cbn [count_arg advance arg_num]. lia.
        -- eapply Hk; [exact Hn | exact Ha | reflexivity | now apply Z.eqb_eq].
      * destruct (err =? ARGP_ERR_UNKNOWN) eqn:Eu.
        -- apply Z.eqb_eq in Eu. exfalso. now apply (Hu err a1).
        -- cbn [pure fst]. intros H. inversion H. subst. discriminate.
Qed.

End Tracks.

(** ** The codes [argp_parse] returns *)

Section Codes.

Context {A : Type} (f : parser A).

(** The parser returns 0 or [ARGP_ERR_UNKNOWN], or it ends the process. *)
Hypothesis Hcodes :
  forall k arg st a e w err a',
    fst (f k arg st a e w) = PReturn err a' -> goes err.

Lemma argp_finish_code (st : argp_state) (a : A) (e : env) (w : world)
  (err : Z) (a' : A) :
  fst (argp_finish f st a e w) = Parsed err a' -> err = 0.
Proof.
  unfold argp_finish, bind.
  assert (Hfin : forall a1 w1,
    fst (let (r2, w2) := f ARGP_KEY_END None st a1 e w1 in
         match r2 with
         | PReturn err2 a2 =>
             pure (Parsed (if err2 =? ARGP_ERR_UNKNOWN then 0 else err2) a2)
         | PExit s => pure (Exited s)
         end e w2) = Parsed err a' -> err = 0).
  { intros a1 w1.
    pose proof (Hcodes ARGP_KEY_END None st a1 e w1) as He.
    destruct (f ARGP_KEY_END None st a1 e w1) as [[err2 a2 | s] w2];
      cbn [fst pure]; [ | discriminate].
    destruct (He err2 a2 eq_refl) as [-> | ->]; intros H; now inversion H. }
  destruct (arg_num st =? 0).
  - pose proof (Hcodes ARGP_KEY_NO_ARGS None st a e w) as Hk.
    destruct (f ARGP_KEY_NO_ARGS None st a e w) as [[err1 a1 | s] w1];
      cbn [fst pure]; [ | discriminate].
    destruct (Hk err1 a1 eq_refl) as [-> | ->]; cbn; apply Hfin.
  - cbn [pure Z.eqb negb andb]. apply Hfin.
Qed.

Lemma argp_loop_code (toks : list token) :
  forall (st : argp_state) (a : A) (e : env) (w : world) (err : Z) (a' : A),
  fst (argp_loop f toks st a e w) = Parsed err a' -> err = 0.
Proof.
  induction toks as [ | t rest IH]; intros st a e w err a'.
  - apply argp_finish_code.
  - destruct t as [c | c arg | arg]; cbn [argp_loop]; unfold bind at 1.
    + pose proof (Hcodes (KEY_OPT c) None
                    (advance st (Z.of_nat (List.length (words (TFlag c)))))
                    a e w) as Hk.
      destruct (f (KEY_OPT c) None _ a e w) as [[err1 a1 | s] w1];
        cbn [fst pure]; [ | discriminate].
      destruct (Hk err1 a1 eq_refl) as [-> | ->]; cbn; [apply IH | discriminate].
    + pose proof (Hcodes (KEY_OPT c) (Some arg)
                    (advance st (Z.of_nat (List.length (words (TOpt c arg)))))
                    a e w) as Hk.
      destruct (f (KEY_OPT c) (Some arg) _ a e w) as [[err1 a1 | s] w1];
        cbn [fst pure]; [ | discriminate].
      destruct (Hk err1 a1 eq_refl) as [-> | ->]; cbn; [apply IH | discriminate].
    + pose proof (Hcodes ARGP_KEY_ARG (Some arg) (advance st 1) a e w) as Hk.
      destruct (f ARGP_KEY_ARG (Some arg) _ a e w) as [[err1 a1 | s] w1];
        cbn [fst pure]; [ | discriminate].
      destruct (Hk err1 a1 eq_refl) as [-> | ->]; cbn [Z.eqb]; [apply IH | ].
      change (ARGP_ERR_UNKNOWN =? 0) with false.
      change (ARGP_ERR_UNKNOWN =? ARGP_ERR_UNKNOWN) with true. cbv iota.
      unfold bind at 1.
      pose proof (Hcodes ARGP_KEY_ARGS None st a1 e w1) as Hk2.
      destruct (f ARGP_KEY_ARGS None st a1 e w1) as [[err2 a2 | s] w2];
        cbn [fst pure]; [ | discriminate].
      destruct (Hk2 err2 a2 eq_refl) as [-> | ->]; cbn [Z.eqb].
      * apply argp_finish_code.
      * change (ARGP_ERR_UNKNOWN =? 0) with false.
        change (ARGP_ERR_UNKNOWN =? ARGP_ERR_UNKNOWN) with true. cbv iota.
        cbn. discriminate.
Qed.

End Codes.

(** What [parse_subcommand] hands back when it returns. *)
Lemma parse_subcommand_parsed {A} (f : parser A) (name : string) (a0 : A)
  (parent : string) (toks : list token) (e : env) (a : A)
  (sub : ArgHelper.subcommand) (w1 : world) :
  run (ArgHelper.parse_subcommand f name a0 parent toks) e
    = (ArgHelper.SubParsed a sub, w1) ->
  (exists err w0,
     argp_loop f toks (initial_state (parent ++ " " ++ name) toks) a0 e w0
       = (Parsed err a, w1)) /\
  sub = {| ArgHelper.sub_name := name;
           ArgHelper.sub_argc := 1 + count_words toks;
           ArgHelper.sub_argv :=
             (parent ++ " " ++ name)%string :: flat_map words toks |}.
Proof.
  unfold run, ArgHelper.parse_subcommand, argp_parse.
  unfold bind at 1. cbn [ext]. destruct (_ =? 0); [discriminate | ].
  unfold bind at 1.
  match goal with
  | |- context [argp_loop f toks ?st a0 e ?w] =>
      destruct (argp_loop f toks st a0 e w) as [[err a' | s] w2] eqn:Hl
  end; cbn [pure]; [ | discriminate].
  intros H. inversion H. subst. split.
  - eexists. eexists. exact Hl.
  - f_equal. unfold count_words. cbn [List.length]. lia.
Qed.

(** ** probe: what the line asks for *)

Lemma probe_codes (p : abi) k arg st a e w err a' :
  fst (Probe.parse_opt p k arg st a e w) = PReturn err a' -> goes err.
Proof.
  unfold Probe.parse_opt, goes.
  destruct k as [c | | | | ];
    [ destruct c as [[] [] [] [] [] [] [] []] | .. ];
    cbn [pure fst];
    repeat match goal with
           | |- context [if ?b then _ else _] => destruct b
           end;
    cbn; intros H; inversion H; auto.
Qed.

Lemma probe_tracks (p : abi) done t st a e w err a' :
  arg_num st = count_args done -> probe_line done a ->
  fst (Probe.parse_opt p (key_of t) (arg_of t) st a e w) = PReturn err a' ->
  err = 0 -> probe_line (done ++ [t]) a'.
Proof.
  intros _ (Hk & Hr & Hl) H _. unfold probe_line.
  rewrite count_args_app, existsb_app. unfold probe_requirement.
  rewrite fold_left_app. fold (probe_requirement done).
  cbn [fold_left existsb]. rewrite orb_false_r.
  unfold count_args at 2. cbn [filter].
  destruct t as [c | c arg | arg]; cbn [key_of arg_of is_arg has_key] in *.
  - unfold Probe.parse_opt in H.
    destruct c as [[] [] [] [] [] [] [] []];
      cbn [pure fst Ascii.eqb Bool.eqb andb] in *;
      repeat match type of H with
             | context [if ?b then _ else _] => destruct b eqn:?
             end;
      cbn in H; inversion H; subst; cbn;
      rewrite ?Hk, ?Hr, ?Hl, ?orb_false_r, ?orb_true_r; repeat split; try lia;
      destruct (existsb _ done); reflexivity.
  - unfold Probe.parse_opt in H.
    destruct c as [[] [] [] [] [] [] [] []];
      cbn [pure fst Ascii.eqb Bool.eqb andb arg_text] in *;
      repeat match type of H with
             | context [if ?b then _ else _] => destruct b eqn:?
             end;
      cbn in H; inversion H; subst; cbn;
      rewrite ?Hk, ?Hr, ?Hl, ?orb_false_r, ?orb_true_r; repeat split; try lia;
      destruct (existsb _ done); reflexivity.
  - destruct (probe_parse_opt_arg p (Some arg) st a e w) as [a1 [Heq Hc]].
    rewrite Heq in H. cbn in H. inversion H. subst a1.
    assert (Hsame : Probe.requirement a' = Probe.requirement a /\
                    Probe.list_ifaces a' = Probe.list_ifaces a).
    { unfold Probe.parse_opt in Heq. cbn [pure] in Heq.
      repeat match type of Heq with
             | context [match ?x with _ => _ end] => destruct x
             end;
        inversion Heq; split; reflexivity. }
    destruct Hsame as [Hr' Hl']. cbn.
    rewrite Hc, Hr', Hl', Hk, Hr, Hl, orb_false_r. repeat split; try lia.
Qed.

Lemma probe_parsed_line (p : abi) (parent : string) (toks : list token)
  (e : env) (a : Probe.cmd_probe_args) (sub : ArgHelper.subcommand)
  (w1 : world) :
  run (ArgHelper.parse_subcommand (Probe.parse_opt p) "probe"
         Probe.cmd_probe_args_zero parent toks) e
    = (ArgHelper.SubParsed a sub, w1) ->
  probe_line toks a.
Proof.
  intros Hp.
  destruct (parse_subcommand_parsed _ _ _ _ _ _ _ _ _ Hp)
    as [[err [w0 Hl]] _].
  assert (He : err = 0).
  { apply (argp_loop_code (Probe.parse_opt p) (probe_codes p) toks
             (initial_state (parent ++ " " ++ "probe") toks)
             Probe.cmd_probe_args_zero e w0 err a). now rewrite Hl. }
  subst err.
  apply (argp_loop_tracks (Probe.parse_opt p) probe_line (probe_tracks p))
    with (done := []) (st := initial_state (parent ++ " probe") toks)
         (a := Probe.cmd_probe_args_zero) (e := e) (w := w0).
  - intros arg st a1 e1 w2 err a2 H.
    destruct (probe_parse_opt_arg p arg st a1 e1 w2) as [a3 [Heq _]].
    rewrite Heq in H. inversion H. discriminate.
  - intros done k st a1 e1 w2 err a2 [-> | ->] Ha H; cbn in H.
    + inversion H. now subst.
    + unfold Probe.parse_opt in H.
      destruct (_ && _) in H; cbn in H; inversion H. now subst.
  - reflexivity.
  - repeat split.
  - exact (f_equal fst Hl).
Qed.

Ltac exec_probe :=
  cbv beta iota zeta delta
      [bind pure ext sys ask set_errno get_errno do_perror record fst snd
       Probe.cleanup_host Probe.cleanup_soc];
  cbn [trace errno registry].

(** Property X7.
    The exit status of probe.  The parsed line holds the requirement of
    the last [-r] ([bm_permissive] without one) and whether [-l] was
    given.  With the bridge opened and the SoC probed, [-l] lists the
    bridge controllers and leaves with success without probing them;
    otherwise the controllers are probed and the status is success
    exactly when the requirement is at most the mode discovered, and
    failure when the probe of the controllers fails.  In each case the
    SoC and the host are released before the process leaves. *)
Theorem probe_exit_status (p : abi) (parent : string) (toks : list token)
  (e : env) (a : Probe.cmd_probe_args) (sub : ArgHelper.subcommand)
  (w1 : world) :
  run (ArgHelper.parse_subcommand (Probe.parse_opt p) "probe"
         Probe.cmd_probe_args_zero parent toks) e
    = (ArgHelper.SubParsed a sub, w1) ->
  let argv := host_argv sub (Probe.key_arg_count a) in
  passes e (host_init (Probe.key_arg_count a) argv) ->
  found e host_get_ahb ->
  passes e soc_probe ->
  let r := run (Probe.cmd_probe p parent toks) e in
  let opened :=
    [host_init (Probe.key_arg_count a) argv; host_get_ahb; soc_probe] in
  let controllers := soc_probe_bridge_controllers (Probe.iface a) in
  Probe.requirement a = probe_requirement toks /\
  (existsb (has_key "l") toks = true ->
   r = (Exit EXIT_SUCCESS,
        add_calls (opened ++ [soc_list_bridge_controllers;
                              soc_destroy; host_destroy]) w1)) /\
  (existsb (has_key "l") toks = false ->
   (passes e controllers ->
    r = (Exit (if probe_requirement toks <=? discovered e
               then EXIT_SUCCESS else EXIT_FAILURE),
         add_calls (opened ++ [controllers; soc_destroy; host_destroy]) w1)) /\
   ((forall h, ret e h controllers < 0) ->
    r = (Exit EXIT_FAILURE,
         add_calls (opened ++ [controllers;
                     loge "Failed to probe SoC bridge controllers: %d";
                     soc_destroy; host_destroy]) w1))).
Proof.
  intros Hp argv H1 H2 H3 r opened controllers.
  destruct (probe_parsed_line p parent toks e a sub w1 Hp) as (Hk & Hr & Hl).
  split; [exact Hr | ].
  assert (Hrun : r = (let argv := host_argv sub (Probe.key_arg_count a) in
      h <- ext (host_init (Probe.key_arg_count a) argv) ;;
      if h <? 0 then
        ext (loge "Failed to initialise host interfaces: %d") ;;
        pure (Exit EXIT_FAILURE)
      else
        ahb <- ext host_get_ahb ;;
        if ahb =? 0 then
          ext (loge "Failed to acquire AHB interface, exiting") ;;
          Probe.cleanup_host EXIT_FAILURE
        else
          rc <- ext soc_probe ;;
          if rc <? 0 then
            ext (loge "Failed to probe SoC, exiting: %d") ;;
            Probe.cleanup_host rc
          else if negb (Probe.list_ifaces a =? 0) then
            ext soc_list_bridge_controllers ;;
            Probe.cleanup_soc EXIT_SUCCESS
          else
            rc <- ext (soc_probe_bridge_controllers (Probe.iface a)) ;;
            if rc <? 0 then
              ext (loge "Failed to probe SoC bridge controllers: %d") ;;
              Probe.cleanup_soc EXIT_FAILURE
            else
              d <- ask discovered ;;
              Probe.cleanup_soc (if Probe.requirement a <=? d
                           then EXIT_SUCCESS else EXIT_FAILURE)) e w1).
  { subst r. unfold run, Probe.cmd_probe. unfold bind at 1.
    unfold run in Hp. rewrite Hp. reflexivity. }
  rewrite Hrun. clear Hrun. cbv zeta. fold argv.
  exec_probe.
  rewrite (passes_ltb _ _ H1). exec_probe.
  rewrite (found_eqb _ _ H2). exec_probe.
  rewrite (passes_ltb _ _ H3). exec_probe.
  rewrite Hl, Hr. split.
  - intros Hlist. rewrite Hlist. cbn [Z.eqb negb]. exec_probe.
    unfold add_calls, opened. cbn [app]. repeat rewrite <- app_assoc.
    reflexivity.
  - intros Hlist. rewrite Hlist. cbn [Z.eqb negb]. split.
    + intros Hc. exec_probe. fold controllers.
      rewrite (passes_ltb _ _ Hc). exec_probe.
      unfold add_calls, opened. cbn [app]. repeat rewrite <- app_assoc.
      reflexivity.
    + intros Hc. exec_probe. fold controllers.
      match goal with
      | |- context [ret e ?h controllers <? 0] =>
          pose proof (Hc h) as Hneg; apply Z.ltb_lt in Hneg; rewrite Hneg
      end.
      exec_probe.
      unfold add_calls, opened. cbn [app]. repeat rewrite <- app_assoc.
      reflexivity.
Qed.

(** ** sfc: the arguments a parsed line leaves *)

Lemma sfc_codes (p : abi) k arg st a e w err a' :
  fst (Sfc.parse_opt p k arg st a e w) = PReturn err a' -> goes err.
Proof.
  unfold Sfc.parse_opt, goes.
  destruct k as [c | | | | ];
    [ destruct c as [[] [] [] [] [] [] [] []] | .. ];
    cbv beta iota; unfold bind;
    try (destruct (Libc.do_strtoul p (arg_text arg) e w) as [r w1]);
    cbn [pure fst];
    repeat match goal with
           | |- context [if ?b then _ else _] => destruct b
           | |- context [match ?x with _ => _ end] => destruct x
           end;
    cbn; intros H; inversion H; auto.
Qed.

Lemma sfc_keeps (p : abi) k arg st a e w err a' :
  sfc_args_kept a ->
  fst (Sfc.parse_opt p k arg st a e w) = PReturn err a' -> goes err ->
  sfc_args_kept a'.
Proof.
  intros (Ht & Ho & Ha & Hl) H _. unfold Sfc.parse_opt in H.
  destruct k as [c | | | | ];
    [ destruct c as [[] [] [] [] [] [] [] []] | .. ];
    cbv beta iota in H; unfold bind in H;
    try (destruct (Libc.do_strtoul p (arg_text arg) e w) as [r w1]);
    cbn [pure fst] in H;
    repeat match type of H with
           | context [if ?b then _ else _] => destruct b eqn:?
           | context [match ?x with _ => _ end] => destruct x eqn:?
           end;
    cbn in H; inversion H; subst;
    unfold sfc_args_kept, Sfc.set_type, Sfc.set_op, Sfc.set_address,
      Sfc.set_length, Sfc.set_key_arg_count;
    cbn [Sfc.type Sfc.op Sfc.address Sfc.length Sfc.key_arg_count];
    repeat split; auto; try apply u32_range; try tauto; try lia;
    try (right; destruct arg as [s | ]; cbn [arg_text] in *;
         [ match goal with
           | Hb : negb (String.eqb "fmc" s) = false |- _ =>
               apply negb_false_iff, String.eqb_eq in Hb; now subst s
           end
         | discriminate ]);
    try match goal with
        | Heq : Sfc.type ?x = Some _ |- Sfc.type ?x = None \/ _ =>
            rewrite Heq in *; assumption
        end.
Qed.

Lemma sfc_end_valid (p : abi) st a e w err a' :
  sfc_args_kept a ->
  fst (Sfc.parse_opt p ARGP_KEY_END None st a e w) = PReturn err a' ->
  goes err -> sfc_args_valid a'.
Proof.
  intros (Ht & Ho & Ha & Hl) H _. unfold Sfc.parse_opt in H.
  destruct (Sfc.type a) as [s | ] eqn:Hty; [ | cbn in H; discriminate].
  destruct (Sfc.op a =? 99) eqn:Hop; [cbn in H; discriminate | ].
  destruct ((Sfc.address a =? 0) && (Sfc.length a =? 0));
    [cbn in H; discriminate | ].
  destruct (Sfc.length a =? 0) eqn:Hlen; [cbn in H; discriminate | ].
  cbn in H. inversion H. subst a'.
  apply Z.eqb_neq in Hop, Hlen.
  unfold sfc_args_valid. rewrite Hty.
  repeat split; try lia; try tauto.
  destruct Ht as [Ht | Ht]; [discriminate | exact Ht].
Qed.

Lemma sfc_tracks (p : abi) done t st a e w err a' :
  arg_num st = count_args done -> sfc_line done a ->
  fst (Sfc.parse_opt p (key_of t) (arg_of t) st a e w) = PReturn err a' ->
  err = 0 -> sfc_line (done ++ [t]) a'.
Proof.
  intros _ (Hk & Ht & Hm & Hl) H _. unfold sfc_line.
  rewrite count_args_app, !existsb_app.
  cbn [existsb]. rewrite !orb_false_r.
  unfold count_args at 2. cbn [filter].
  unfold Sfc.parse_opt in H.
  destruct t as [c | c arg | arg]; cbn [key_of arg_of is_arg has_key] in *;
    [ destruct c as [[] [] [] [] [] [] [] []]
    | destruct c as [[] [] [] [] [] [] [] []] | ];
    cbv beta iota in H; unfold bind in H;
    try (destruct (Libc.do_strtoul p _ e w) as [r w1]);
    cbn [pure fst Ascii.eqb Bool.eqb andb arg_text] in *;
    repeat match type of H with
           | context [if ?b then _ else _] => destruct b eqn:?
           end;
    cbn in H; inversion H; subst;
    unfold Sfc.set_type, Sfc.set_op, Sfc.set_address, Sfc.set_length,
      Sfc.set_key_arg_count;
    cbn [Sfc.type Sfc.op Sfc.address Sfc.length Sfc.key_arg_count
         List.length];
    rewrite ?orb_false_r, ?orb_true_r;
    repeat split; auto; try lia; try discriminate.
Qed.

(** Property X9.
    A parsed sfc line gave a type, an operation and a length: the type is
    "fmc", the operation one of the three, the length between 1 and
    [UINT32_MAX] (in write mode too, where it is not used), the address a
    [uint32_t]; and the count of plain arguments is that of the line. *)
Theorem sfc_line_valid (p : abi) (parent : string) (toks : list token)
  (e : env) (a : Sfc.cmd_sfc_args) (sub : ArgHelper.subcommand) (w1 : world) :
  run (ArgHelper.parse_subcommand (Sfc.parse_opt p) "sfc"
         Sfc.cmd_sfc_args_init parent toks) e
    = (ArgHelper.SubParsed a sub, w1) ->
  sfc_args_valid a /\
  existsb (has_key "t") toks = true /\
  existsb (has_key "m") toks = true /\
  existsb (has_key "l") toks = true /\
  Sfc.key_arg_count a = count_args toks.
Proof.
  intros Hp.
  destruct (parse_subcommand_parsed _ _ _ _ _ _ _ _ _ Hp)
    as [[err [w0 Hl]] _].
  assert (He : err = 0).
  { apply (argp_loop_code (Sfc.parse_opt p) (sfc_codes p) toks
             (initial_state (parent ++ " " ++ "sfc") toks)
             Sfc.cmd_sfc_args_init e w0 err a). now rewrite Hl. }
  subst err.
  assert (Hv : sfc_args_valid a).
  { apply (argp_loop_success sfc_args_kept sfc_args_valid (Sfc.parse_opt p)
             (sfc_keeps p) (sfc_end_valid p) toks
             (initial_state (parent ++ " " ++ "sfc") toks)
             Sfc.cmd_sfc_args_init e w0 a).
    - unfold sfc_args_kept, UINT32_MAX. cbn. repeat split; auto; lia.
    - exact (f_equal fst Hl). }
  assert (Hline : sfc_line toks a).
  { apply (argp_loop_tracks (Sfc.parse_opt p) sfc_line (sfc_tracks p))
      with (done := []) (st := initial_state (parent ++ " " ++ "sfc") toks)
           (a := Sfc.cmd_sfc_args_init) (e := e) (w := w0).
    - intros arg st a1 e1 w2 err a2 H. cbn in H. inversion H. discriminate.
    - intros done k st a1 e1 w2 err a2 [-> | ->] Ha H.
      + cbn in H. inversion H. now subst.
      + unfold Sfc.parse_opt in H.
        repeat match type of H with
               | context [if ?b then _ else _] => destruct b
               | context [match ?x with _ => _ end] => destruct x
               end; cbn in H; inversion H; now subst.
    - reflexivity.
    - repeat split.
    - exact (f_equal fst Hl). }
  destruct Hv as (Ht & Ho & Ha & Hlen).
  destruct Hline as (Hk & Lt & Lm & Ll).
  split; [repeat split; tauto || lia | ].
  split; [ | split; [ | split; [ | exact Hk]]].
  - destruct (existsb (has_key "t") toks); [reflexivity | ].
    rewrite (Lt eq_refl) in Ht. discriminate.
  - destruct (existsb (has_key "m") toks); [reflexivity | ].
    rewrite (Lm eq_refl) in Ho.
    destruct Ho as [Ho | [Ho | Ho]]; discriminate.
  - destruct (existsb (has_key "l") toks); [reflexivity | ].
    rewrite (Ll eq_refl) in Hlen. lia.
Qed.

(** ** sfc: the transfers of each mode *)

Lemma local_no_data (tr : list call) :
  forallb local tr = true -> filter data_call tr = [].
Proof.
  induction tr as [ | c tr IH]; [reflexivity | ].
  cbn [forallb filter]. intros H. apply andb_true_iff in H as [Hc Ht].
  destruct c; try discriminate; cbn; auto.
Qed.

Lemma windows_data (len : Z) (ns : list positive) :
  forall addr,
  forallb (fun c => is_read c || is_flash_write c)
          (filter data_call (windows len addr ns)) = true.
Proof.
  induction ns as [ | n ns IH]; intros addr; [reflexivity | ].
  cbn [windows filter data_call forallb is_read is_flash_write orb andb].
  apply IH.
Qed.

Ltac data_leaf Hd :=
  exec_sfc; rewrite ?filter_app, Hd; cbn [filter data_call app];
  auto.

(** Property X10.
    Each mode of sfc makes the transfers of that mode only.  In read
    mode there is at most one [flash_read], of the address and length
    given, followed by one [write] of that length to standard output; in
    erase mode at most one [flash_erase] of the address and length given;
    in write mode there are only [read]s and [flash_write]s. *)
Theorem sfc_mode_transfers (a : Sfc.cmd_sfc_args)
  (sub : ArgHelper.subcommand) (e : env) (w : world) :
  forallb local (trace w) = true ->
  let tr := filter data_call (trace (snd (Sfc.cmd_sfc_parsed a sub e w))) in
  (Sfc.op a = Sfc.flash_op_read ->
   tr = [] \/
   tr = [flash_read (Sfc.address a) (Sfc.length a);
         write STDOUT_FILENO (Sfc.length a)]) /\
  (Sfc.op a = Sfc.flash_op_erase ->
   tr = [] \/ tr = [flash_erase (Sfc.address a) (Sfc.length a)]) /\
  (Sfc.op a = Sfc.flash_op_write ->
   forallb (fun c => is_read c || is_flash_write c) tr = true).
Proof.
  intros Hloc tr. subst tr.
  pose proof (local_no_data _ Hloc) as Hd.
  split; [ | split]; intros Hop; unfold Sfc.cmd_sfc_parsed; rewrite Hop.
  - change (Sfc.flash_op_read =? Sfc.flash_op_read) with true. cbv iota.
    do 5 (exec_sfc;
          match goal with
          | |- context [(if ?b then _ else _) _ _] =>
              destruct b; [data_leaf Hd | ]
          end).
    exec_sfc.
    repeat match goal with
           | |- context [(if ?b then _ else _) _ _] => destruct b
           | |- context [if ?b then _ else _] => destruct b
           end; data_leaf Hd.
  - change (Sfc.flash_op_erase =? Sfc.flash_op_read) with false.
    change (Sfc.flash_op_erase =? Sfc.flash_op_write) with false.
    change (Sfc.flash_op_erase =? Sfc.flash_op_erase) with true. cbv iota.
    do 5 (exec_sfc;
          match goal with
          | |- context [(if ?b then _ else _) _ _] =>
              destruct b; [data_leaf Hd | ]
          end).
    data_leaf Hd.
  - change (Sfc.flash_op_write =? Sfc.flash_op_read) with false.
    change (Sfc.flash_op_write =? Sfc.flash_op_write) with true. cbv iota.
    unfold Sfc.set_length.
    cbn [Sfc.address Sfc.length Sfc.key_arg_count].
    do 6 (exec_sfc;
          match goal with
          | |- context [(if ?b then _ else _) _ _] =>
              destruct b; [data_leaf Hd | ]
          end).
    exec_sfc.
    match goal with
    | |- context [Sfc.write_loop ?i ?l ?ad ?rc ?e ?w0] =>
        destruct (write_loop_windows e i l ad rc w0) as [ns [tail [_ Hr]]];
        destruct (Sfc.write_loop i l ad rc e w0) as [[addr' rc'] wl]
    end.
    cbv zeta in Hr. cbn [fst snd trace] in Hr. destruct Hr as [_ Ht].
    cbn [trace].
    assert (Hwl : forallb (fun c => is_read c || is_flash_write c)
                    (filter data_call (trace wl)) = true).
    { destruct tail as [ | [m | err] tail']; destruct Ht as [Ht _];
        rewrite Ht; rewrite !filter_app, Hd;
        cbn [filter data_call app]; rewrite ?forallb_app, ?windows_data;
        reflexivity. }
    rewrite !filter_app. cbn [filter data_call app]. rewrite !app_nil_r.
    exact Hwl.
Qed.

Ltac opened_steps H1 H2 H3 H4 H5 :=
  exec_sfc; rewrite (passes_ltb _ _ H1);
  exec_sfc; rewrite (found_eqb _ _ H2);
  exec_sfc; rewrite (passes_ltb _ _ H3);
  exec_sfc; rewrite (found_eqb _ _ H4);
  exec_sfc; rewrite (passes_ltb _ _ H5);
  exec_sfc.

(** Property X11.
    The erase and read modes of sfc, once the flash chip is opened.
    Erase makes one [flash_erase] of the address and length given and
    returns its code.  Read allocates the length given; when that fails
    it returns the code of [flash_init], nothing read; otherwise it reads
    the flash and writes the buffer to standard output whatever
    [flash_read] returned, and returns [flash_read]'s code, or [-errno]
    when the [write] fails.  In each case the buffer, the chip, the SoC
    and the host are released. *)
Theorem sfc_read_erase_run (a : Sfc.cmd_sfc_args)
  (sub : ArgHelper.subcommand) (e : env) (w : world) :
  let k := Sfc.key_arg_count a in
  let argv := host_argv sub k in
  flash_opened e k argv ->
  let r := Sfc.cmd_sfc_parsed a sub e w in
  let h := trace w ++ flash_prologue k argv in
  (Sfc.op a = Sfc.flash_op_erase ->
   let c := flash_erase (Sfc.address a) (Sfc.length a) in
   fst r = Return (ret e h c) /\
   trace (snd r) = h ++ c :: flash_epilogue) /\
  (Sfc.op a = Sfc.flash_op_read ->
   let buf := malloc (Sfc.length a) in
   let rd := flash_read (Sfc.address a) (Sfc.length a) in
   let wr := write STDOUT_FILENO (Sfc.length a) in
   let h1 := h ++ [buf] in
   let h2 := h1 ++ [rd] in
   (ret e h buf = 0 ->
    (exists rc, fst r = Return rc /\ 0 <= rc) /\
    trace (snd r) = h1 ++ flash_epilogue) /\
   (ret e h buf <> 0 ->
    (ret e h2 wr <> -1 ->
     fst r = Return (ret e h1 rd) /\
     trace (snd r) = h2 ++ wr :: free :: flash_epilogue) /\
    (ret e h2 wr = -1 ->
     fst r = Return (- fail_errno e h2 wr) /\
     trace (snd r)
       = h2 ++ wr :: perror "write" (fail_errno e h2 wr) :: free
            :: flash_epilogue))).
Proof.
  intros k argv (H1 & H2 & H3 & H4 & H5) r h. subst r h k argv.
  unfold flash_prologue, flash_epilogue. change STDOUT_FILENO with 1.
  split; intros Hop; unfold Sfc.cmd_sfc_parsed; rewrite Hop.
  - change (Sfc.flash_op_erase =? Sfc.flash_op_read) with false.
    change (Sfc.flash_op_erase =? Sfc.flash_op_write) with false.
    change (Sfc.flash_op_erase =? Sfc.flash_op_erase) with true. cbv iota.
    opened_steps H1 H2 H3 H4 H5.
    norm_app. split; reflexivity.
  - change (Sfc.flash_op_read =? Sfc.flash_op_read) with true. cbv iota.
    opened_steps H1 H2 H3 H4 H5. cbv zeta. norm_app. split.
    + intros Hb. apply Z.eqb_eq in Hb. norm_app. rewrite Hb. exec_sfc.
      norm_app. split; [ | reflexivity].
      eexists. split; [reflexivity | apply H5].
    + intros Hb. apply Z.eqb_neq in Hb. norm_app. rewrite Hb. exec_sfc.
      norm_app. split.
      * intros Hw. apply Z.eqb_neq in Hw. rewrite Hw. exec_sfc.
        norm_app. split; reflexivity.
      * intros Hw. rewrite Hw.
        change (-1 =? -1) with true. change (-1 <? 0) with true.
        exec_sfc. norm_app. split; reflexivity.
Qed.

(** ** read: what the dumps leave alone *)

Lemma local_changes_nothing (tr : list call) :
  forallb local tr = true ->
  forallb (fun c => negb (changes_target c)) tr = true.
Proof.
  induction tr as [ | c tr IH]; [reflexivity | ].
  cbn [forallb]. intros H. apply andb_true_iff in H as [Hc Ht].
  rewrite (IH Ht), andb_true_r. destruct c; try discriminate; reflexivity.
Qed.

Lemma quiet_parse_opt_firmware k arg st a :
  quiet (Read.parse_opt_firmware k arg st a).
Proof.
  unfold Read.parse_opt_firmware. cbv zeta. destruct k; apply quiet_pure.
Qed.

Ltac unchanged_leaf Hn :=
  exec_read; rewrite ?forallb_app, Hn; reflexivity.

(** Property X12.
    The two dumps of read.c never write to the target: whatever the line
    and whatever the calls return, no run of [read firmware] or
    [read ram] erases or writes the flash, writes a register of the SCU
    or loads memory. *)
Theorem read_never_writes (p : abi) (parent : string) (toks : list token)
  (e : env) :
  forallb (fun c => negb (changes_target c))
          (trace_of (Read.cmd_read_firmware parent toks) e) = true /\
  forallb (fun c => negb (changes_target c))
          (trace_of (Read.cmd_read_ram p parent toks) e) = true.
Proof.
  split.
  - unfold trace_of, run, Read.cmd_read_firmware. unfold bind at 1.
    pose proof (quiet_run_local
                  (ArgHelper.parse_subcommand Read.parse_opt_firmware
                     "firmware" 0 parent toks) e
                  (quiet_parse_subcommand _ _ _ _ _ quiet_parse_opt_firmware))
      as Hloc.
    unfold run in Hloc.
    destruct (ArgHelper.parse_subcommand _ _ _ _ _ e (world0 e))
      as [[a sub | s] w1]; cbn [snd] in Hloc;
      pose proof (local_changes_nothing _ Hloc) as Hn;
      [ | exact Hn].
    repeat (exec_read;
            match goal with
            | |- context [(if ?b then _ else _) _ _] =>
                destruct b; [unchanged_leaf Hn | ]
            end).
    exec_read.
    repeat match goal with
           | |- context [if ?b then _ else _] => destruct b
           end; unchanged_leaf Hn.
  - unfold trace_of, run, Read.cmd_read_ram. unfold bind at 1.
    pose proof (quiet_run_local
                  (ArgHelper.parse_subcommand (Read.parse_opt_ram p)
                     "ram" Read.cmd_read_ram_args_zero parent toks) e
                  (quiet_parse_subcommand _ _ _ _ _ (quiet_parse_opt_ram p)))
      as Hloc.
    unfold run in Hloc.
    destruct (ArgHelper.parse_subcommand _ _ _ _ _ e (world0 e))
      as [[a sub | s] w1]; cbn [snd] in Hloc;
      pose proof (local_changes_nothing _ Hloc) as Hn;
      [ | exact Hn].
    unfold Read.cmd_read_ram_parsed.
    repeat (exec_read;
            match goal with
            | |- context [(if ?b then _ else _) _ _] =>
                destruct b; try unchanged_leaf Hn
            end).
    all: exec_read;
      repeat match goal with
             | |- context [if ?b then _ else _] => destruct b
             end; unchanged_leaf Hn.
Qed.

Ltac in_cases H :=
  repeat rewrite in_app_iff in H; cbn [In] in H;
  repeat match type of H with
         | _ \/ _ => destruct H as [H | H]
         end.

(** Property X13.
    [read firmware] dumps the flash under write protection.  Any
    [soc_siphon_out] of a run is of the flash window's start for the
    chip's size to standard output; it comes after
    [sfc_write_protect_save(true)] succeeded, is followed by
    [sfc_write_protect_restore] and then by the release of the chip, the
    SoC and the host, with nothing but messages in between; and the
    command returns what the dump returned, whatever the restore did. *)
Theorem firmware_dump_protected (parent : string) (toks : list token)
  (e : env) (k : Z) (sub : ArgHelper.subcommand) (w1 : world) :
  run (ArgHelper.parse_subcommand Read.parse_opt_firmware "firmware" 0
         parent toks) e
    = (ArgHelper.SubParsed k sub, w1) ->
  let r := run (Read.cmd_read_firmware parent toks) e in
  forall phys len fd,
    In (soc_siphon_out phys len fd) (trace (snd r)) ->
    let h := trace w1 ++ firmware_prologue k (host_argv sub k) in
    let dump := soc_siphon_out (u32 (Soc.start (flash e))) (flash_size e) 1 in
    soc_siphon_out phys len fd = dump /\
    fst r = Return (ret e h dump) /\
    exists said said',
      forallb local said = true /\ forallb local said' = true /\
      trace (snd r)
        = h ++ dump :: said ++ sfc_write_protect_restore :: said'
            ++ [flash_destroy; soc_destroy; host_destroy].
Proof.
  intros Hp r phys len fd.
  pose proof (quiet_run_local _ e
                (quiet_parse_subcommand Read.parse_opt_firmware "firmware" 0
                   parent toks quiet_parse_opt_firmware)) as Hloc.
  unfold run in Hloc, Hp. rewrite Hp in Hloc. cbn [snd] in Hloc.
  assert (Hno : forall c, In c (trace w1) -> c <> soc_siphon_out phys len fd).
  { intros c Hc ->. exact (local_not_siphon _ (soc_siphon_out phys len fd)
                             Hloc eq_refl Hc). }
  unfold run in r.
  remember (Read.cmd_read_firmware parent toks e (world0 e)) as res eqn:Hres.
  unfold Read.cmd_read_firmware in Hres. unfold bind at 1 in Hres.
  rewrite Hp in Hres. unfold firmware_prologue. subst r.
  do 7 (exec_read_in Hres;
        match type of Hres with
        | context [(if ?b then _ else _) _ _] =>
            destruct b;
            [ exec_read_in Hres; subst res; cbn [fst snd trace];
              intros H; in_cases H;
              solve [ contradiction | discriminate H
                    | exfalso; exact (Hno _ H eq_refl) ]
            | ]
        end).
  exec_read_in Hres.
  match type of Hres with
  | context [if negb (?rc =? 0) then _ else _] =>
      destruct (negb (rc =? 0))
  end;
  exec_read_in Hres;
  match type of Hres with
  | context [if ?c <? 0 then _ else _] => destruct (c <? 0)
  end;
  exec_read_in Hres; subst res; cbn [fst snd trace]; intros H; norm_app;
  (split;
   [ in_cases H;
     solve [ contradiction | discriminate H | now rewrite <- H
           | exfalso; exact (Hno _ H eq_refl) ]
   | split; [reflexivity | ]]).
  - eexists [perror _ _], [perror _ _].
    split; [reflexivity | split; [reflexivity | norm_app; reflexivity]].
  - eexists [perror _ _], [].
    split; [reflexivity | split; [reflexivity | norm_app; reflexivity]].
  - eexists [], [perror _ _].
    split; [reflexivity | split; [reflexivity | norm_app; reflexivity]].
  - eexists [], [].
    split; [reflexivity | split; [reflexivity | norm_app; reflexivity]].
Qed.

(** ** devmem: the operands it takes *)

Lemma flat_map_words_plain (ws : list string) :
  flat_map words (map TArg ws) = ws.
Proof.
  induction ws as [ | x ws IH]; [reflexivity | ]. cbn. now rewrite IH.
Qed.

Lemma count_words_plain (ws : list string) :
  count_words (map TArg ws) = Z.of_nat (List.length ws).
Proof. unfold count_words. now rewrite flat_map_words_plain. Qed.

Lemma devmem_finish (st : argp_state) (e : env) (w : world) :
  1 <= arg_num st ->
  argp_finish Devmem.parse_opt st tt e w
    = if (argc st <? 2)
         || (String.eqb "write" (arg_text (argv_at st 1))
             && negb (argc st =? 4))
      then (Exited EX_USAGE, record argp_usage w)
      else (Parsed 0 tt, w).
Proof.
  intros Hn. unfold argp_finish.
  destruct (arg_num st =? 0) eqn:E0; [apply Z.eqb_eq in E0; lia | ].
  unfold bind, pure. cbn [negb andb Z.eqb]. cbv iota.
  unfold Devmem.parse_opt.
  destruct (argc st <? 2); [reflexivity | ].
  destruct (_ && _); reflexivity.
Qed.

Lemma devmem_plain (e : env) (ws : list string) :
  forall (st : argp_state) (w : world),
  1 <= arg_num st ->
  argp_loop Devmem.parse_opt (map TArg ws) st tt e w
    = argp_finish Devmem.parse_opt
        {| argc := argc st; argv := argv st;
           next := next st + Z.of_nat (List.length ws);
           arg_num := arg_num st + Z.of_nat (List.length ws);
           name := name st |} tt e w.
Proof.
  induction ws as [ | x ws IH]; intros st w Hn.
  - cbn [map argp_loop List.length]. f_equal. destruct st; cbn. f_equal; lia.
  - cbn [map argp_loop]. unfold bind at 1.
    assert (Hc : Devmem.parse_opt ARGP_KEY_ARG (Some x) (advance st 1) tt e w
                 = (PReturn 0 tt, w)).
    { unfold Devmem.parse_opt. cbn [advance arg_num].
      destruct (arg_num st =? 0) eqn:E0; [apply Z.eqb_eq in E0; lia | ].
      reflexivity. }
    rewrite Hc. cbn [Z.eqb]. rewrite IH by (cbn; lia).
    f_equal. cbn [count_arg advance argc argv next arg_num name List.length].
    f_equal; lia.
Qed.

(** Property X15.
    The operands of devmem.  On a line of plain words, none beginning
    with [-], the parser goes on exactly when the first word is [read], whatever follows it, or the
    line is [write] and two more words; any other line, the empty one
    included, ends the process with the usage message before [/dev/mem]
    is opened.  An accepted line is handed whole to [ast_ahb_access]. *)
Theorem devmem_operands (parent : string) (ws : list string) (e : env) :
  found e (malloc (name_size parent "devmem")) ->
  forallb plain_word ws = true ->
  let w0 := record (malloc (name_size parent "devmem")) (world0 e) in
  let sub := subcommand_for parent "devmem" (map TArg ws) in
  (devmem_accepts ws = true ->
   run (ArgHelper.parse_subcommand Devmem.parse_opt "devmem" tt parent
          (map TArg ws)) e = (ArgHelper.SubParsed tt sub, w0) /\
   (0 <= ret e (trace w0) devmem_init ->
    exists rest,
      trace_of (Devmem.cmd_devmem parent (map TArg ws)) e
        = trace w0 ++ devmem_init :: devmem_as_ahb
            :: ast_ahb_access (Z.of_nat (List.length ws)) ws :: rest)) /\
  (devmem_accepts ws = false ->
   run (Devmem.cmd_devmem parent (map TArg ws)) e
     = (Exit EX_USAGE, record argp_usage w0)).
Proof.
  intros Hm _ w0 sub.
  assert (Hloop : argp_loop Devmem.parse_opt (map TArg ws)
                    (initial_state (parent ++ " " ++ "devmem") (map TArg ws))
                    tt e w0
                  = if devmem_accepts ws then (Parsed 0 tt, w0)
                    else (Exited EX_USAGE, record argp_usage w0)).
  { destruct ws as [ | op rest].
    - reflexivity.
    - cbn [map argp_loop]. unfold bind at 1.
      unfold Devmem.parse_opt at 1.
      cbn [advance initial_state arg_num Z.eqb andb arg_text devmem_accepts].
      destruct (String.eqb "read" op) eqn:Hr; cbn [negb andb orb].
      + cbn [pure Z.eqb]. rewrite devmem_plain by (cbn [count_arg advance initial_state arg_num]; lia).
        rewrite devmem_finish by (cbn [count_arg advance initial_state arg_num]; lia).
        unfold argv_at.
        cbn [argc argv count_arg advance initial_state flat_map words app].
        change (1 <? 0) with false. cbv iota.
        change (nth_error ((parent ++ " " ++ "devmem")%string
                           :: op :: flat_map words (map TArg rest))
                          (Z.to_nat 1)) with (Some op).
        cbn [arg_text].
        assert (Hw : String.eqb "write" op = false).
        { apply String.eqb_eq in Hr. subst op. reflexivity. }
        rewrite Hw. cbn [andb orb].
        destruct (_ <? 2) eqn:E2; [ | reflexivity].
        apply Z.ltb_lt in E2. cbn [List.length] in E2. lia.
      + destruct (String.eqb "write" op) eqn:Hw; cbn [negb andb orb].
        * cbn [pure Z.eqb]. rewrite devmem_plain by (cbn [count_arg advance initial_state arg_num]; lia).
          rewrite devmem_finish by (cbn [count_arg advance initial_state arg_num]; lia).
          unfold argv_at.
          cbn [argc argv count_arg advance initial_state flat_map words app].
          change (1 <? 0) with false. cbv iota.
          change (nth_error ((parent ++ " " ++ "devmem")%string
                             :: op :: flat_map words (map TArg rest))
                            (Z.to_nat 1)) with (Some op).
          cbn [arg_text]. rewrite Hw. cbn [andb].
          rewrite flat_map_words_plain. cbn [List.length].
          destruct (_ <? 2) eqn:E2;
            [apply Z.ltb_lt in E2; lia | ]. cbn [orb].
          destruct (List.length rest =? 2)%nat eqn:El.
          -- apply Nat.eqb_eq in El. rewrite El. reflexivity.
          -- apply Nat.eqb_neq in El.
             destruct (_ =? 4) eqn:E4; [apply Z.eqb_eq in E4; lia | ].
             reflexivity.
        * reflexivity. }
  split.
  - intros Hacc. rewrite Hacc in Hloop.
    assert (Hp : run (ArgHelper.parse_subcommand Devmem.parse_opt "devmem" tt
                        parent (map TArg ws)) e
                 = (ArgHelper.SubParsed tt sub, w0)).
    { rewrite (parse_subcommand_run Devmem.parse_opt "devmem" tt parent _ e Hm).
      fold w0. rewrite Hloop. reflexivity. }
    split; [exact Hp | ].
    intros Hinit. unfold trace_of, run, Devmem.cmd_devmem.
    unfold bind at 1. unfold run in Hp. rewrite Hp.
    cbv beta iota zeta delta [bind ext pure fst snd record].
    cbn [trace].
    apply Z.ltb_ge in Hinit. rewrite Hinit.
    unfold sub, subcommand_for.
    cbn [ArgHelper.sub_argc ArgHelper.sub_argv tl].
    rewrite flat_map_words_plain, count_words_plain.
    replace (1 + Z.of_nat (List.length ws) - 1)
      with (Z.of_nat (List.length ws)) by lia.
    repeat match goal with
           | |- context [if ?b then _ else _] => destruct b
           end;
      cbv beta iota zeta delta [bind ext pure fst snd record set_errno
                                get_errno do_perror];
      cbn [trace]; norm_app; eexists; reflexivity.
  - intros Hacc. rewrite Hacc in Hloop.
    unfold run, Devmem.cmd_devmem. unfold bind at 1.
    change (ArgHelper.parse_subcommand Devmem.parse_opt "devmem" tt parent
              (map TArg ws) e (world0 e))
      with (run (ArgHelper.parse_subcommand Devmem.parse_opt "devmem" tt
                   parent (map TArg ws)) e).
    rewrite (parse_subcommand_run Devmem.parse_opt "devmem" tt parent _ e Hm).
    fold w0. rewrite Hloop. reflexivity.
Qed.

(** Property X16.
    [cmd_devmem] returns only 0, and only after [/dev/mem] was opened,
    the access made and the mapping released, in this order: every
    failure ends the process instead. *)
Theorem devmem_returns_zero (parent : string) (toks : list token) (e : env)
  (rc : Z) :
  let r := run (Devmem.cmd_devmem parent toks) e in
  fst r = Return rc ->
  rc = 0 /\
  exists before argc argv,
    trace (snd r)
      = before ++ [devmem_init; devmem_as_ahb; ast_ahb_access argc argv;
                   devmem_destroy].
Proof.
  intros r. unfold run in r.
  remember (Devmem.cmd_devmem parent toks e (world0 e)) as res eqn:Hres.
  subst r. unfold Devmem.cmd_devmem in Hres. unfold bind at 1 in Hres.
  destruct (ArgHelper.parse_subcommand Devmem.parse_opt "devmem" tt parent
              toks e (world0 e)) as [[a sub | s] w1];
    [ | subst res; cbn; discriminate].
  cbv beta iota zeta delta [bind ext pure fst snd record set_errno
                            get_errno do_perror] in Hres.
  cbn [trace] in Hres.
  repeat match type of Hres with
         | context [if ?b then _ else _] => destruct b
         end;
    cbv beta iota zeta delta [bind ext pure fst snd record set_errno
                              get_errno do_perror] in Hres;
    cbn [trace] in Hres; subst res; cbn [fst snd trace]; try discriminate.
  intros H. inversion H. split; [reflexivity | ].
  exists (trace w1). eexists. eexists. norm_app. reflexivity.
Qed.

(** ** console: the operands it takes *)

Lemma quiet_console_parse_opt p k arg st a :
  quiet (Console.parse_opt p k arg st a).
Proof.
  unfold Console.parse_opt.
  destruct k; try apply quiet_pure;
    repeat match goal with
           | |- context [match ?x with _ => _ end] => destruct x
           end; quiet_tac.
Qed.

Ltac console_step :=
  unfold bind at 1; unfold Console.parse_opt at 1;
  cbn [advance count_arg initial_state arg_num arg_text Z.add Pos.add
       Pos.succ];
  cbv iota.

Lemma console_loop (p : abi) (parent : string) (ws : list string) (e : env)
  (w : world) :
  let r := argp_loop (Console.parse_opt p) (map TArg ws)
             (initial_state (parent ++ " " ++ "console") (map TArg ws))
             Console.cmd_console_args_zero e w in
  if console_accepts ws
  then r = (Parsed 0 (console_args p ws), w)
  else fst r = Exited EX_USAGE.
Proof.
  cbv zeta.
  destruct ws as [ | h [ | b [ | baud [ | u [ | pw [ | x rest]]]]]];
    cbn [console_accepts map argp_loop]; try reflexivity;
    destruct (String.eqb "uart3" h) eqn:H3;
    try (destruct (String.eqb "uart2" b) eqn:H2);
    cbn [andb];
    repeat (console_step; rewrite ?H3, ?H2; cbn [negb andb pure Z.eqb];
            try reflexivity).
Qed.

(** ** Computations that only add to the trace *)

Lemma extends_pure {A} (a : A) : extends (pure a).
Proof. intros e w. exists []. cbn. now rewrite app_nil_r. Qed.

Lemma extends_bind {A B} (m : M A) (k : A -> M B) :
  extends m -> (forall a, extends (k a)) -> extends (bind m k).
Proof.
  intros Hm Hk e w. unfold bind. destruct (Hm e w) as [l1 H1].
  destruct (m e w) as [a w1]. cbn [snd] in H1.
  destruct (Hk a e w1) as [l2 H2]. exists (l1 ++ l2).
  now rewrite H2, H1, app_assoc.
Qed.

Lemma extends_ext (c : call) : extends (ext c).
Proof. intros e w. exists [c]. reflexivity. Qed.

Lemma extends_sys (c : call) : extends (sys c).
Proof. intros e w. exists [c]. reflexivity. Qed.

Lemma extends_get_errno : extends get_errno.
Proof. intros e w. exists []. cbn. now rewrite app_nil_r. Qed.

Lemma extends_set_errno (v : Z) : extends (set_errno v).
Proof. intros e w. exists []. cbn. now rewrite app_nil_r. Qed.

Lemma extends_ask {A} (f : env -> A) : extends (ask f).
Proof. intros e w. exists []. cbn. now rewrite app_nil_r. Qed.

Ltac extends_step :=
  match goal with
  | |- extends (bind _ _) => apply extends_bind; [ | intros ]
  | |- extends (ext _) => apply extends_ext
  | |- extends (sys _) => apply extends_sys
  | |- extends (pure _) => apply extends_pure
  | |- extends get_errno => apply extends_get_errno
  | |- extends (set_errno _) => apply extends_set_errno
  | |- extends (ask _) => apply extends_ask
  | |- extends (if ?b then _ else _) => destruct b
  | |- extends (match ?x with _ => _ end) => destruct x
  end.
Ltac extends_tac := repeat extends_step.

(** Property X17.
    The operands of console.  On a line of plain words, none beginning
    with [-], the parser goes on exactly when the line is [uart3 uart2] and three more words: the
    baud rate, the user and the password.  The command then opens the
    bridge with [host_init] on two words, the user and the password.  Any
    other line of plain words ends the process with [EX_USAGE], local
    calls made only. *)
Theorem console_operands (p : abi) (parent : string) (e : env) :
  found e (malloc (name_size parent "console")) ->
  let w0 := record (malloc (name_size parent "console")) (world0 e) in
  (forall baud user pass,
     forallb plain_word [baud; user; pass] = true ->
     let ws := ["uart3"; "uart2"; baud; user; pass] in
     run (ArgHelper.parse_subcommand (Console.parse_opt p) "console"
            Console.cmd_console_args_zero parent (map TArg ws)) e
       = (ArgHelper.SubParsed
            {| Console.host_uart := Some "uart3";
               Console.bmc_uart := Some "uart2";
               Console.baud := Libc.atoi p baud;
               Console.user := Some user;
               Console.pass := Some pass |}
            (subcommand_for parent "console" (map TArg ws)), w0) /\
     exists rest,
       trace_of (Console.cmd_console p parent (map TArg ws)) e
         = trace w0 ++ host_init 2 [user; pass] :: rest) /\
  (forall ws,
     forallb plain_word ws = true ->
     console_accepts ws = false ->
     let r := run (Console.cmd_console p parent (map TArg ws)) e in
     fst r = Exit EX_USAGE /\ forallb local (trace (snd r)) = true).
Proof.
  intros Hm w0. split.
  - intros baud user pass _ ws.
    assert (Hp : run (ArgHelper.parse_subcommand (Console.parse_opt p)
                        "console" Console.cmd_console_args_zero parent
                        (map TArg ws)) e
       = (ArgHelper.SubParsed
            {| Console.host_uart := Some "uart3";
               Console.bmc_uart := Some "uart2";
               Console.baud := Libc.atoi p baud;
               Console.user := Some user;
               Console.pass := Some pass |}
            (subcommand_for parent "console" (map TArg ws)), w0)).
    { rewrite (parse_subcommand_run (Console.parse_opt p) "console" _ parent
                 _ e Hm). fold w0.
      pose proof (console_loop p parent ws e w0) as Hl. cbv zeta in Hl.
      change (console_accepts ws) with true in Hl. cbv iota in Hl.
      rewrite Hl. reflexivity. }
    split; [exact Hp | ].
    unfold trace_of, run, Console.cmd_console. unfold bind at 1.
    unfold run in Hp. rewrite Hp.
    unfold bind at 1. cbn [ext].
    unfold subcommand_for. cbn [ArgHelper.sub_argc ArgHelper.sub_argv].
    rewrite count_words_plain. subst ws. cbn [List.length map flat_map words
      app skipn].
    change (1 + Z.of_nat 5 - 4) with 2.
    match goal with
    | |- context [trace (snd (?k e ?w))] =>
        assert (Hk : extends k)
          by (unfold or_goto, or_goto_neg, Console.suart_cleanup,
                Console.mux_restore, Console.soc_cleanup, Console.host_cleanup,
                do_perror; extends_tac);
        destruct (Hk e w) as [evs Hevs]; rewrite Hevs
    end.
    exists evs. cbn [record trace]. now rewrite <- app_assoc.
  - intros ws _ Hacc r. subst r.
    assert (Hq : quiet (ArgHelper.parse_subcommand (Console.parse_opt p)
                          "console" Console.cmd_console_args_zero parent
                          (map TArg ws)))
      by (apply quiet_parse_subcommand, quiet_console_parse_opt).
    unfold Console.cmd_console. apply command_exits; [exact Hq | ].
    rewrite (parse_subcommand_run (Console.parse_opt p) "console" _ parent
               _ e Hm). fold w0.
    pose proof (console_loop p parent ws e w0) as Hl. cbv zeta in Hl.
    rewrite Hacc in Hl.
    destruct (argp_loop _ _ _ _ e w0) as [[err a | s] w2]; cbn [fst] in *;
      [discriminate | ].
    now inversion Hl.
Qed.

(** ** console: what it holds is released *)

Lemma followsb_follows (first last : call -> bool) (tr : list call) :
  followsb first last tr = true -> follows first last tr.
Proof.
  induction tr as [ | x tr IH]; intros H pre c post Heq Hc.
  - destruct pre; discriminate.
  - cbn [followsb] in H. apply andb_true_iff in H as [Hx Ht].
    destruct pre as [ | y pre]; cbn [app] in Heq; inversion Heq; subst.
    + rewrite Hc in Hx. exact Hx.
    + exact (IH Ht pre c post eq_refl Hc).
Qed.

Lemma followsb_app (first last : call -> bool) (l1 l2 : list call) :
  forallb (fun c => negb (first c)) l1 = true ->
  followsb first last (l1 ++ l2) = followsb first last l2.
Proof.
  induction l1 as [ | c l1 IH]; [reflexivity | ].
  cbn [forallb app followsb]. intros H. apply andb_true_iff in H as [Hc Hl].
  rewrite Hc, (IH Hl). reflexivity.
Qed.

Lemma local_no_first_use (r : resource) (tr : list call) :
  forallb local tr = true ->
  forallb (fun c => negb (first_use r c)) tr = true.
Proof.
  induction tr as [ | c tr IH]; [reflexivity | ].
  cbn [forallb]. intros H. apply andb_true_iff in H as [Hc Ht].
  rewrite (IH Ht), andb_true_r.
  destruct c; try discriminate; destruct r; reflexivity.
Qed.

Ltac exec_console_in H :=
  cbv beta iota zeta delta
      [bind pure ext sys ask set_errno get_errno do_perror record fst snd
       or_goto or_goto_neg
       Console.host_cleanup Console.soc_cleanup Console.mux_restore
       Console.suart_cleanup] in H;
  cbn [trace errno registry] in H.

(** Every run of console, split into the ways it can take. *)
Ltac console_cases Hres :=
  repeat (exec_console_in Hres;
          lazymatch type of Hres with
          | _ = (if ?b then _ else _) _ _ => destruct b eqn:?
          | context [(if ?b then _ else _) _ _] => destruct b eqn:?
          | context [if ?b then _ else _] => destruct b eqn:?
          end);
  exec_console_in Hres.

Lemma snocs_flat (base : list call) (more : list (list call)) :
  snocs base more = base ++ List.concat (rev more).
Proof.
  induction more as [ | m more IH]; cbn [snocs fold_right rev].
  - now rewrite app_nil_r.
  - fold (snocs base more). rewrite IH, List.concat_app, <- app_assoc.
    cbn [List.concat]. now rewrite app_nil_r.
Qed.

Ltac snoc_base x :=
  lazymatch x with
  | ?l ++ _ => snoc_base l
  | _ => x
  end.

Ltac snoc_more x :=
  lazymatch x with
  | ?l ++ ?m => let r := snoc_more l in constr:(m :: r)
  | _ => constr:(@nil (list call))
  end.

(** Bring the trace under [followsb] to the form [l ++ calls]. *)
Ltac spine :=
  lazymatch goal with
  | |- context [followsb _ _ ?x] =>
      let b := snoc_base x in
      let m := snoc_more x in
      change x with (snocs b m);
      rewrite (snocs_flat b m);
      cbn [rev List.concat app]
  end.

(** Property X18.
    console releases what it holds.  In every run, whatever the line and
    whatever the calls return: after [host_get_ahb] there is a
    [host_destroy], after [clk_get] a [soc_destroy], after
    [suart_init_defaults] a [uart_mux_restore], and after each
    [suart_set_baud] a [suart_destroy]. *)
Theorem console_releases (p : abi) (parent : string) (toks : list token)
  (e : env) (r : resource) :
  follows (first_use r) (release_of r)
          (trace_of (Console.cmd_console p parent toks) e).
Proof.
  apply followsb_follows.
  unfold trace_of, run.
  remember (Console.cmd_console p parent toks e (world0 e)) as res eqn:Hres.
  unfold Console.cmd_console in Hres. unfold bind at 1 in Hres.
  pose proof (quiet_run_local
                (ArgHelper.parse_subcommand (Console.parse_opt p) "console"
                   Console.cmd_console_args_zero parent toks) e
                (quiet_parse_subcommand _ _ _ _ _ (quiet_console_parse_opt p)))
    as Hloc.
  unfold run in Hloc.
  destruct (ArgHelper.parse_subcommand _ _ _ _ _ e (world0 e))
    as [[a sub | s] w1]; cbn [snd] in Hloc;
    pose proof (local_no_first_use r _ Hloc) as Hn.
  - console_cases Hres;
      subst res; cbn [snd trace]; spine;
      rewrite (followsb_app _ _ _ _ Hn); destruct r; reflexivity.
  - cbv beta iota delta [pure] in Hres. subst res. cbn [snd].
    rewrite <- (app_nil_r (trace w1)). now rewrite (followsb_app _ _ _ _ Hn).
Qed.

(** ** read ram: a number that does not fit *)

Lemma host_argv_none (parent name : string) (toks : list token) :
  host_argv (subcommand_for parent name toks) 0 = [].
Proof.
  unfold host_argv, subcommand_for. cbn [ArgHelper.sub_argc ArgHelper.sub_argv].
  apply skipn_all2. unfold count_words. cbn [List.length]. lia.
Qed.

Lemma strtoul_overflow (p : abi) (s : string) :
  Libc.out_of_range (Libc.strtoul p s) = true ->
  Libc.value (Libc.strtoul p s) = ULONG_MAX p.
Proof.
  unfold Libc.strtoul.
  destruct (Libc.scan_sign _) as [neg s1].
  destruct (Libc.scan_prefix s1) as [base s2].
  destruct (Libc.scan_digits base s2 0 0) as [[v n] rest].
  destruct n; [discriminate | ].
  destruct (v >? ULONG_MAX p); [reflexivity | discriminate].
Qed.

Lemma ram_bad_option (p : abi) (c : ascii) (s : string) (st : argp_state)
  (e : env) (w : world) :
  c = "S"%char \/ c = "L"%char ->
  errno w = 0 ->
  bad_number p s = true ->
  exists fmt a,
    Read.parse_opt_ram p (KEY_OPT c) (Some s) st Read.cmd_read_ram_args_zero e w
      = (PReturn ARGP_KEY_ERROR a,
         {| trace := trace w ++ [loge fmt];
            errno := if Libc.out_of_range (Libc.strtoul p s)
                     then ERANGE else 0;
            registry := registry w |}) /\
    (Read.start a = 0 \/ Read.length a = 0) /\
    Read.key_arg_count a = 0.
Proof.
  intros Hc He Hbad. unfold bad_number in Hbad. cbv zeta in Hbad.
  pose proof (strtoul_overflow p s) as Hov.
  destruct Hc as [-> | ->]; unfold Read.parse_opt_ram;
    cbv beta iota zeta delta [bind pure ext get_errno set_errno record
                              Libc.do_strtoul arg_text fst snd];
    cbn [Read.start Read.length Read.key_arg_count
         Read.cmd_read_ram_args_zero trace errno registry];
    destruct (Libc.out_of_range (Libc.strtoul p s)) eqn:Ho;
    cbn [trace errno registry].
  - rewrite (Hov eq_refl), Z.eqb_refl. cbn [andb negb Z.eqb ERANGE].
    change (negb (ERANGE =? 0)) with true. cbv iota.
    eexists. eexists. split; [reflexivity | ]. cbn. auto.
  - rewrite He. cbn [Z.eqb negb]. rewrite andb_false_r.
    cbn [orb] in Hbad. destruct p; [discriminate | ]. rewrite Hbad.
    eexists. eexists. split; [rewrite He; reflexivity | ]. cbn. auto.
  - rewrite (Hov eq_refl), Z.eqb_refl.
    change (negb (ERANGE =? 0)) with true. cbv iota. cbn [andb].
    eexists. eexists. split; [reflexivity | ]. cbn. auto.
  - rewrite He. cbn [Z.eqb negb]. rewrite andb_false_r.
    cbn [orb] in Hbad. destruct p; [discriminate | ]. rewrite Hbad.
    eexists. eexists. split; [rewrite He; reflexivity | ]. cbn. auto.
Qed.

Lemma ram_parsed_words (p : abi) (a : Read.cmd_read_ram_args)
  (sub sub' : ArgHelper.subcommand) :
  host_argv sub (Read.key_arg_count a) = host_argv sub' (Read.key_arg_count a) ->
  Read.cmd_read_ram_parsed p a sub = Read.cmd_read_ram_parsed p a sub'.
Proof. intros H. unfold Read.cmd_read_ram_parsed. now rewrite H. Qed.

(** Property X14.
    read ram goes on after a start or a length that does not fit.  When
    the first option of the line is [-S] or [-L] with a number [strtoul]
    overflows on, or on a 64-bit host one above [UINT32_MAX], the error is
    logged and the rest of the line is not looked at; the command then
    runs as on an empty line: [host_init] is given no words, and with the
    steps before it succeeding DRAM less the video memory is dumped. *)
Theorem read_ram_bad_number (p : abi) (parent : string) (c : ascii)
  (s : string) (rest : list token) (e : env) :
  found e (malloc (name_size parent "ram")) ->
  c = "S"%char \/ c = "L"%char ->
  bad_number p s = true ->
  let r := run (Read.cmd_read_ram p parent (TOpt c s :: rest)) e in
  let dram := region_u32 (dram e) in
  let vram := region_u32 (vram e) in
  (exists fmt,
     r = Read.cmd_read_ram_parsed p Read.cmd_read_ram_args_zero
           (subcommand_for parent "ram" []) e
           {| trace := [malloc (name_size parent "ram"); loge fmt];
              errno := if Libc.out_of_range (Libc.strtoul p s)
                       then ERANGE else 0;
              registry := bridge_drivers e |}) /\
  host_argv (subcommand_for parent "ram" []) 0 = [] /\
  (ram_reachable e 0 [] -> succeeds e sdmc_get_vram ->
   In (soc_siphon_out (Soc.start dram)
         (u32 (Soc.length dram - Soc.length vram)) STDOUT_FILENO)
      (trace (snd r))).
Proof.
  intros Hm Hc Hbad r dram0 vram0.
  assert (Hr : exists fmt a,
     r = Read.cmd_read_ram_parsed p a
           (subcommand_for parent "ram" (TOpt c s :: rest)) e
           {| trace := [malloc (name_size parent "ram"); loge fmt];
              errno := if Libc.out_of_range (Libc.strtoul p s)
                       then ERANGE else 0;
              registry := bridge_drivers e |} /\
     (Read.start a = 0 \/ Read.length a = 0) /\ Read.key_arg_count a = 0).
  { subst r. unfold run, Read.cmd_read_ram. unfold bind at 1.
    pose proof (parse_subcommand_run (Read.parse_opt_ram p) "ram"
                  Read.cmd_read_ram_args_zero parent (TOpt c s :: rest) e Hm)
      as Hp.
    unfold run in Hp. rewrite Hp. clear Hp.
    destruct (ram_bad_option p c s
                (advance (initial_state (parent ++ " " ++ "ram")
                            (TOpt c s :: rest))
                   (Z.of_nat (List.length (words (TOpt c s)))))
                e (record (malloc (name_size parent "ram")) (world0 e))
                Hc eq_refl Hbad) as (fmt & a & Ha & Hz & Hk).
    assert (Hl : argp_loop (Read.parse_opt_ram p) (TOpt c s :: rest)
                   (initial_state (parent ++ " " ++ "ram") (TOpt c s :: rest))
                   Read.cmd_read_ram_args_zero e
                   (record (malloc (name_size parent "ram")) (world0 e))
                 = (Parsed ARGP_KEY_ERROR a,
                    {| trace := [malloc (name_size parent "ram"); loge fmt];
                       errno := if Libc.out_of_range (Libc.strtoul p s)
                                then ERANGE else 0;
                       registry := bridge_drivers e |})).
    { cbn [argp_loop]. unfold bind at 1. rewrite Ha.
      change (ARGP_KEY_ERROR =? 0) with false.
      change (ARGP_KEY_ERROR =? ARGP_ERR_UNKNOWN) with false.
      reflexivity. }
    rewrite Hl. cbv zeta. cbn [fst snd].
    exists fmt, a. split; [reflexivity | now split]. }
  destruct Hr as (fmt & a & Hr & Hz & Hk).
  assert (Hsame : Read.cmd_read_ram_parsed p a
                    (subcommand_for parent "ram" (TOpt c s :: rest))
                  = Read.cmd_read_ram_parsed p Read.cmd_read_ram_args_zero
                      (subcommand_for parent "ram" [])).
  { rewrite (ram_parsed_zero p a _ Hz). rewrite Hk.
    apply ram_parsed_words. cbn [Read.key_arg_count].
    now rewrite !host_argv_none. }
  split; [ | split].
  - exists fmt. rewrite Hr, Hsame. reflexivity.
  - apply host_argv_none.
  - intros Hreach Hv. rewrite Hr, Hsame.
    apply ram_parsed_default; [now left | | exact Hv].
    cbn [Read.cmd_read_ram_args_zero Read.key_arg_count].
    rewrite host_argv_none. exact Hreach.
Qed.

Lemma read_ram_bad_number_witness :
  In (soc_siphon_out 0x80000000 0x3E000000 STDOUT_FILENO)
     (trace_of (Read.cmd_read_ram LP64 "culvert read" bad_start_line)
        (ast2600 healthy [])).
Proof.
  refine (proj2 (proj2 (read_ram_bad_number LP64 "culvert read" "S"
    "0x100000000" [TOpt "L" "0x1000"; TArg "devmem"] (ast2600 healthy [])
    _ _ _)) _ _).
  - intros h. cbn. lia.
  - now left.
  - vm_compute. reflexivity.
  - apply healthy_ram_reachable.
  - intros h. reflexivity.
Defined.

(** ** coprocessor run: what the line makes of the arguments *)

Lemma whole_number_not_via (p : abi) (s : string) (v : Z) :
  whole_number p s v -> String.eqb s "via" = false.
Proof.
  intros (Hc & _). destruct (String.eqb s "via") eqn:E; [ | reflexivity].
  apply String.eqb_eq in E. subst s. destruct p; discriminate Hc.
Qed.

Lemma parse_ulong_whole (p : abi) (s f1 f2 : string) (v : Z) (e : env)
  (w : world) :
  whole_number p s v ->
  Coprocessor.parse_ulong p s f1 f2 e w
    = (inl v, {| trace := trace w; errno := 0; registry := registry w |}).
Proof.
  intros (Hc & He & Ho & Hv). unfold Coprocessor.parse_ulong, Libc.do_strtoul.
  cbv beta iota zeta delta [bind pure set_errno get_errno fst snd].
  rewrite Ho. cbn [errno trace registry]. rewrite Hc, He, Hv.
  cbn [Z.eqb negb andb orb String.eqb]. rewrite andb_false_r. reflexivity.
Qed.

Section RunSteps.

Variable p : abi.

Let parse := Coprocessor.parse_opt_run p.

Lemma run_arg_base (b : string) (v : Z) (st : argp_state)
  (a : Coprocessor.cmd_copressor_run_args) (e : env) (w : world) :
  arg_num st = 0 -> whole_number p b v ->
  parse ARGP_KEY_ARG (Some b) st a e w
    = (PReturn 0 {| Coprocessor.mem_base := v;
                    Coprocessor.mem_size := Coprocessor.mem_size a;
                    Coprocessor.connection := Coprocessor.connection a |},
       {| trace := trace w; errno := 0; registry := registry w |}).
Proof.
  intros Hn Hb. unfold parse, Coprocessor.parse_opt_run.
  cbn [key_is_arg arg_text andb]. rewrite (whole_number_not_via p b v Hb).
  rewrite Hn. unfold bind at 1. rewrite (parse_ulong_whole p b _ _ v e w Hb).
  reflexivity.
Qed.

Lemma run_arg_size (s : string) (st : argp_state)
  (a : Coprocessor.cmd_copressor_run_args) (e : env) (w : world) :
  arg_num st = 1 -> whole_number p s Coprocessor.COPROC_TOTAL_MEM_SIZE ->
  parse ARGP_KEY_ARG (Some s) st a e w
    = (PReturn 0 {| Coprocessor.mem_base := Coprocessor.mem_base a;
                    Coprocessor.mem_size := Coprocessor.COPROC_TOTAL_MEM_SIZE;
                    Coprocessor.connection := Coprocessor.connection a |},
       {| trace := trace w; errno := 0; registry := registry w |}).
Proof.
  intros Hn Hs. unfold parse, Coprocessor.parse_opt_run.
  cbn [key_is_arg arg_text andb]. rewrite (whole_number_not_via p s _ Hs).
  rewrite Hn. unfold bind at 1. rewrite (parse_ulong_whole p s _ _ _ e w Hs).
  rewrite Z.eqb_refl. reflexivity.
Qed.

Lemma run_arg_other (x : string) (st : argp_state)
  (a : Coprocessor.cmd_copressor_run_args) (e : env) (w : world) :
  2 <= arg_num st -> x <> "via" ->
  parse ARGP_KEY_ARG (Some x) st a e w = (PReturn 0 a, w).
Proof.
  intros Hn Hx. unfold parse, Coprocessor.parse_opt_run.
  cbn [key_is_arg arg_text andb].
  apply String.eqb_neq in Hx. rewrite Hx.
  destruct (arg_num st) as [ | [q | q | ] | q]; try lia; reflexivity.
Qed.

Lemma run_loop_fields (e : env) (fs : list string) :
  forall (st : argp_state) (a : Coprocessor.cmd_copressor_run_args)
    (w : world),
  2 <= arg_num st -> ~ In "via" fs ->
  argp_loop parse (map TArg fs) st a e w = (Parsed 0 a, w).
Proof.
  induction fs as [ | x fs IH]; intros st a w Hn Hv.
  - cbn [map argp_loop]. unfold argp_finish.
    destruct (arg_num st =? 0) eqn:E0; [apply Z.eqb_eq in E0; lia | ].
    unfold bind, pure. cbn [negb andb Z.eqb]. cbv iota.
    unfold parse, Coprocessor.parse_opt_run. cbn [key_is_arg andb].
    destruct (arg_num st <? 2) eqn:E2; [apply Z.ltb_lt in E2; lia | ].
    reflexivity.
  - cbn [map argp_loop]. unfold bind at 1.
    rewrite run_arg_other;
      [ | cbn [advance arg_num]; lia | intros ->; apply Hv; now left].
    cbn [Z.eqb]. apply IH; [cbn [count_arg advance arg_num]; lia | ].
    intros H. apply Hv. now right.
Qed.

(** The word [via] followed by one or five fields, none of them [via]. *)
Lemma run_loop_via_fields (e : env) (fs : list string) (st : argp_state)
  (a : Coprocessor.cmd_copressor_run_args) (w : world) :
  1 <= arg_num st ->
  Coprocessor.connection a = Connection.connection_args_zero ->
  (List.length fs = 1 \/ List.length fs = 5)%nat ->
  ~ In "via" fs ->
  argc st - next st = 1 + Z.of_nat (List.length fs) ->
  skipn (Z.to_nat (next st + 1)) (argv st) = fs ->
  0 <= next st ->
  argp_loop parse (TArg "via" :: map TArg fs) st a e w
    = (Parsed 0 {| Coprocessor.mem_base := Coprocessor.mem_base a;
                   Coprocessor.mem_size := Coprocessor.mem_size a;
                   Coprocessor.connection := fields_connection p fs |},
       add_calls (via_logs fs) w).
Proof.
  intros Hn Hconn Hlen Hv Hc Hargv Hnext.
  assert (Hat : forall k, 1 <= k <= Z.of_nat (List.length fs) ->
            argv_at (advance st 1) (next st + 1 - 1 + k)
              = nth_error fs (Z.to_nat (k - 1))).
  { intros k Hk. unfold argv_at. cbn [advance next argv].
    destruct (_ <? 0) eqn:E; [apply Z.ltb_lt in E; lia | ].
    rewrite <- Hargv, nth_error_skipn. f_equal. lia. }
  cbn [argp_loop]. unfold bind at 1.
  assert (Hvia : parse ARGP_KEY_ARG (Some "via") (advance st 1) a e w
            = (PReturn 0 {| Coprocessor.mem_base := Coprocessor.mem_base a;
                            Coprocessor.mem_size := Coprocessor.mem_size a;
                            Coprocessor.connection := fields_connection p fs |},
               add_calls (via_logs fs) w)).
  { unfold parse, Coprocessor.parse_opt_run.
    cbn [key_is_arg arg_text andb]. change (String.eqb "via" "via") with true.
    cbv iota. unfold bind at 1. unfold ArgHelper.parse_via.
    cbn [advance argc next] in *.
    destruct (_ >=? argc st) eqn:Eg;
      [rewrite Z.geb_leb in Eg; apply Z.leb_le in Eg; lia | ].
    pose proof (Hat 1) as H0. pose proof (Hat 2) as H1.
    pose proof (Hat 3) as H2. pose proof (Hat 4) as H3.
    pose proof (Hat 5) as H4.
    change (Z.to_nat (1 - 1)) with 0%nat in H0.
    change (Z.to_nat (2 - 1)) with 1%nat in H1.
    change (Z.to_nat (3 - 1)) with 2%nat in H2.
    change (Z.to_nat (4 - 1)) with 3%nat in H3.
    change (Z.to_nat (5 - 1)) with 4%nat in H4.
    destruct Hlen as [Hl | Hl].
    - destruct fs as [ | f1 [ | f2 fs]]; try discriminate Hl.
      replace (argc st - (next st + 1 - 1) - 1) with 1
        by (cbn [List.length] in Hc; lia).
      cbv beta iota zeta delta [bind pure ext record fst snd].
      cbn [Z.eqb negb andb Pos.eqb trace errno registry
           Connection.interface Connection.ip Connection.username
           Connection.password Connection.port].
      rewrite (H0 ltac:(cbn; lia)). cbn [nth_error fields_connection].
      rewrite Hconn. unfold add_calls, via_logs.
      cbn [List.length Nat.eqb app Connection.connection_args_zero
           Connection.interface Connection.ip Connection.username
           Connection.password Connection.port].
      rewrite <- app_assoc. reflexivity.
    - destruct fs as [ | f1 [ | f2 [ | f3 [ | f4 [ | f5 [ | f6 fs]]]]]];
        try discriminate Hl.
      replace (argc st - (next st + 1 - 1) - 1) with 5
        by (cbn [List.length] in Hc; lia).
      cbv beta iota zeta delta [bind pure ext record fst snd].
      cbn [Z.eqb negb andb Pos.eqb trace errno registry
           Connection.interface Connection.ip Connection.username
           Connection.password Connection.port].
      rewrite (H0 ltac:(cbn; lia)), (H1 ltac:(cbn; lia)), (H2 ltac:(cbn; lia)),
        (H3 ltac:(cbn; lia)), (H4 ltac:(cbn; lia)).
      cbn [nth_error fields_connection].
      unfold add_calls, via_logs. cbn [List.length Nat.eqb app].
      rewrite <- !app_assoc. reflexivity. }
  rewrite Hvia. cbn [Z.eqb].
  rewrite run_loop_fields;
    [reflexivity | cbn [count_arg advance arg_num]; lia | exact Hv].
Qed.

End RunSteps.

Lemma run_cmd_coprocessor_run (p : abi) (parent : string) (toks : list token)
  (e : env) (a : Coprocessor.cmd_copressor_run_args) (w : world) :
  found e (malloc (name_size parent "run")) ->
  argp_loop (Coprocessor.parse_opt_run p) toks
    (initial_state (parent ++ " " ++ "run") toks)
    Coprocessor.cmd_copressor_run_args_zero e
    (record (malloc (name_size parent "run")) (world0 e)) = (Parsed 0 a, w) ->
  run (Coprocessor.cmd_coprocessor_run p parent toks) e
    = Coprocessor.cmd_coprocessor_run_parsed p a e w.
Proof.
  intros Hm Hl. unfold run, Coprocessor.cmd_coprocessor_run. unfold bind at 1.
  pose proof (parse_subcommand_run (Coprocessor.parse_opt_run p) "run"
                Coprocessor.cmd_copressor_run_args_zero parent toks e Hm) as Hp.
  unfold run in Hp. rewrite Hp, Hl. reflexivity.
Qed.

(** Property X19.
    What coprocessor run makes of its line.  With a base and a size that
    [strtoul] converts whole, the size being 32 MiB, and after [via] one
    or five fields, none of which is the word [via], the command runs on
    that base and size with the connection of those fields.  The size can
    be left out when [via] follows the base: the line is accepted and the
    command runs with a size of 0.  Base, size and fields are plain
    words: none begins with [-]. *)
Theorem coprocessor_run_line (p : abi) (parent : string) (b : string)
  (base : Z) (fs : list string) (e : env) :
  found e (malloc (name_size parent "run")) ->
  whole_number p b base ->
  plain_word b = true ->
  (List.length fs = 1 \/ List.length fs = 5)%nat ->
  ~ In "via" fs ->
  forallb plain_word fs = true ->
  let w1 := add_calls (malloc (name_size parent "run") :: via_logs fs)
              (world0 e) in
  (forall s,
     plain_word s = true ->
     whole_number p s Coprocessor.COPROC_TOTAL_MEM_SIZE ->
     run (Coprocessor.cmd_coprocessor_run p parent
            (TArg b :: TArg s :: TArg "via" :: map TArg fs)) e
       = Coprocessor.cmd_coprocessor_run_parsed p
           {| Coprocessor.mem_base := base;
              Coprocessor.mem_size := Coprocessor.COPROC_TOTAL_MEM_SIZE;
              Coprocessor.connection := fields_connection p fs |} e w1) /\
  run (Coprocessor.cmd_coprocessor_run p parent
         (TArg b :: TArg "via" :: map TArg fs)) e
    = Coprocessor.cmd_coprocessor_run_parsed p
        {| Coprocessor.mem_base := base;
           Coprocessor.mem_size := 0;
           Coprocessor.connection := fields_connection p fs |} e w1.
Proof.
  intros Hm Hb _ Hlen Hv _ w1.
  assert (Hwords : flat_map words (map TArg fs) = fs).
  { clear. induction fs as [ | x fs IH]; [reflexivity | ].
    cbn [map flat_map words app]. now rewrite IH. }
  assert (Hcount : count_words (map TArg fs) = Z.of_nat (List.length fs)).
  { unfold count_words. now rewrite Hwords. }
  split.
  - intros s _ Hs. apply run_cmd_coprocessor_run; [exact Hm | ].
    remember (TArg "via" :: map TArg fs) as tail eqn:Htail.
    cbn [argp_loop]. unfold bind at 1.
    rewrite (run_arg_base p b base); [ | reflexivity | exact Hb].
    cbn [Z.eqb]. unfold bind at 1.
    rewrite (run_arg_size p s); [ | reflexivity | exact Hs].
    cbn [Z.eqb]. subst tail.
    rewrite (run_loop_via_fields p e fs);
      [ | cbn; lia | reflexivity | exact Hlen | exact Hv | | | ].
    + reflexivity.
    + cbn [count_arg advance initial_state argc next List.length flat_map
           words app]. rewrite Hwords. lia.
    + cbn [count_arg advance initial_state argv next flat_map words app].
      rewrite Hwords. reflexivity.
    + cbn. lia.
  - apply run_cmd_coprocessor_run; [exact Hm | ].
    remember (TArg "via" :: map TArg fs) as tail eqn:Htail.
    cbn [argp_loop]. unfold bind at 1.
    rewrite (run_arg_base p b base); [ | reflexivity | exact Hb].
    cbn [Z.eqb]. subst tail.
    rewrite (run_loop_via_fields p e fs);
      [ | cbn; lia | reflexivity | exact Hlen | exact Hv | | | ].
    + reflexivity.
    + cbn [count_arg advance initial_state argc next List.length flat_map
           words app]. rewrite Hwords. lia.
    + cbn [count_arg advance initial_state argv next flat_map words app].
      rewrite Hwords. reflexivity.
    + cbn. lia.
Qed.

Lemma coprocessor_run_line_witness :
  run (Coprocessor.cmd_coprocessor_run LP64 "culvert coprocessor"
         [TArg "0x80000000"; TArg "via"; TArg "debug-uart"])
      (ast2600 healthy [])
    = Coprocessor.cmd_coprocessor_run_parsed LP64
        {| Coprocessor.mem_base := 0x80000000;
           Coprocessor.mem_size := 0;
           Coprocessor.connection := fields_connection LP64 ["debug-uart"] |}
        (ast2600 healthy [])
        (add_calls (malloc (name_size "culvert coprocessor" "run")
                      :: via_logs ["debug-uart"])
           (world0 (ast2600 healthy []))).
Proof.
  refine (proj2 (coprocessor_run_line LP64 "culvert coprocessor" "0x80000000"
    0x80000000 ["debug-uart"] (ast2600 healthy []) _ _ eq_refl _ _ eq_refl)).
  - intros h. cbn. lia.
  - vm_compute. repeat split.
  - now left.
  - cbn. intros [H | []]. discriminate H.
Defined.

(** ** coprocessor run: the steps of a start *)

Ltac coproc_cases H :=
  repeat (exec_coproc_in H;
          lazymatch type of H with
          | _ = (if ?b then _ else _) _ _ => destruct b eqn:?
          | context [(if ?b then _ else _) _ _] => destruct b eqn:?
          | context [if ?b then _ else _] => destruct b eqn:?
          end);
  exec_coproc_in H.

(** Property X20.
    coprocessor run returns success or failure, and success exactly when
    it has made the calls of a start, in order and nothing else: the
    bridge opened and the SoC probed, the coprocessor disabled and held in
    reset, the firmware loaded from standard input, the memory and cache
    registers written, the reset released and the coprocessor enabled,
    then all released. *)
Theorem coprocessor_run_success (p : abi)
  (a : Coprocessor.cmd_copressor_run_args) (e : env) (w : world) :
  let r := Coprocessor.cmd_coprocessor_run_parsed p a e w in
  (fst r = Return EXIT_SUCCESS \/ fst r = Return EXIT_FAILURE) /\
  (fst r = Return EXIT_SUCCESS <->
   trace (snd r) = trace w ++ run_sequence p a).
Proof.
  cbv zeta.
  remember (Coprocessor.cmd_coprocessor_run_parsed p a e w) as res eqn:Hres.
  unfold Coprocessor.cmd_coprocessor_run_parsed in Hres.
  coproc_cases Hres; subst res; cbn [fst snd trace]; norm_app;
    (split; [auto | ]);
    (split; [try discriminate; intros _; reflexivity | ]);
    intros H; apply app_inv_head in H; try discriminate H; reflexivity.
Qed.

(** ** coprocessor stop *)

Lemma stop_loop_word (t : token) (rest : list token) (st : argp_state)
  (e : env) (w : world) :
  exists fmt,
    argp_loop Coprocessor.parse_opt_stop (t :: rest) st tt e w
      = (Exited EX_USAGE, record (argp_error fmt) w).
Proof.
  destruct t as [c | c arg | arg]; eexists; reflexivity.
Qed.

Lemma stop_loop_empty (argv0 : string) (e : env) (w : world) :
  argp_loop Coprocessor.parse_opt_stop [] (initial_state argv0 []) tt e w
    = (Parsed 0 tt, w).
Proof. reflexivity. Qed.

(** Property X21.
    coprocessor stop takes nothing on its line: a plain word or an option
    there, other than those argp answers by itself, ends the process with
    [EX_USAGE] before anything is opened.  On an empty line [host_init]
    is given one word, the buffer of the command's name, and the command
    returns success only when it has made the calls of a stop, in order
    and nothing else.  Nothing is said of what that one word holds: the
    buffer has no room for the terminator of the name. *)
Theorem coprocessor_stop_line (parent : string) (e : env) :
  found e (malloc (name_size parent "stop")) ->
  (forall t rest,
     getopt_token [] [] t = true ->
     exists fmt,
       run (Coprocessor.cmd_coprocessor_stop parent (t :: rest)) e
         = (Exit EX_USAGE,
            add_calls [malloc (name_size parent "stop"); argp_error fmt]
              (world0 e))) /\
  (let r := run (Coprocessor.cmd_coprocessor_stop parent []) e in
   (forall argc argv,
      In (host_init argc argv) (trace (snd r)) -> argc = 1) /\
   (fst r = Return EXIT_SUCCESS ->
    exists argv, trace (snd r) = stop_sequence parent argv)).
Proof.
  intros Hm. split.
  - intros t rest _.
    destruct (stop_loop_word t rest
                (initial_state (parent ++ " " ++ "stop") (t :: rest)) e
                (record (malloc (name_size parent "stop")) (world0 e)))
      as [fmt Hl].
    exists fmt. unfold run, Coprocessor.cmd_coprocessor_stop.
    unfold bind at 1.
    pose proof (parse_subcommand_run Coprocessor.parse_opt_stop "stop" tt
                  parent (t :: rest) e Hm) as Hp.
    unfold run in Hp. rewrite Hp, Hl. reflexivity.
  - cbv zeta.
    remember (run (Coprocessor.cmd_coprocessor_stop parent []) e) as res
      eqn:Hres.
    unfold run, Coprocessor.cmd_coprocessor_stop in Hres.
    unfold bind at 1 in Hres.
    pose proof (parse_subcommand_run Coprocessor.parse_opt_stop "stop" tt
                  parent [] e Hm) as Hp.
    unfold run in Hp. rewrite Hp, stop_loop_empty in Hres. clear Hp.
    cbv beta iota zeta delta [fst snd] in Hres.
    cbn [ArgHelper.sub_argc ArgHelper.sub_argv count_words flat_map
         List.length Z.of_nat Z.add] in Hres.
    coproc_cases Hres; subst res; cbn [fst snd trace app]; split;
      try (intros H; discriminate H);
      try (intros argc argv H;
           repeat (cbn [In] in H; destruct H as [H | H];
                   [try discriminate H; inversion H; reflexivity | ]);
           contradiction).
    all: intros _; eexists; reflexivity.
Qed.

(** ** The words handed to [host_init] *)

Lemma words_length (t : token) : (1 <= List.length (words t))%nat.
Proof. destruct t; cbn; lia. Qed.

Lemma args_le_words (toks : list token) :
  (List.length (filter is_arg toks) <= List.length (flat_map words toks))%nat.
Proof.
  induction toks as [ | t toks IH]; [reflexivity | ].
  cbn [filter flat_map]. rewrite length_app.
  pose proof (words_length t).
  destruct (is_arg t); cbn [List.length]; lia.
Qed.

Lemma host_argv_last (parent name : string) (toks : list token) :
  host_argv (subcommand_for parent name toks) (count_args toks)
    = last_words toks.
Proof.
  unfold host_argv, subcommand_for, last_words, count_args, count_words.
  cbn [ArgHelper.sub_argc ArgHelper.sub_argv].
  pose proof (args_le_words toks) as Hle.
  replace (Z.to_nat _)
    with (S (List.length (flat_map words toks)
             - List.length (filter is_arg toks))) by lia.
  reflexivity.
Qed.

Lemma filter_args (args : list string) :
  filter is_arg (map TArg args) = map TArg args.
Proof.
  induction args as [ | x args IH]; [reflexivity | ].
  cbn [map filter is_arg]. now rewrite IH.
Qed.

Lemma filter_options (opts : list token) :
  forallb (fun t => negb (is_arg t)) opts = true -> filter is_arg opts = [].
Proof.
  induction opts as [ | t opts IH]; [reflexivity | ].
  cbn [forallb filter]. intros H. apply andb_true_iff in H as [Ht Ho].
  apply negb_true_iff in Ht. rewrite Ht. now apply IH.
Qed.

Lemma last_words_args (opts : list token) (args : list string) :
  forallb (fun t => negb (is_arg t)) opts = true ->
  last_words (opts ++ map TArg args) = args.
Proof.
  intros Ho. unfold last_words. cbv zeta.
  rewrite flat_map_app, filter_app, (filter_options opts Ho), filter_args.
  rewrite flat_map_words_plain. cbn [app]. rewrite length_app, length_map.
  replace (_ - _)%nat with (List.length (flat_map words opts)) by lia.
  rewrite skipn_app, skipn_all, Nat.sub_diag. reflexivity.
Qed.

Lemma local_no_host_init (tr : list call) :
  forallb local tr = true -> filter is_host_init tr = [].
Proof.
  induction tr as [ | c tr IH]; [reflexivity | ].
  cbn [forallb filter]. intros H. apply andb_true_iff in H as [Hc Ht].
  destruct c; try discriminate; cbn; auto.
Qed.

Lemma in_host_init (n : Z) (ws : list string) (tr : list call) (c : call) :
  filter is_host_init tr = [c] ->
  In (host_init n ws) tr -> c = host_init n ws.
Proof.
  intros Hf Hin.
  assert (H : In (host_init n ws) (filter is_host_init tr))
    by (apply filter_In; split; [exact Hin | reflexivity]).
  rewrite Hf in H. destruct H as [H | []]. exact H.
Qed.

Lemma write_loop_host_init (e : env) (input : list read_result) :
  forall (len addr rc : Z) (w : world),
  filter is_host_init (trace (snd (Sfc.write_loop input len addr rc e w)))
    = filter is_host_init (trace w).
Proof.
  induction input as [ | r rest IH]; intros len addr rc w.
  - cbn. rewrite filter_app. cbn. now rewrite app_nil_r.
  - cbn [Sfc.write_loop]. unfold bind at 1.
    destruct r as [n | err]; cbn [Sfc.do_read].
    + cbn [Z.eqb Z.ltb Z.compare]. unfold bind at 1. cbn [ext].
      destruct (_ <? 0).
      * cbn. rewrite !filter_app. cbn. now rewrite !app_nil_r.
      * rewrite IH. cbn. rewrite !filter_app. cbn. now rewrite !app_nil_r.
    + cbn. rewrite filter_app. cbn. now rewrite app_nil_r.
Qed.

Ltac host_init_leaf Hd :=
  cbn [fst snd trace]; rewrite ?filter_app, ?Hd;
  cbn [filter is_host_init app]; reflexivity.

Ltac exec_sfc_in H :=
  cbv beta iota zeta delta
      [bind pure ext sys ask set_errno get_errno do_perror record fst snd
       Sfc.cleanup_host Sfc.cleanup_soc Sfc.cleanup_flash] in H;
  cbn [trace errno registry] in H.

Lemma sfc_host_init (a : Sfc.cmd_sfc_args) (sub : ArgHelper.subcommand)
  (e : env) (w1 : world) :
  forallb local (trace w1) = true ->
  filter is_host_init (trace (snd (Sfc.cmd_sfc_parsed a sub e w1)))
    = [host_init (Sfc.key_arg_count a)
         (host_argv sub (Sfc.key_arg_count a))].
Proof.
  intros Hloc. pose proof (local_no_host_init _ Hloc) as Hd.
  remember (Sfc.cmd_sfc_parsed a sub e w1) as r eqn:Hr.
  unfold Sfc.cmd_sfc_parsed in Hr.
  do 5 (exec_sfc_in Hr;
        lazymatch type of Hr with
        | _ = (if ?b then _ else _) _ _ =>
            destruct b; [exec_sfc_in Hr; subst r; host_init_leaf Hd | ]
        end).
  destruct (Sfc.op a =? Sfc.flash_op_read).
  - repeat (exec_sfc_in Hr;
            lazymatch type of Hr with
            | _ = (if ?b then _ else _) _ _ => destruct b
            | context [(if ?b then _ else _) _ _] => destruct b
            | context [if ?b then _ else _] => destruct b
            end);
      exec_sfc_in Hr; subst r; host_init_leaf Hd.
  - destruct (Sfc.op a =? Sfc.flash_op_write).
    + exec_sfc_in Hr.
      lazymatch type of Hr with
      | _ = (if ?b then _ else _) _ _ =>
          destruct b; [exec_sfc_in Hr; subst r; host_init_leaf Hd | ]
      end.
      exec_sfc_in Hr.
      lazymatch type of Hr with
      | context [Sfc.write_loop ?i ?l ?ad ?rc e ?w0] =>
          pose proof (write_loop_host_init e i l ad rc w0) as Hw;
          destruct (Sfc.write_loop i l ad rc e w0) as [[addr' rc'] wl]
      end.
      cbn [snd trace] in Hw. subst r. cbn [fst snd trace].
      rewrite !filter_app, Hw, !filter_app, Hd. reflexivity.
    + repeat (exec_sfc_in Hr;
              lazymatch type of Hr with
              | _ = (if ?b then _ else _) _ _ => destruct b
              | context [(if ?b then _ else _) _ _] => destruct b
              | context [if ?b then _ else _] => destruct b
              end);
        exec_sfc_in Hr; subst r; host_init_leaf Hd.
Qed.

(** The count of plain arguments read firmware ends with. *)
Lemma firmware_parsed_line (parent : string) (toks : list token) (e : env)
  (k : Z) (sub : ArgHelper.subcommand) (w1 : world) :
  run (ArgHelper.parse_subcommand Read.parse_opt_firmware "firmware" 0
         parent toks) e = (ArgHelper.SubParsed k sub, w1) ->
  k = count_args toks.
Proof.
  intros Hp.
  destruct (parse_subcommand_parsed _ _ _ _ _ _ _ _ _ Hp)
    as [[err [w0 Hl]] _].
  assert (He : err = 0).
  { apply (argp_loop_code Read.parse_opt_firmware) with (toks := toks)
      (st := initial_state (parent ++ " " ++ "firmware") toks)
      (a := 0) (e := e) (w := w0) (a' := k); [ | now rewrite Hl].
    intros k0 arg st a1 e1 w2 err1 a2 H. unfold goes.
    destruct k0; cbn in H; inversion H; auto. }
  subst err.
  apply (argp_loop_tracks Read.parse_opt_firmware
           (fun done a => a = count_args done))
    with (done := []) (st := initial_state (parent ++ " " ++ "firmware") toks)
         (a := 0) (e := e) (w := w0) (toks := toks).
  - intros done t st a1 e1 w2 err a2 _ Ha H _. rewrite count_args_app.
    destruct t; cbn in H; inversion H; subst; cbn; lia.
  - intros arg st a1 e1 w2 err a2 H. cbn in H. inversion H. discriminate.
  - intros done k0 st a1 e1 w2 err a2 [-> | ->] Ha H; cbn in H;
      inversion H; now subst.
  - reflexivity.
  - reflexivity.
  - exact (f_equal fst Hl).
Qed.

Lemma sfc_parsed_line (p : abi) (parent : string) (toks : list token)
  (e : env) (a : Sfc.cmd_sfc_args) (sub : ArgHelper.subcommand) (w1 : world) :
  run (ArgHelper.parse_subcommand (Sfc.parse_opt p) "sfc"
         Sfc.cmd_sfc_args_init parent toks) e
    = (ArgHelper.SubParsed a sub, w1) ->
  sfc_line toks a.
Proof.
  intros Hp.
  destruct (parse_subcommand_parsed _ _ _ _ _ _ _ _ _ Hp)
    as [[err [w0 Hl]] _].
  assert (He : err = 0).
  { apply (argp_loop_code (Sfc.parse_opt p) (sfc_codes p) toks
             (initial_state (parent ++ " " ++ "sfc") toks)
             Sfc.cmd_sfc_args_init e w0 err a). now rewrite Hl. }
  subst err.
  apply (argp_loop_tracks (Sfc.parse_opt p) sfc_line (sfc_tracks p))
    with (done := []) (st := initial_state (parent ++ " " ++ "sfc") toks)
         (a := Sfc.cmd_sfc_args_init) (e := e) (w := w0).
  - intros arg st a1 e1 w2 err a2 H. cbn in H. inversion H. discriminate.
  - intros done k st a1 e1 w2 err a2 [-> | ->] Ha H.
    + cbn in H. inversion H. now subst.
    + unfold Sfc.parse_opt in H.
      repeat match type of H with
             | context [if ?b then _ else _] => destruct b
             | context [match ?x with _ => _ end] => destruct x
             end; cbn in H; inversion H; now subst.
  - reflexivity.
  - repeat split.
  - exact (f_equal fst Hl).
Qed.

Lemma parsed_subcommand_for {A} (f : parser A) (name : string) (a0 : A)
  (parent : string) (toks : list token) (e : env) (a : A)
  (sub : ArgHelper.subcommand) (w1 : world) :
  run (ArgHelper.parse_subcommand f name a0 parent toks) e
    = (ArgHelper.SubParsed a sub, w1) ->
  sub = subcommand_for parent name toks.
Proof.
  intros Hp. exact (proj2 (parse_subcommand_parsed _ _ _ _ _ _ _ _ _ Hp)).
Qed.

Ltac host_init_cases exec Hr Hd :=
  repeat (exec Hr;
          lazymatch type of Hr with
          | _ = (if ?b then _ else _) _ _ => destruct b
          | context [(if ?b then _ else _) _ _] => destruct b
          | context [if ?b then _ else _] => destruct b
          end);
  exec Hr;
  match type of Hr with
  | ?r = _ => subst r
  end;
  host_init_leaf Hd.

Ltac exec_probe_in H :=
  cbv beta iota zeta delta
      [bind pure ext sys ask set_errno get_errno do_perror record fst snd
       Probe.cleanup_host Probe.cleanup_soc] in H;
  cbn [trace errno registry] in H.

(** Property X8.
    The words probe, sfc and read firmware hand to [host_init].  Each of
    them calls [host_init] with the count of the line's plain arguments
    and as many words from the end of the line.  These are the plain
    arguments when no option follows them; an option after the plain
    arguments is handed over in place of the first of them. *)
Theorem host_init_words (p : abi) (parent : string) :
  (forall toks e n ws,
     In (host_init n ws) (trace_of (Probe.cmd_probe p parent toks) e) \/
     In (host_init n ws) (trace_of (Sfc.cmd_sfc p parent toks) e) \/
     In (host_init n ws)
        (trace_of (Read.cmd_read_firmware parent toks) e) ->
     n = count_args toks /\ ws = last_words toks) /\
  (forall opts args,
     forallb (fun t => negb (is_arg t)) opts = true ->
     last_words (opts ++ map TArg args) = args) /\
  (forall x args c,
     last_words (map TArg (x :: args) ++ [TFlag c]) = args ++ [dash c]).
Proof.
  split; [ | split].
  - intros toks e n ws [H | [H | H]]; unfold trace_of, run in H.
    + unfold Probe.cmd_probe in H. unfold bind at 1 in H.
      pose proof (quiet_run_local
                    (ArgHelper.parse_subcommand (Probe.parse_opt p) "probe"
                       Probe.cmd_probe_args_zero parent toks) e
                    (quiet_parse_subcommand _ _ _ _ _
                       (quiet_probe_parse_opt p))) as Hloc.
      pose proof (local_no_host_init _ Hloc) as Hd.
      unfold run in Hloc, Hd.
      destruct (ArgHelper.parse_subcommand _ _ _ _ _ e (world0 e))
        as [[a sub | s] w1] eqn:Hp; cbn [snd] in Hloc, Hd.
      * match type of H with
        | In _ (trace (snd ?x)) =>
            assert (Hf : filter is_host_init (trace (snd x))
                         = [host_init (Probe.key_arg_count a)
                              (host_argv sub (Probe.key_arg_count a))])
        end.
        { match goal with
          | |- filter _ (trace (snd ?x)) = _ => remember x as r eqn:Hr
          end.
          host_init_cases exec_probe_in Hr Hd. }
        pose proof (in_host_init n ws _ _ Hf H) as Heq. inversion Heq.
        destruct (probe_parsed_line p parent toks e a sub w1 Hp) as (Hk & _).
        rewrite (parsed_subcommand_for _ _ _ _ _ _ _ _ _ Hp), Hk.
        split; [reflexivity | apply host_argv_last].
      * cbn [pure snd] in H. exfalso.
        assert (Hin : In (host_init n ws) (filter is_host_init (trace w1)))
          by (apply filter_In; split; [exact H | reflexivity]).
        rewrite Hd in Hin. exact Hin.
    + unfold Sfc.cmd_sfc in H. unfold bind at 1 in H.
      pose proof (quiet_run_local
                    (ArgHelper.parse_subcommand (Sfc.parse_opt p) "sfc"
                       Sfc.cmd_sfc_args_init parent toks) e
                    (quiet_parse_subcommand _ _ _ _ _
                       (quiet_sfc_parse_opt p))) as Hloc.
      pose proof (local_no_host_init _ Hloc) as Hd.
      unfold run in Hloc, Hd.
      destruct (ArgHelper.parse_subcommand _ _ _ _ _ e (world0 e))
        as [[a sub | s] w1] eqn:Hp; cbn [snd] in Hloc, Hd.
      * pose proof (in_host_init n ws _ _ (sfc_host_init a sub e w1 Hloc) H)
          as Heq. inversion Heq.
        destruct (sfc_parsed_line p parent toks e a sub w1 Hp) as (Hk & _).
        rewrite (parsed_subcommand_for _ _ _ _ _ _ _ _ _ Hp), Hk.
        split; [reflexivity | apply host_argv_last].
      * cbn [pure snd] in H. exfalso.
        assert (Hin : In (host_init n ws) (filter is_host_init (trace w1)))
          by (apply filter_In; split; [exact H | reflexivity]).
        rewrite Hd in Hin. exact Hin.
    + unfold Read.cmd_read_firmware in H. unfold bind at 1 in H.
      pose proof (quiet_run_local
                    (ArgHelper.parse_subcommand Read.parse_opt_firmware
                       "firmware" 0 parent toks) e
                    (quiet_parse_subcommand _ _ _ _ _
                       quiet_parse_opt_firmware)) as Hloc.
      pose proof (local_no_host_init _ Hloc) as Hd.
      unfold run in Hloc, Hd.
      destruct (ArgHelper.parse_subcommand _ _ _ _ _ e (world0 e))
        as [[k sub | s] w1] eqn:Hp; cbn [snd] in Hloc, Hd.
      * match type of H with
        | In _ (trace (snd ?x)) =>
            assert (Hf : filter is_host_init (trace (snd x))
                         = [host_init k (host_argv sub k)])
        end.
        { match goal with
          | |- filter _ (trace (snd ?x)) = _ => remember x as r eqn:Hr
          end.
          host_init_cases exec_read_in Hr Hd. }
        pose proof (in_host_init n ws _ _ Hf H) as Heq.
        pose proof (firmware_parsed_line parent toks e k sub w1 Hp) as Hk.
        pose proof (parsed_subcommand_for _ _ _ _ _ _ _ _ _ Hp) as Hs.
        inversion Heq. subst.
        split; [reflexivity | apply host_argv_last].
      * cbn [pure snd] in H. exfalso.
        assert (Hin : In (host_init n ws) (filter is_host_init (trace w1)))
          by (apply filter_In; split; [exact H | reflexivity]).
        rewrite Hd in Hin. exact Hin.
  - exact last_words_args.
  - intros x args c. unfold last_words. cbv zeta.
    rewrite flat_map_app, filter_app, filter_args, flat_map_words_plain.
    cbn [flat_map words filter is_arg app map List.length].
    rewrite !length_app, !length_map. cbn [List.length].
    replace (_ - _)%nat with 1%nat by lia. reflexivity.
Qed.

Lemma host_init_words_witness :
  1 = count_args [TArg "devmem"; TFlag "l"] /\
  [dash "l"] = last_words [TArg "devmem"; TFlag "l"].
Proof.
  apply (proj1 (host_init_words LP64 "culvert")
           [TArg "devmem"; TFlag "l"] (ast2600 healthy []) 1 [dash "l"]).
  left. vm_compute. tauto.
Defined.

(** ** parse_subcommand: the buffer of the name *)

Lemma string_length_append (s1 s2 : string) :
  String.length (s1 ++ s2) = (String.length s1 + String.length s2)%nat.
Proof.
  induction s1 as [ | c s1 IH]; [reflexivity | ].
  cbn [String.append String.length]. now rewrite IH.
Qed.

Lemma name_size_length (parent name : string) :
  name_size parent name
    = Z.of_nat (String.length (parent ++ " " ++ name)).
Proof.
  unfold name_size. rewrite !string_length_append. cbn [String.length]. lia.
Qed.

(** Property X22.
    The buffer [parse_subcommand] allocates for the name of the
    sub-command has the size of the name it stores there, "parent name",
    with no byte left for the terminator of the string.  The allocation
    is the first call made. *)
Theorem parse_subcommand_buffer {A} (f : parser A) (name : string) (a0 : A)
  (parent : string) (toks : list token) (e : env) (a : A)
  (sub : ArgHelper.subcommand) (w1 : world) :
  (forall k arg st a, quiet (f k arg st a)) ->
  run (ArgHelper.parse_subcommand f name a0 parent toks) e
    = (ArgHelper.SubParsed a sub, w1) ->
  let argv0 := (parent ++ " " ++ name)%string in
  hd_error (ArgHelper.sub_argv sub) = Some argv0 /\
  hd_error (trace w1) = Some (malloc (Z.of_nat (String.length argv0))).
Proof.
  intros Hq Hp argv0. subst argv0.
  rewrite (parsed_subcommand_for f name a0 parent toks e a sub w1 Hp).
  split; [reflexivity | ].
  rewrite <- name_size_length.
  unfold run, ArgHelper.parse_subcommand, argp_parse in Hp.
  unfold bind at 1 in Hp. cbn [ext] in Hp. fold (name_size parent name) in Hp.
  destruct (_ =? 0); [discriminate Hp | ].
  unfold bind at 1 in Hp.
  match type of Hp with
  | context [argp_loop f toks ?st a0 e ?w] =>
      pose proof (quiet_argp_loop f Hq toks st a0 e w) as Hl;
      destruct (argp_loop f toks st a0 e w) as [[err a' | s] w2]
  end; cbn [pure] in Hp; [ | discriminate Hp].
  inversion Hp. subst. cbn [snd] in Hl. destruct Hl as [evs [Ht _]].
  rewrite Ht. reflexivity.
Qed.

Lemma parse_subcommand_buffer_witness :
  let e := ast2600 healthy [] in
  let r := run (ArgHelper.parse_subcommand (Probe.parse_opt LP64) "probe"
                  Probe.cmd_probe_args_zero "culvert" [TArg "devmem"]) e in
  hd_error [ "culvert probe"; "devmem" ] = Some "culvert probe" /\
  hd_error (trace (snd r)) = Some (malloc 13).
Proof.
  exact (parse_subcommand_buffer (Probe.parse_opt LP64) "probe"
           Probe.cmd_probe_args_zero "culvert" [TArg "devmem"]
           (ast2600 healthy [])
           {| Probe.interface := Some "devmem"; Probe.ip := None;
              Probe.port := 0; Probe.username := None;
              Probe.password := None; Probe.iface := None;
              Probe.requirement := bm_permissive;
              Probe.key_arg_count := 1; Probe.list_ifaces := 0 |}
           {| ArgHelper.sub_name := "probe"; ArgHelper.sub_argc := 2;
              ArgHelper.sub_argv := [ "culvert probe"; "devmem" ] |}
           _ (quiet_probe_parse_opt LP64) eq_refl).
Defined.

(** ** The properties on worked examples *)

Lemma main_list_bridges_witness :
  run (Culvert.main (fun _ => returns 0)
         ([TFlag "v"] ++ TFlag "l" :: [TArg "probe"])) (ast2600 healthy [])
    = (Exit EXIT_SUCCESS,
       add_calls (log_set_level "level_info"
                  :: verbosity_calls [TFlag "v"] ++ [print_bridge_drivers])
         (world0 (ast2600 healthy []))).
Proof.
  exact (main_list_bridges (fun _ => returns 0) (ast2600 healthy [])
           [TFlag "v"] [TArg "probe"] eq_refl).
Defined.

Lemma main_usage_witness :
  run (Culvert.main (fun _ => returns 0) ([TFlag "q"] ++ TArg "flash" :: []))
      (ast2600 healthy [])
    = (Exit EX_USAGE,
       add_calls (log_set_level "level_info"
                  :: verbosity_calls [TFlag "q"] ++ [argp_usage])
         (world0 (ast2600 healthy []))).
Proof.
  refine (proj2 (main_usage (fun _ => returns 0) (ast2600 healthy [])
                   [TFlag "q"] eq_refl) "flash" [] eq_refl eq_refl _).
  vm_compute. discriminate.
Defined.

Lemma main_dispatch_witness :
  run (Culvert.main (fun _ => returns 5) ([] ++ TArg "probe" :: [TFlag "l"]))
      (ast2600 healthy [])
    = (Exit EXIT_FAILURE,
       add_calls [log_set_level "level_info"] (world0 (ast2600 healthy []))).
Proof.
  refine (main_dispatch (fun _ => returns 5) (ast2600 healthy []) []
            [TFlag "l"] "probe" eq_refl eq_refl _).
  vm_compute. discriminate.
Defined.

Lemma main_args_stores_witness :
  Culvert.args_stores
    (state_after "culvert" [] (TArg "probe" :: [TArg "devmem"; TFlag "l"]))
    = [(0, Some "probe"); (1, Some "devmem"); (2, Some "-l")] /\
  ~ Forall (fun s => fst s < Culvert.ARGS_SLOTS)
      (Culvert.args_stores
         (state_after "culvert" []
            (TArg "probe" :: [TArg "devmem"; TFlag "l"]))).
Proof.
  pose proof (main_args_stores (fun _ => returns 0) (ast2600 healthy []) []
                [TArg "devmem"; TFlag "l"] "probe" eq_refl) as H.
  cbv zeta in H. destruct H as (_ & Hs & Hb). split.
  - exact Hs.
  - intros Hf. apply Hb in Hf. vm_compute in Hf. apply Hf. reflexivity.
Defined.

Lemma read_dispatch_witness :
  let e := ast2600 healthy [] in
  run (Read.cmd_read (returns 7) (returns 0) "culvert"
         (map TArg ("firmware" :: ["devmem"]))) e
    = (Return 0, record (malloc (name_size "culvert" "read")) (world0 e)).
Proof.
  refine (proj1 (proj2 (proj2 (read_dispatch (returns 7) (returns 0)
            "culvert" (ast2600 healthy []) _)))
            "firmware" (returns 7) ["devmem"] _ eq_refl).
  - intros h. cbn. lia.
  - left. split; reflexivity.
Defined.

Lemma coprocessor_dispatch_witness :
  let e := ast2600 healthy [] in
  run (Coprocessor.cmd_coprocessor (returns 0) (returns 0) "culvert"
         (map TArg ("run" :: ["0x80000000"; "0x2000000"]))) e
    = (Return EXIT_FAILURE,
       record (malloc (name_size "culvert" "coprocessor")) (world0 e)).
Proof.
  refine (proj2 (proj2 (coprocessor_dispatch (returns 0) (returns 0)
            "culvert" (ast2600 healthy []) _))
            "run" (returns 0) ["0x80000000"; "0x2000000"] _ eq_refl).
  - intros h. cbn. lia.
  - left. split; reflexivity.
Defined.

Lemma probe_exit_status_witness :
  run (Probe.cmd_probe LP64 "culvert" probe_integrity_line)
      (ast2600 healthy [])
    = (Exit EXIT_SUCCESS,
       {| trace := [ malloc 13; host_init 1 ["devmem"]; host_get_ahb;
                     soc_probe; soc_probe_bridge_controllers None;
                     soc_destroy; host_destroy ];
          errno := 0;
          registry := bridge_drivers (ast2600 healthy []) |}).
Proof.
  refine (proj1 (proj2 (proj2 (probe_exit_status LP64 "culvert"
    probe_integrity_line (ast2600 healthy [])
    {| Probe.interface := Some "devmem"; Probe.ip := None; Probe.port := 0;
       Probe.username := None; Probe.password := None; Probe.iface := None;
       Probe.requirement := bm_restricted; Probe.key_arg_count := 1;
       Probe.list_ifaces := 0 |}
    (subcommand_for "culvert" "probe" probe_integrity_line)
    {| trace := [malloc 13]; errno := 0;
       registry := bridge_drivers (ast2600 healthy []) |}
    eq_refl _ _ _)) eq_refl) _).
  - intros h. cbn. lia.
  - intros h. cbn. lia.
  - intros h. cbn. lia.
  - intros h. cbn. lia.
Defined.

Lemma sfc_line_valid_witness :
  sfc_args_valid sfc_read_args /\
  existsb (has_key "t") sfc_read_line = true /\
  existsb (has_key "m") sfc_read_line = true /\
  existsb (has_key "l") sfc_read_line = true /\
  Sfc.key_arg_count sfc_read_args = count_args sfc_read_line.
Proof.
  exact (sfc_line_valid LP64 "culvert" sfc_read_line (ast2600 healthy [])
           sfc_read_args (subcommand_for "culvert" "sfc" sfc_read_line)
           {| trace := [malloc 11]; errno := 0;
              registry := bridge_drivers (ast2600 healthy []) |} eq_refl).
Defined.

Lemma sfc_mode_transfers_witness :
  let e := ast2600 healthy [] in
  let tr := filter data_call
              (trace (snd (Sfc.cmd_sfc_parsed sfc_read_args
                             (subcommand_for "culvert" "sfc" sfc_read_line)
                             e (world0 e)))) in
  tr = [] \/ tr = [flash_read 0x100 16; write STDOUT_FILENO 16].
Proof.
  exact (proj1 (sfc_mode_transfers sfc_read_args
                  (subcommand_for "culvert" "sfc" sfc_read_line)
                  (ast2600 healthy []) (world0 (ast2600 healthy [])) eq_refl)
           eq_refl).
Defined.

Lemma sfc_read_erase_run_witness :
  let e := ast2600 healthy [] in
  let r := Sfc.cmd_sfc_parsed sfc_read_args
             (subcommand_for "culvert" "sfc" sfc_read_line) e (world0 e) in
  fst r = Return 0 /\
  trace (snd r)
    = [ host_init 0 []; host_get_ahb; soc_probe; sfc_get_by_name "fmc";
        flash_init; malloc 16; flash_read 0x100 16; write STDOUT_FILENO 16;
        free; flash_destroy; soc_destroy; host_destroy ].
Proof.
  refine (proj1 (proj2 (proj2 (sfc_read_erase_run sfc_read_args
            (subcommand_for "culvert" "sfc" sfc_read_line)
            (ast2600 healthy []) (world0 (ast2600 healthy [])) _) eq_refl) _)
            _).
  - repeat split; intros h; cbn; lia.
  - cbn. lia.
  - cbn. lia.
Defined.

Lemma firmware_dump_protected_witness :
  let e := ast2600 healthy [] in
  let r := run (Read.cmd_read_firmware "culvert read" [TArg "devmem"]) e in
  fst r = Return 0.
Proof.
  refine (proj1 (proj2 (firmware_dump_protected "culvert read"
            [TArg "devmem"] (ast2600 healthy []) 1
            (subcommand_for "culvert read" "firmware" [TArg "devmem"])
            {| trace := [malloc 21]; errno := 0;
               registry := bridge_drivers (ast2600 healthy []) |}
            eq_refl 0x20000000 0x04000000 1 _))).
  vm_compute. tauto.
Defined.

Lemma devmem_operands_witness :
  let e := ast2600 healthy [] in
  run (Devmem.cmd_devmem "culvert" (map TArg ["write"; "0x1e6e2000"])) e
    = (Exit EX_USAGE,
       record argp_usage
         (record (malloc (name_size "culvert" "devmem")) (world0 e))).
Proof.
  refine (proj2 (devmem_operands "culvert" ["write"; "0x1e6e2000"]
                   (ast2600 healthy []) _ eq_refl) eq_refl).
  intros h. cbn. lia.
Defined.

Lemma devmem_returns_zero_witness :
  let e := ast2600 healthy [] in
  let r := run (Devmem.cmd_devmem "culvert"
                  (map TArg ["read"; "0x1e6e2000"])) e in
  0 = 0 /\
  exists before argc argv,
    trace (snd r)
      = before ++ [devmem_init; devmem_as_ahb; ast_ahb_access argc argv;
                   devmem_destroy].
Proof.
  exact (devmem_returns_zero "culvert" (map TArg ["read"; "0x1e6e2000"])
           (ast2600 healthy []) 0 eq_refl).
Defined.

Lemma console_operands_witness :
  let e := ast2600 healthy [] in
  let r := run (Console.cmd_console LP64 "culvert"
                  (map TArg ["uart3"; "uart2"; "115200"])) e in
  fst r = Exit EX_USAGE /\ forallb local (trace (snd r)) = true.
Proof.
  refine (proj2 (console_operands LP64 "culvert" (ast2600 healthy []) _)
            ["uart3"; "uart2"; "115200"] eq_refl eq_refl).
  intros h. cbn. lia.
Defined.

Lemma coprocessor_stop_line_witness :
  let e := ast2600 healthy [] in
  exists fmt,
    run (Coprocessor.cmd_coprocessor_stop "culvert coprocessor"
           (TArg "devmem" :: [])) e
      = (Exit EX_USAGE,
         add_calls [malloc (name_size "culvert coprocessor" "stop");
                    argp_error fmt] (world0 e)).
Proof.
  refine (proj1 (coprocessor_stop_line "culvert coprocessor"
                   (ast2600 healthy []) _) (TArg "devmem") [] eq_refl).
  intros h. cbn. lia.
Defined.
